(** * super-rpc: a shallow embedding of the RPC core and its properties

    The development follows the two classes of the library:
    [ProxyObjectRegistry] (proxy-object-registry.ts) and [SuperRPC]
    (super-rpc.ts), over an explicit model of the JavaScript heap.

    - JavaScript objects live in a heap indexed by locations; a value is a
      primitive or a reference, so identity ([===]) is equality of values.
    - Every method is a state transformer in the monad [M]: it returns a
      value, throws a value, or stops because the recursion budget of the
      codec ran out or a wire object does not have the shape given by the
      message types.
    - What the library does not own is a parameter: the helper functions of
      rpc-descriptor-types.ts, the id generator, the registered user functions,
      and the synchronous answer of the channel (class [Env]). *)

From stdpp Require Import base option list gmap strings pretty.

Open Scope string_scope.

(** ** Values *)

Abbreviation loc := nat.

(** An [Error] object is observed only through its name and message, so it is
    kept as an immutable value. *)
Inductive value :=
| VUndef
| VNull
| VBool (b : bool)
| VNum (n : Z)
| VStr (s : string)
| VError (name message : string)
| VRef (l : loc).

#[global] Instance value_eq_dec : EqDecision value.
Proof. solve_decision. Defined.

(** JavaScript truthiness, as used by [if (x)], [!x] and [x || y]. *)
Definition truthy (v : value) : bool :=
  match v with
  | VUndef | VNull => false
  | VBool b => b
  | VNum n => negb (n =? 0)%Z
  | VStr s => negb (String.eqb s "")
  | VError _ _ | VRef _ => true
  end.

(** [x ?? y]. *)
Definition nullish (v : value) : bool :=
  match v with VUndef | VNull => true | _ => false end.

Definition coalesce (v w : value) : value := if nullish v then w else v.

(** The key of a [Map<string, _>]: a lookup with anything but a string finds
    nothing, because only strings are ever stored. *)
Definition key_of (v : value) : option string :=
  match v with VStr s => Some s | _ => None end.

Definition map_get {A} (m : gmap string A) (k : value) : option A :=
  key_of k ≫= (m !!.).

Definition map_has {A} (m : gmap string A) (k : value) : bool :=
  bool_decide (is_Some (map_get m k)).

Definition map_delete {A} (m : gmap string A) (k : value) : gmap string A :=
  match key_of k with Some s => delete s m | None => m end.

(** ** Descriptors (rpc-descriptor-types.ts)

    Modelled from the spec: the descriptor type declarations are not part of
    the sources; the fields below are the ones super-rpc.ts reads and writes.
    Descriptors are plain JavaScript objects that the code casts freely
    between [FunctionDescriptor], [PropertyDescriptor], [ObjectDescriptor]
    and [ClassDescriptor], so one record with optional fields carries them
    all. *)

Inductive FunctionReturnBehavior := Sync | Async | Void.

#[global] Instance FunctionReturnBehavior_eq_dec : EqDecision FunctionReturnBehavior.
Proof. solve_decision. Defined.

Inductive DescriptorType := TObject | TFunction | TClass.

#[global] Instance DescriptorType_eq_dec : EqDecision DescriptorType.
Proof. solve_decision. Defined.

#[local] Unset Elimination Schemes.
Inductive Descriptor := mkDescriptor {
  d_type : option DescriptorType;
  d_name : option string;
  d_returns : option FunctionReturnBehavior;
  d_arguments : option (list Descriptor);
  d_idx : option nat;
  d_get : option Descriptor;
  d_set : option Descriptor;
  d_getOnly : bool;
  d_functions : option (list (string + Descriptor));
  d_proxiedProperties : option (list (string + Descriptor));
  d_readonlyProperties : option (list string);
  d_events : option (list (string + Descriptor));
  d_props : option (list (string * value));
  d_ctor : option Descriptor;
  d_static : option Descriptor;
  d_instance : option Descriptor;
  d_classId : option string
}.
#[local] Set Elimination Schemes.

(** The literal [{}]. *)
Definition empty_descriptor : Descriptor :=
  mkDescriptor None None None None None None None false
               None None None None None None None None None.

(** The literal [{ name }]. *)
Definition name_descriptor (name : option string) : Descriptor :=
  mkDescriptor None name None None None None None false
               None None None None None None None None None.

Definition set_d_type (t : DescriptorType) (d : Descriptor) : Descriptor :=
  mkDescriptor (Some t) (d_name d) (d_returns d) (d_arguments d) (d_idx d)
    (d_get d) (d_set d) (d_getOnly d) (d_functions d) (d_proxiedProperties d)
    (d_readonlyProperties d) (d_events d) (d_props d) (d_ctor d) (d_static d)
    (d_instance d) (d_classId d).

Definition set_d_name (n : option string) (d : Descriptor) : Descriptor :=
  mkDescriptor (d_type d) n (d_returns d) (d_arguments d) (d_idx d)
    (d_get d) (d_set d) (d_getOnly d) (d_functions d) (d_proxiedProperties d)
    (d_readonlyProperties d) (d_events d) (d_props d) (d_ctor d) (d_static d)
    (d_instance d) (d_classId d).

Definition set_d_props (p : option (list (string * value))) (d : Descriptor) : Descriptor :=
  mkDescriptor (d_type d) (d_name d) (d_returns d) (d_arguments d) (d_idx d)
    (d_get d) (d_set d) (d_getOnly d) (d_functions d) (d_proxiedProperties d)
    (d_readonlyProperties d) (d_events d) p (d_ctor d) (d_static d)
    (d_instance d) (d_classId d).

Definition set_d_class (classId : string) (ctor static : option Descriptor)
    (d : Descriptor) : Descriptor :=
  mkDescriptor (Some TClass) (d_name d) (d_returns d) (d_arguments d) (d_idx d)
    (d_get d) (d_set d) (d_getOnly d) (d_functions d) (d_proxiedProperties d)
    (d_readonlyProperties d) (d_events d) (d_props d) ctor static
    (d_instance d) (Some classId).

(** ** Channels and messages (rpc-message-types.ts) *)

(** [RPCChannel]: the three functions are optional; the record keeps which of
    them are present, and [ch_id] tells channel objects apart. *)
Record RPCChannel := mkChannel {
  ch_id : nat;
  has_sendSync : bool;
  has_sendAsync : bool;
  has_receive : bool
}.

#[global] Instance RPCChannel_eq_dec : EqDecision RPCChannel.
Proof. solve_decision. Defined.

Inductive CallAction := fn_call | ctor_call | prop_get | prop_set | method_call.

#[global] Instance CallAction_eq_dec : EqDecision CallAction.
Proof. solve_decision. Defined.

Inductive RPC_Body :=
| get_descriptors
| descriptors (objects functions classes : option (gmap string Descriptor))
| call (action : CallAction) (callType : FunctionReturnBehavior)
       (objId : value) (prop : value) (args : list value) (callId : value)
| fn_reply (callType : FunctionReturnBehavior) (success : bool)
           (result : value) (callId : value)
| obj_died (objId : value)
| async_fn (objId : value) (args : list value).

(** A message and whether it carries [rpc_marker: 'srpc']. *)
Record RPC_Message := mkMessage { rpc_marker : bool; body : RPC_Body }.

Inductive Transport := ViaSync | ViaAsync.

(** ** The heap *)

Inductive PromiseState :=
| Pending
| Following (p : loc)
| Fulfilled (v : value)
| Rejected (reason : value).

(** The callbacks this library attaches to promises. *)
Inductive Reaction :=
| AssignProperty (target : value) (prop : value)
    (* callTargetFunction, prop_set: value => target[msg.prop] = value *)
| ReplySettlement (objId : string) (ch : RPCChannel)
    (* processBeforeSerialization, Promise: then(...).finally(send fn_reply) *)
| ReplyCall (callId : value) (ch : RPCChannel)
    (* callTargetFunction, async: then(serialize, toString).then(send fn_reply) *)
| ResolvePromise (p : loc).
    (* resolve(promise): the resolved promise follows the given one *)

(** The optional [dispose] callback of [ProxyObjectRegistry.register]:
    [() => this.sendObjectDied(objId, replyChannel)] or a user callback. *)
Inductive DisposeHook :=
| SendObjectDied (objId : string) (ch : RPCChannel)
| UserDispose (id : nat).

(** The closures of the library, and the user's functions (opaque). *)
Inductive Code :=
| UserFunction (id : nat)
| VoidProxy (objId : option string) (func : Descriptor) (action : CallAction) (ch : RPCChannel)
| SyncProxy (objId : option string) (func : Descriptor) (action : CallAction) (ch : RPCChannel)
| AsyncProxy (objId : option string) (func : Descriptor) (action : CallAction) (ch : RPCChannel)
| CtorStub (classId : string)
| EventListener (add : bool) (objId : option string) (descriptor : option Descriptor)
                (eventNames : list value) (listenerFunctions : gmap string loc)
| DisposeFunc (objId : string) (unregToken : loc) (obj : loc) (dispose : option DisposeHook).

Inductive Kind :=
| KObject
| KPromise (s : PromiseState) (reactions : list Reaction)
| KFunction (c : Code).

(** The module-private symbols used as property keys. *)
Inductive Symbol := hostObjectId | proxyObjectId | classIdSym | rpc_disposed | rpc_disposeFunc.

Record Obj := mkObj {
  o_kind : Kind;
  o_proto : option loc;
  o_props : list (string * value);     (* own enumerable data properties, in insertion order *)
  o_hidden : list (string * value);    (* own non-enumerable data properties *)
  o_accessors : list (string * (loc * option loc));   (* Object.defineProperty: get, set *)
  o_hostObjectId : value;
  o_proxyObjectId : value;
  o_classIdSym : value;
  o_rpc_disposed : value;
  o_rpc_disposeFunc : value
}.

Definition new_obj (k : Kind) (props : list (string * value)) : Obj :=
  mkObj k None props [] [] VUndef VUndef VUndef VUndef VUndef.

Definition get_sym (s : Symbol) (o : Obj) : value :=
  match s with
  | hostObjectId => o_hostObjectId o
  | proxyObjectId => o_proxyObjectId o
  | classIdSym => o_classIdSym o
  | rpc_disposed => o_rpc_disposed o
  | rpc_disposeFunc => o_rpc_disposeFunc o
  end.

Definition set_sym (s : Symbol) (v : value) (o : Obj) : Obj :=
  match s with
  | hostObjectId =>
      mkObj (o_kind o) (o_proto o) (o_props o) (o_hidden o) (o_accessors o)
            v (o_proxyObjectId o) (o_classIdSym o) (o_rpc_disposed o) (o_rpc_disposeFunc o)
  | proxyObjectId =>
      mkObj (o_kind o) (o_proto o) (o_props o) (o_hidden o) (o_accessors o)
            (o_hostObjectId o) v (o_classIdSym o) (o_rpc_disposed o) (o_rpc_disposeFunc o)
  | classIdSym =>
      mkObj (o_kind o) (o_proto o) (o_props o) (o_hidden o) (o_accessors o)
            (o_hostObjectId o) (o_proxyObjectId o) v (o_rpc_disposed o) (o_rpc_disposeFunc o)
  | rpc_disposed =>
      mkObj (o_kind o) (o_proto o) (o_props o) (o_hidden o) (o_accessors o)
            (o_hostObjectId o) (o_proxyObjectId o) (o_classIdSym o) v (o_rpc_disposeFunc o)
  | rpc_disposeFunc =>
      mkObj (o_kind o) (o_proto o) (o_props o) (o_hidden o) (o_accessors o)
            (o_hostObjectId o) (o_proxyObjectId o) (o_classIdSym o) (o_rpc_disposed o) v
  end.

Definition set_kind (k : Kind) (o : Obj) : Obj :=
  mkObj k (o_proto o) (o_props o) (o_hidden o) (o_accessors o)
        (o_hostObjectId o) (o_proxyObjectId o) (o_classIdSym o) (o_rpc_disposed o) (o_rpc_disposeFunc o).

Definition set_proto (p : option loc) (o : Obj) : Obj :=
  mkObj (o_kind o) p (o_props o) (o_hidden o) (o_accessors o)
        (o_hostObjectId o) (o_proxyObjectId o) (o_classIdSym o) (o_rpc_disposed o) (o_rpc_disposeFunc o).

Definition set_props (ps : list (string * value)) (o : Obj) : Obj :=
  mkObj (o_kind o) (o_proto o) ps (o_hidden o) (o_accessors o)
        (o_hostObjectId o) (o_proxyObjectId o) (o_classIdSym o) (o_rpc_disposed o) (o_rpc_disposeFunc o).

Definition set_hidden (ps : list (string * value)) (o : Obj) : Obj :=
  mkObj (o_kind o) (o_proto o) (o_props o) ps (o_accessors o)
        (o_hostObjectId o) (o_proxyObjectId o) (o_classIdSym o) (o_rpc_disposed o) (o_rpc_disposeFunc o).

Definition set_accessors (a : list (string * (loc * option loc))) (o : Obj) : Obj :=
  mkObj (o_kind o) (o_proto o) (o_props o) (o_hidden o) a
        (o_hostObjectId o) (o_proxyObjectId o) (o_classIdSym o) (o_rpc_disposed o) (o_rpc_disposeFunc o).

(** ** The state of one endpoint *)

Record HostRegistryEntry := mkEntry {
  entry_target : value;
  entry_descriptor : option Descriptor
}.

Record State := mkState {
  (* the JavaScript heap and the objects the collector has reclaimed *)
  heap : gmap loc Obj;
  collected : gset loc;
  (* ProxyObjectRegistry *)
  registry : gmap string loc;                       (* Map<string, WeakRef<any>> *)
  objectFinalized : list (loc * value * loc);       (* target, held value, unregister token *)
  (* SuperRPC *)
  channel : RPCChannel;
  remoteObjectDescriptors : option (gmap string Descriptor);
  remoteFunctionDescriptors : option (gmap string Descriptor);
  remoteClassDescriptors : option (gmap string Descriptor);
  remoteDescriptorsCallbacks : option loc;
  asyncCallbacks : gmap string loc;                 (* the promise that resolve/reject settle *)
  callId : nat;
  proxyClassRegistry : gmap string loc;
  hostObjectRegistry : gmap string HostRegistryEntry;
  hostFunctionRegistry : gmap string HostRegistryEntry;
  hostClassRegistry : gmap string HostRegistryEntry;
  currentContext : value;
  (* the environment *)
  idCount : nat;                                    (* ids drawn from objectIdGenerator *)
  sent : list (Transport * RPCChannel * RPC_Message);   (* calls of channel.sendSync / sendAsync *)
  microtasks : list (Reaction * PromiseState)       (* promise jobs not yet run *)
}.

(** Field updates. *)

Definition set_heap x (st : State) : State :=
  mkState x (collected st) (registry st) (objectFinalized st) (channel st)
    (remoteObjectDescriptors st) (remoteFunctionDescriptors st) (remoteClassDescriptors st)
    (remoteDescriptorsCallbacks st) (asyncCallbacks st) (callId st) (proxyClassRegistry st)
    (hostObjectRegistry st) (hostFunctionRegistry st) (hostClassRegistry st)
    (currentContext st) (idCount st) (sent st) (microtasks st).

Definition set_collected x (st : State) : State :=
  mkState (heap st) x (registry st) (objectFinalized st) (channel st)
    (remoteObjectDescriptors st) (remoteFunctionDescriptors st) (remoteClassDescriptors st)
    (remoteDescriptorsCallbacks st) (asyncCallbacks st) (callId st) (proxyClassRegistry st)
    (hostObjectRegistry st) (hostFunctionRegistry st) (hostClassRegistry st)
    (currentContext st) (idCount st) (sent st) (microtasks st).

Definition set_registry x (st : State) : State :=
  mkState (heap st) (collected st) x (objectFinalized st) (channel st)
    (remoteObjectDescriptors st) (remoteFunctionDescriptors st) (remoteClassDescriptors st)
    (remoteDescriptorsCallbacks st) (asyncCallbacks st) (callId st) (proxyClassRegistry st)
    (hostObjectRegistry st) (hostFunctionRegistry st) (hostClassRegistry st)
    (currentContext st) (idCount st) (sent st) (microtasks st).

Definition set_objectFinalized x (st : State) : State :=
  mkState (heap st) (collected st) (registry st) x (channel st) (remoteObjectDescriptors st)
    (remoteFunctionDescriptors st) (remoteClassDescriptors st) (remoteDescriptorsCallbacks
    st) (asyncCallbacks st) (callId st) (proxyClassRegistry st) (hostObjectRegistry st)
    (hostFunctionRegistry st) (hostClassRegistry st) (currentContext st) (idCount st) (sent
    st) (microtasks st).

Definition set_channel x (st : State) : State :=
  mkState (heap st) (collected st) (registry st) (objectFinalized st) x
    (remoteObjectDescriptors st) (remoteFunctionDescriptors st) (remoteClassDescriptors st)
    (remoteDescriptorsCallbacks st) (asyncCallbacks st) (callId st) (proxyClassRegistry st)
    (hostObjectRegistry st) (hostFunctionRegistry st) (hostClassRegistry st)
    (currentContext st) (idCount st) (sent st) (microtasks st).

Definition set_remoteObjectDescriptors x (st : State) : State :=
  mkState (heap st) (collected st) (registry st) (objectFinalized st) (channel st) x
    (remoteFunctionDescriptors st) (remoteClassDescriptors st) (remoteDescriptorsCallbacks
    st) (asyncCallbacks st) (callId st) (proxyClassRegistry st) (hostObjectRegistry st)
    (hostFunctionRegistry st) (hostClassRegistry st) (currentContext st) (idCount st) (sent
    st) (microtasks st).

Definition set_remoteFunctionDescriptors x (st : State) : State :=
  mkState (heap st) (collected st) (registry st) (objectFinalized st) (channel st)
    (remoteObjectDescriptors st) x (remoteClassDescriptors st) (remoteDescriptorsCallbacks
    st) (asyncCallbacks st) (callId st) (proxyClassRegistry st) (hostObjectRegistry st)
    (hostFunctionRegistry st) (hostClassRegistry st) (currentContext st) (idCount st) (sent
    st) (microtasks st).

Definition set_remoteClassDescriptors x (st : State) : State :=
  mkState (heap st) (collected st) (registry st) (objectFinalized st) (channel st)
    (remoteObjectDescriptors st) (remoteFunctionDescriptors st) x
    (remoteDescriptorsCallbacks st) (asyncCallbacks st) (callId st) (proxyClassRegistry st)
    (hostObjectRegistry st) (hostFunctionRegistry st) (hostClassRegistry st)
    (currentContext st) (idCount st) (sent st) (microtasks st).

Definition set_remoteDescriptorsCallbacks x (st : State) : State :=
  mkState (heap st) (collected st) (registry st) (objectFinalized st) (channel st)
    (remoteObjectDescriptors st) (remoteFunctionDescriptors st) (remoteClassDescriptors st)
    x (asyncCallbacks st) (callId st) (proxyClassRegistry st) (hostObjectRegistry st)
    (hostFunctionRegistry st) (hostClassRegistry st) (currentContext st) (idCount st) (sent
    st) (microtasks st).

Definition set_asyncCallbacks x (st : State) : State :=
  mkState (heap st) (collected st) (registry st) (objectFinalized st) (channel st)
    (remoteObjectDescriptors st) (remoteFunctionDescriptors st) (remoteClassDescriptors st)
    (remoteDescriptorsCallbacks st) x (callId st) (proxyClassRegistry st)
    (hostObjectRegistry st) (hostFunctionRegistry st) (hostClassRegistry st)
    (currentContext st) (idCount st) (sent st) (microtasks st).

Definition set_callId x (st : State) : State :=
  mkState (heap st) (collected st) (registry st) (objectFinalized st) (channel st)
    (remoteObjectDescriptors st) (remoteFunctionDescriptors st) (remoteClassDescriptors st)
    (remoteDescriptorsCallbacks st) (asyncCallbacks st) x (proxyClassRegistry st)
    (hostObjectRegistry st) (hostFunctionRegistry st) (hostClassRegistry st)
    (currentContext st) (idCount st) (sent st) (microtasks st).

Definition set_proxyClassRegistry x (st : State) : State :=
  mkState (heap st) (collected st) (registry st) (objectFinalized st) (channel st)
    (remoteObjectDescriptors st) (remoteFunctionDescriptors st) (remoteClassDescriptors st)
    (remoteDescriptorsCallbacks st) (asyncCallbacks st) (callId st) x (hostObjectRegistry
    st) (hostFunctionRegistry st) (hostClassRegistry st) (currentContext st) (idCount st)
    (sent st) (microtasks st).

Definition set_hostObjectRegistry x (st : State) : State :=
  mkState (heap st) (collected st) (registry st) (objectFinalized st) (channel st)
    (remoteObjectDescriptors st) (remoteFunctionDescriptors st) (remoteClassDescriptors st)
    (remoteDescriptorsCallbacks st) (asyncCallbacks st) (callId st) (proxyClassRegistry st)
    x (hostFunctionRegistry st) (hostClassRegistry st) (currentContext st) (idCount st)
    (sent st) (microtasks st).

Definition set_hostFunctionRegistry x (st : State) : State :=
  mkState (heap st) (collected st) (registry st) (objectFinalized st) (channel st)
    (remoteObjectDescriptors st) (remoteFunctionDescriptors st) (remoteClassDescriptors st)
    (remoteDescriptorsCallbacks st) (asyncCallbacks st) (callId st) (proxyClassRegistry st)
    (hostObjectRegistry st) x (hostClassRegistry st) (currentContext st) (idCount st) (sent
    st) (microtasks st).

Definition set_hostClassRegistry x (st : State) : State :=
  mkState (heap st) (collected st) (registry st) (objectFinalized st) (channel st)
    (remoteObjectDescriptors st) (remoteFunctionDescriptors st) (remoteClassDescriptors st)
    (remoteDescriptorsCallbacks st) (asyncCallbacks st) (callId st) (proxyClassRegistry st)
    (hostObjectRegistry st) (hostFunctionRegistry st) x (currentContext st) (idCount st)
    (sent st) (microtasks st).

Definition set_currentContext x (st : State) : State :=
  mkState (heap st) (collected st) (registry st) (objectFinalized st) (channel st)
    (remoteObjectDescriptors st) (remoteFunctionDescriptors st) (remoteClassDescriptors st)
    (remoteDescriptorsCallbacks st) (asyncCallbacks st) (callId st) (proxyClassRegistry st)
    (hostObjectRegistry st) (hostFunctionRegistry st) (hostClassRegistry st) x (idCount st)
    (sent st) (microtasks st).

Definition set_idCount x (st : State) : State :=
  mkState (heap st) (collected st) (registry st) (objectFinalized st) (channel st)
    (remoteObjectDescriptors st) (remoteFunctionDescriptors st) (remoteClassDescriptors st)
    (remoteDescriptorsCallbacks st) (asyncCallbacks st) (callId st) (proxyClassRegistry st)
    (hostObjectRegistry st) (hostFunctionRegistry st) (hostClassRegistry st)
    (currentContext st) x (sent st) (microtasks st).

Definition set_sent x (st : State) : State :=
  mkState (heap st) (collected st) (registry st) (objectFinalized st) (channel st)
    (remoteObjectDescriptors st) (remoteFunctionDescriptors st) (remoteClassDescriptors st)
    (remoteDescriptorsCallbacks st) (asyncCallbacks st) (callId st) (proxyClassRegistry st)
    (hostObjectRegistry st) (hostFunctionRegistry st) (hostClassRegistry st)
    (currentContext st) (idCount st) x (microtasks st).

Definition set_microtasks x (st : State) : State :=
  mkState (heap st) (collected st) (registry st) (objectFinalized st) (channel st)
    (remoteObjectDescriptors st) (remoteFunctionDescriptors st) (remoteClassDescriptors st)
    (remoteDescriptorsCallbacks st) (asyncCallbacks st) (callId st) (proxyClassRegistry st)
    (hostObjectRegistry st) (hostFunctionRegistry st) (hostClassRegistry st)
    (currentContext st) (idCount st) (sent st) x.

(** ** The monad of methods *)

Inductive Stop := OutOfFuel | IllTyped.

(** The outcome of running a method: it returns [a], throws [e], or stops. *)
Inductive Res (A : Type) :=
| Ret (a : A) (st : State)
| Exn (e : value) (st : State)
| Halt (why : Stop).
Arguments Ret {A} a st.
Arguments Exn {A} e st.
Arguments Halt {A} why.

Definition M (A : Type) : Type := State → Res A.

#[global] Instance M_ret : MRet M := λ A a st, Ret a st.

#[global] Instance M_bind : MBind M := λ A B f m st,
  match m st with
  | Ret a st' => f a st'
  | Exn e st' => Exn e st'
  | Halt w => Halt w
  end.

#[global] Instance M_fmap : FMap M := λ A B f m st,
  match m st with
  | Ret a st' => Ret (f a) st'
  | Exn e st' => Exn e st'
  | Halt w => Halt w
  end.

Definition throw {A} (e : value) : M A := λ st, Exn e st.
Definition halt {A} (w : Stop) : M A := λ _, Halt w.
Definition get_state : M State := λ st, Ret st st.
Definition modify (f : State → State) : M unit := λ st, Ret tt (f st).

(** [try { m } catch (e) { h e }]: what [m] changed before it threw stays. *)
Definition try_catch {A} (m : M A) (h : value → M A) : M A := λ st,
  match m st with
  | Exn e st' => h e st'
  | r => r
  end.

(** [new Error(message)]. *)
Definition Error (message : string) : value := VError "Error" message.

(** [args.map((arg, idx) => f arg idx)]. *)
Fixpoint map_indexed {A B} (f : A → nat → M B) (idx : nat) (args : list A) : M (list B) :=
  match args with
  | [] => mret []
  | arg :: rest =>
      b ← f arg idx;
      bs ← map_indexed f (S idx) rest;
      mret (b :: bs)
  end.

(** [for (const x of xs) body x]. *)
Fixpoint for_each {A} (body : A → M unit) (xs : list A) : M unit :=
  match xs with
  | [] => mret tt
  | x :: rest => body x;; for_each body rest
  end.

(** ** Objects: allocation, properties, symbols *)

Definition alloc (o : Obj) : M loc := λ st,
  let l := fresh (dom (heap st)) in
  Ret l (set_heap (<[l := o]> (heap st)) st).

Definition update_obj (l : loc) (f : Obj → Obj) : M unit :=
  modify (λ st, set_heap (alter f l (heap st)) st).

Fixpoint assoc (name : string) (ps : list (string * value)) : option value :=
  match ps with
  | [] => None
  | (k, v) :: rest => if decide (k = name) then Some v else assoc name rest
  end.

Fixpoint assoc_set (name : string) (v : value) (ps : list (string * value)) : option (list (string * value)) :=
  match ps with
  | [] => None
  | (k, w) :: rest =>
      if decide (k = name) then Some ((k, v) :: rest)
      else cons (k, w) <$> assoc_set name v rest
  end.

(** [obj[name]] through the prototype chain. A chain of distinct objects is
    never longer than the heap, which bounds the walk. Accessor properties
    are not run: host targets are read as data. *)
Fixpoint lookup_chain (n : nat) (h : gmap loc Obj) (l : loc) (name : string) : value :=
  match n with
  | 0 => VUndef
  | S n =>
      match h !! l with
      | None => VUndef
      | Some o =>
          match assoc name (o_props o) with
          | Some v => v
          | None =>
              match assoc name (o_hidden o) with
              | Some v => v
              | None =>
                  match o_proto o with
                  | Some p => lookup_chain n h p name
                  | None => VUndef
                  end
              end
          end
      end
  end.

Definition js_get (st : State) (obj : value) (name : string) : value :=
  match obj with
  | VRef l => lookup_chain (size (heap st)) (heap st) l name
  | _ => VUndef
  end.

(** [obj[name] = v] on data properties: an own property keeps its place, a
    new one is added last. *)
Definition assign (name : string) (v : value) (o : Obj) : Obj :=
  match assoc_set name v (o_props o) with
  | Some ps => set_props ps o
  | None =>
      match assoc_set name v (o_hidden o) with
      | Some hs => set_hidden hs o
      | None => set_props (o_props o ++ [(name, v)]) o
      end
  end.

Definition js_set (obj : value) (name : string) (v : value) : M unit :=
  match obj with
  | VRef l => update_obj l (assign name v)
  | _ => mret tt
  end.

(** [obj[sym]] for one of the private symbols. *)
Definition sym_get (st : State) (obj : value) (s : Symbol) : value :=
  match obj with
  | VRef l => from_option (get_sym s) VUndef (heap st !! l)
  | _ => VUndef
  end.

Definition sym_set (obj : value) (s : Symbol) (v : value) : M unit :=
  match obj with
  | VRef l => update_obj l (set_sym s v)
  | _ => mret tt
  end.

(** [Object.keys(obj)]. *)
Definition keys (o : Obj) : list string := (o_props o).*1.

(** [typeof obj === 'function'] and [obj.constructor === Promise]. *)
Definition is_function (st : State) (v : value) : bool :=
  match v with
  | VRef l => match o_kind <$> heap st !! l with Some (KFunction _) => true | _ => false end
  | _ => false
  end.

Definition is_promise (st : State) (v : value) : bool :=
  match v with
  | VRef l => match o_kind <$> heap st !! l with Some (KPromise _ _) => true | _ => false end
  | _ => false
  end.

(** ** Strings *)

(** [String(v)] and template literals; references print through the
    environment (their [toString] method). *)
Definition js_String (ref_toString : loc → string) (v : value) : string :=
  match v with
  | VUndef => "undefined"
  | VNull => "null"
  | VBool true => "true"
  | VBool false => "false"
  | VNum n => pretty n
  | VStr s => s
  | VError name message =>
      if decide (message = "") then name else name +:+ ": " +:+ message
  | VRef l => ref_toString l
  end.

(** [new Error(v)]: an undefined message is the empty one. *)
Definition Error_of (ref_toString : loc → string) (v : value) : value :=
  VError "Error" (match v with VUndef => "" | _ => js_String ref_toString v end).

(** [err?.toString?.()]. *)
Definition toString_opt (ref_toString : loc → string) (err : value) : value :=
  if nullish err then VUndef else VStr (js_String ref_toString err).

(** The double quote character, as a string. *)
Definition dquote : string :=
  String (Ascii.Ascii false true false false false true false false) "".

(** [s.split('_')]. *)
Fixpoint split_underscore (s : string) : list string :=
  match s with
  | EmptyString => [""]
  | String c rest =>
      if decide (String c "" = "_") then "" :: split_underscore rest
      else match split_underscore rest with
           | [] => [String c ""]
           | w :: ws => String c w :: ws
           end
  end.

(** ** The environment

    Modelled from the spec: the helpers of rpc-descriptor-types.ts
    ([getPropName], [getArgumentDescriptor], [getFunctionDescriptor],
    [getPropertyDescriptor], [getEventDescriptor], [isFunctionDescriptor],
    [processObjectDescriptor], [processFunctionDescriptor]) are imported by
    super-rpc.ts but are not part of the sources; they are parameters here,
    next to what the user supplies: the id generator, the registered
    functions, the channel and the printing of objects. *)
Class Env := {
  getPropName : string + Descriptor → string;
  getArgumentDescriptor : option Descriptor → nat → option Descriptor;
  getFunctionDescriptor : option Descriptor → value → option Descriptor;
  getPropertyDescriptor : option Descriptor → value → option Descriptor;
  getEventDescriptor : option Descriptor → string → option Descriptor;
  isFunctionDescriptor : option Descriptor → bool;
  processObjectDescriptor : Descriptor → value → option Descriptor;
  processFunctionDescriptor : Descriptor → value → option Descriptor;
  (* the n-th id returned by the generator passed to the constructor *)
  objectIdGenerator : nat → string;
  (* fn.apply(scope, args) and new fn(...args) for a user function *)
  user_apply : nat → value → list value → M value;
  user_construct : nat → list value → M value;
  (* what channel.sendSync(message) returns; None is a falsy answer *)
  channel_sendSync : RPCChannel → RPC_Message → State → option RPC_Message;
  (* obj.toString() and JSON.stringify(response) *)
  ref_toString : loc → string;
  JSON_stringify : RPC_Message → string
}.

(** ** Promises (the part of the runtime the library relies on) *)

Definition kind_of (st : State) (l : loc) : option Kind := o_kind <$> heap st !! l.

Definition enqueue (r : Reaction) (s : PromiseState) : M unit :=
  modify (λ st, set_microtasks (microtasks st ++ [(r, s)]) st).

(** [p.then(r)]: on a settled promise the reaction becomes a job at once. *)
Definition promise_then (p : loc) (r : Reaction) : M unit :=
  st ← get_state;
  match kind_of st p with
  | Some (KPromise (Fulfilled v) _) => enqueue r (Fulfilled v)
  | Some (KPromise (Rejected e) _) => enqueue r (Rejected e)
  | Some (KPromise s rs) => update_obj p (set_kind (KPromise s (rs ++ [r])))
  | _ => mret tt
  end.

Definition settle (p : loc) (s : PromiseState) : M unit :=
  st ← get_state;
  match kind_of st p with
  | Some (KPromise _ rs) =>
      update_obj p (set_kind (KPromise s []));;
      for_each (λ r, enqueue r s) rs
  | _ => mret tt
  end.

(** The [resolve] and [reject] functions of the promise [p]. *)
Definition promise_resolve (p : loc) (v : value) : M unit :=
  st ← get_state;
  match kind_of st p with
  | Some (KPromise Pending rs) =>
      match v with
      | VRef q =>
          if is_promise st v then
            update_obj p (set_kind (KPromise (Following q) rs));;
            promise_then q (ResolvePromise p)
          else settle p (Fulfilled v)
      | _ => settle p (Fulfilled v)
      end
  | _ => mret tt
  end.

Definition promise_reject (p : loc) (reason : value) : M unit :=
  st ← get_state;
  match kind_of st p with
  | Some (KPromise Pending _) => settle p (Rejected reason)
  | _ => mret tt
  end.

(** [Promise.resolve(v).then(r)]. *)
Definition Promise_resolve_then (v : value) (r : Reaction) : M unit :=
  st ← get_state;
  match v with
  | VRef l => if is_promise st v then promise_then l r else enqueue r (Fulfilled v)
  | _ => enqueue r (Fulfilled v)
  end.

(** ** proxy-object-registry.ts *)

Module ProxyObjectRegistry.

(** [registry.get(objId)?.deref()]. *)
Definition get (st : State) (objId : string) : value :=
  match registry st !! objId with
  | Some l => if decide (l ∈ collected st) then VUndef else VRef l
  | None => VUndef
  end.

Definition has (st : State) (objId : string) : bool :=
  bool_decide (is_Some (registry st !! objId)).

Definition delete (objId : string) : M unit :=
  modify (λ st, set_registry (base.delete objId (registry st)) st).

Definition remoteObjectDisposed (objId : string) (uregToken : loc) : M unit :=
  modify (λ st, set_objectFinalized
                  (filter (λ r, r.2 ≠ uregToken) (objectFinalized st)) st);;
  modify (λ st, set_registry (base.delete objId (registry st)) st).

(** The closure stored under [rpc_disposeFunc]; [run] calls [dispose]. *)
Definition disposeFunc (run : DisposeHook → M unit)
    (objId : string) (unregToken obj : loc) (dispose : option DisposeHook) : M unit :=
  remoteObjectDisposed objId unregToken;;
  sym_set (VRef obj) rpc_disposed (VBool true);;
  match dispose with
  | Some hook => run hook
  | None => mret tt
  end.

Definition register (objId : string) (obj : loc) (dispose : option DisposeHook) : M unit :=
  unregToken ← alloc (new_obj KObject []);
  sym_set (VRef obj) rpc_disposed (VBool false);;
  fn ← alloc (new_obj (KFunction (DisposeFunc objId unregToken obj dispose)) []);
  sym_set (VRef obj) rpc_disposeFunc (VRef fn);;
  st ← get_state;
  modify (set_objectFinalized
            (objectFinalized st ++ [(obj, sym_get st (VRef obj) rpc_disposeFunc, unregToken)]));;
  modify (λ st, set_registry (<[objId := obj]> (registry st)) st).

(** The collector reclaims [obj]: its weak references are cleared and the
    finalization callback [(rpc_dispose) => rpc_dispose()] runs on the held
    value of every registration of [obj]; [call] invokes a function. *)
Definition finalize (call : value → M unit) (obj : loc) : M unit :=
  modify (λ st, set_collected ({[obj]} ∪ collected st) st);;
  st ← get_state;
  let due := filter (λ r, r.1.1 = obj) (objectFinalized st) in
  modify (set_objectFinalized (filter (λ r, r.1.1 ≠ obj) (objectFinalized st)));;
  for_each (λ r, call r.1.2) due.

End ProxyObjectRegistry.

(** ** super-rpc.ts *)

Module SuperRPC.
Section methods.
Context `{!Env}.

(** An object literal for a message: the marker is added on sending. *)
Definition msg (b : RPC_Body) : RPC_Message := mkMessage false b.

Definition connect (ch : RPCChannel) : M unit :=
  modify (set_channel ch).

Definition registerHostObject (objId : string) (target : value) (descriptor : Descriptor) : M unit :=
  let descriptor := set_d_type TObject descriptor in
  sym_set target hostObjectId (VStr objId);;
  modify (λ st, set_hostObjectRegistry
                  (<[objId := mkEntry target (Some descriptor)]> (hostObjectRegistry st)) st).

Definition registerHostFunction (objId : string) (target : value)
    (descriptor : option Descriptor) : M unit :=
  let descriptor := set_d_type TFunction (default empty_descriptor descriptor) in
  sym_set target hostObjectId (VStr objId);;
  modify (λ st, set_hostFunctionRegistry
                  (<[objId := mkEntry target (Some descriptor)]> (hostFunctionRegistry st)) st).

(** [descriptor.static] and [descriptor.ctor] are the objects whose [type]
    the two nested registrations set, so the stored class descriptor holds
    the typed ones. *)
Definition registerHostClass (classId : string) (classCtor : value) (descriptor : Descriptor) : M unit :=
  match d_static descriptor with
  | Some static => registerHostObject classId classCtor static
  | None => mret tt
  end;;
  match d_ctor descriptor with
  | Some ctor => registerHostFunction classId classCtor (Some ctor)
  | None => mret tt
  end;;
  sym_set classCtor classIdSym (VStr classId);;
  let descriptor :=
    set_d_class classId (set_d_type TFunction <$> d_ctor descriptor)
                (set_d_type TObject <$> d_static descriptor) descriptor in
  modify (λ st, set_hostClassRegistry
                  (<[classId := mkEntry classCtor (Some descriptor)]> (hostClassRegistry st)) st).

Definition addMarker (message : RPC_Message) : RPC_Message :=
  mkMessage true (body message).

(** [typeof message === 'object' && message.rpc_marker === 'srpc']. *)
Definition checkMarker (message : RPC_Message) : bool := rpc_marker message.

Definition emit (t : Transport) (ch : RPCChannel) (message : RPC_Message) : M unit :=
  modify (λ st, set_sent (sent st ++ [(t, ch, message)]) st).

Definition sendSync (message : RPC_Message) (ch : RPCChannel) : M (option RPC_Message) :=
  let message := addMarker message in
  if has_sendSync ch then
    emit ViaSync ch message;;
    st ← get_state;
    mret (channel_sendSync ch message st)
  else mret None.

Definition sendAsync (message : RPC_Message) (ch : RPCChannel) : M unit :=
  let message := addMarker message in
  if has_sendAsync ch then emit ViaAsync ch message else mret tt.

Definition sendSyncIfPossible (message : RPC_Message) (ch : RPCChannel) : M (option RPC_Message) :=
  if has_sendSync ch then sendSync message ch
  else sendAsync message ch;; mret None.

Definition sendAsyncIfPossible (message : RPC_Message) (ch : RPCChannel) : M (option RPC_Message) :=
  if has_sendAsync ch then sendAsync message ch;; mret None
  else sendSync message ch.

Definition sendObjectDied (objId : string) (replyChannel : RPCChannel) : M unit :=
  sendAsyncIfPossible (msg (obj_died (VStr objId))) replyChannel;; mret tt.

Definition setRemoteDescriptors (response : option RPC_Message) : M bool :=
  match response with
  | None => mret false
  | Some m =>
      match body m with
      | descriptors objects functions classes =>
          (if classes is Some _ then modify (set_remoteClassDescriptors classes) else mret tt);;
          (if objects is Some _ then modify (set_remoteObjectDescriptors objects) else mret tt);;
          (if functions is Some _ then modify (set_remoteFunctionDescriptors functions) else mret tt);;
          mret true
      | _ => mret true
      end
  end.

Definition getLocalDescriptors (st : State) (entries : gmap string HostRegistryEntry)
    (processFn : option (Descriptor → value → option Descriptor)) : gmap string Descriptor :=
  omap (λ entry,
          d ← entry_descriptor entry;
          let descr := default d (processFn ≫= λ f, f d (entry_target entry)) in
          match d_type d, d_readonlyProperties d with
          | Some TObject, Some readonly =>
              Some (set_d_props
                      (Some ((λ prop, (prop, js_get st (entry_target entry) prop)) <$> readonly)) descr)
          | _, _ => Some descr
          end)
       entries.

Definition sendRemoteDescriptors (replyChannel : RPCChannel) : M unit :=
  st ← get_state;
  sendSyncIfPossible
    (msg (descriptors
            (Some (getLocalDescriptors st (hostObjectRegistry st) (Some processObjectDescriptor)))
            (Some (getLocalDescriptors st (hostFunctionRegistry st) (Some processFunctionDescriptor)))
            (Some (getLocalDescriptors st (hostClassRegistry st) None))))
    replyChannel;;
  mret tt.

(** Returns [true]/[false] with a synchronous channel, a promise otherwise. *)
Definition requestRemoteDescriptors : M value :=
  st ← get_state;
  if has_sendSync (channel st) then
    response ← sendSync (msg get_descriptors) (channel st);
    VBool <$> setRemoteDescriptors response
  else
    p ← alloc (new_obj (KPromise Pending []) []);
    sendAsync (msg get_descriptors) (channel st);;
    modify (set_remoteDescriptorsCallbacks (Some p));;
    mret (VRef p).

(** The next id of [objectIdGenerator]. *)
Definition generateId : M string :=
  st ← get_state;
  modify (set_idCount (S (idCount st)));;
  mret (objectIdGenerator (idCount st)).

Definition registerLocalObj (obj : value) (descriptor : Descriptor) : M string :=
  st ← get_state;
  let objId := sym_get st obj hostObjectId in
  match map_get (hostObjectRegistry st) objId, key_of objId with
  | Some _, Some objId => mret objId
  | _, _ =>
      objId ← generateId;
      modify (λ st, set_hostObjectRegistry
                      (<[objId := mkEntry obj (Some descriptor)]> (hostObjectRegistry st)) st);;
      sym_set obj hostObjectId (VStr objId);;
      mret objId
  end.

Definition registerLocalFunc (obj : value) (descriptor : option Descriptor) : M string :=
  st ← get_state;
  let objId := sym_get st obj hostObjectId in
  match map_get (hostFunctionRegistry st) objId, key_of objId with
  | Some _, Some objId => mret objId
  | _, _ =>
      objId ← generateId;
      modify (λ st, set_hostFunctionRegistry
                      (<[objId := mkEntry obj descriptor]> (hostFunctionRegistry st)) st);;
      sym_set obj hostObjectId (VStr objId);;
      mret objId
  end.

(** An object literal. *)
Definition literal (fields : list (string * value)) : M value :=
  VRef <$> alloc (new_obj KObject fields).

(** The recursion of the codec follows the object graph; [fuel] bounds its
    depth (the call stack). The callback attached to a promise reads [objId]
    when it runs, so the model registers the promise first. *)
Fixpoint processBeforeSerialization (fuel : nat) (obj : value) (replyChannel : RPCChannel)
    (descriptor : option Descriptor) : M value :=
  match fuel with
  | 0 => halt OutOfFuel
  | S fuel =>
      st ← get_state;
      if truthy (sym_get st obj proxyObjectId) then
        literal [("_rpc_type", VStr "hostObject"); ("objId", sym_get st obj proxyObjectId)]
      else
        match obj with
        | VRef l =>
            match heap st !! l with
            | None => mret obj
            | Some o =>
                match o_kind o with
                | KFunction _ =>
                    objId ← registerLocalFunc obj descriptor;
                    literal [("_rpc_type", VStr "function"); ("objId", VStr objId)]
                | KPromise _ _ =>
                    let unregistered :=
                      negb (map_has (hostObjectRegistry st) (sym_get st obj hostObjectId)) in
                    objId ← registerLocalObj obj empty_descriptor;
                    (if unregistered then promise_then l (ReplySettlement objId replyChannel)
                     else mret tt);;
                    literal [("_rpc_type", VStr "object"); ("objId", VStr objId);
                             ("classId", VStr "Promise")]
                | KObject =>
                    match map_get (hostClassRegistry st)
                                  (sym_get st (js_get st obj "constructor") classIdSym) with
                    | Some entry =>
                        let instance := entry_descriptor entry ≫= d_instance in
                        objId ← registerLocalObj obj (default empty_descriptor instance);
                        props ← literal [];
                        for_each
                          (λ prop,
                             let propName := getPropName (inl prop) in
                             st ← get_state;
                             v ← processBeforeSerialization fuel (js_get st obj propName)
                                   replyChannel None;
                             js_set props propName v)
                          (default [] (instance ≫= d_readonlyProperties));;
                        literal [("_rpc_type", VStr "object");
                                 ("classId", from_option VStr VUndef (entry_descriptor entry ≫= d_classId));
                                 ("props", props); ("objId", VStr objId)]
                    | None =>
                        for_each
                          (λ key,
                             st ← get_state;
                             v ← processBeforeSerialization fuel (js_get st obj key)
                                   replyChannel None;
                             js_set obj key v)
                          (keys o);;
                        mret obj
                    end
                end
            end
        | _ => mret obj
        end
  end.

Definition serializeFunctionArgs (fuel : nat) (func : option Descriptor) (args : list value)
    (replyChannel : RPCChannel) : M (list value) :=
  map_indexed (λ arg idx,
                 processBeforeSerialization fuel arg replyChannel (getArgumentDescriptor func idx))
              0 args.

Definition createVoidProxyFunction (objId : option string) (func : Descriptor)
    (action : CallAction) (replyChannel : RPCChannel) : M value :=
  VRef <$> alloc (new_obj (KFunction (VoidProxy objId func action replyChannel)) []).

Definition createSyncProxyFunction (objId : option string) (func : Descriptor)
    (action : CallAction) (replyChannel : RPCChannel) : M value :=
  VRef <$> alloc (new_obj (KFunction (SyncProxy objId func action replyChannel)) []).

Definition createAsyncProxyFunction (objId : option string) (func : Descriptor)
    (action : CallAction) (replyChannel : RPCChannel) : M value :=
  VRef <$> alloc (new_obj (KFunction (AsyncProxy objId func action replyChannel)) []).

(** [prop] is a name, a descriptor, or absent; the last two parameters have
    the defaults ['async'] and [this.channel]. *)
Definition createProxyFunction (objId : option string) (prop : option (string + Descriptor))
    (action : CallAction) (defaultCallType : option FunctionReturnBehavior)
    (replyChannel : option RPCChannel) : M value :=
  st ← get_state;
  let defaultCallType := default Async defaultCallType in
  let replyChannel := default (channel st) replyChannel in
  let descriptor :=
    match prop with
    | Some (inr d) => d
    | Some (inl name) => name_descriptor (Some name)
    | None => name_descriptor None
    end in
  let callType := default defaultCallType (d_returns descriptor) in
  let callType :=
    if bool_decide (callType = Async) && negb (has_sendAsync replyChannel) then Sync
    else callType in
  let callType :=
    if bool_decide (callType = Sync) && negb (has_sendSync replyChannel) then Async
    else callType in
  match callType with
  | Void => createVoidProxyFunction objId descriptor action replyChannel
  | Sync => createSyncProxyFunction objId descriptor action replyChannel
  | Async => createAsyncProxyFunction objId descriptor action replyChannel
  end.

(** [Object.defineProperty(obj, name, { get, set })]: the property is not
    enumerable and cannot be defined twice. *)
Definition defineProperty (obj : value) (name : string) (get : loc) (set : option loc) : M unit :=
  st ← get_state;
  match obj with
  | VRef l =>
      match heap st !! l with
      | Some o =>
          if bool_decide (is_Some (list_find (λ a, a.1 = name) (o_accessors o))) then
            throw (VError "TypeError" ("Cannot redefine property: " +:+ name))
          else
            update_obj l (λ o,
              set_accessors (o_accessors o ++ [(name, (get, set))])
                (set_hidden (filter (λ p, p.1 ≠ name) (o_hidden o))
                   (set_props (filter (λ p, p.1 ≠ name) (o_props o)) o)))
      | None => mret tt
      end
  | _ => throw (VError "TypeError" "Object.defineProperty called on non-object")
  end.

Definition objId_value (objId : option string) : value :=
  from_option VStr VNull objId.

Definition createProxyObject (objId : option string) (descriptor : option Descriptor)
    (obj : option value) : M value :=
  obj ← match obj with Some obj => mret obj | None => literal [] end;
  for_each (λ p, js_set obj p.1 p.2) (default [] (descriptor ≫= d_props));;
  for_each
    (λ prop,
       fn ← createProxyFunction objId (Some prop) method_call None None;
       js_set obj (getPropName prop) fn)
    (default [] (descriptor ≫= d_functions));;
  st ← get_state;
  let setterCallType := if has_sendSync (channel st) then Sync else Void in
  for_each
    (λ prop,
       let descr := match prop with inl name => name_descriptor (Some name) | inr d => d end in
       let name := default "undefined" (d_name descr) in
       get ← createProxyFunction objId
               (Some (inr (set_d_name (d_name descr) (default empty_descriptor (d_get descr)))))
               prop_get (Some Sync) None;
       set ← (if d_getOnly descr then mret None
              else Some <$> createProxyFunction objId
                     (Some (inr (set_d_name (d_name descr) (default empty_descriptor (d_set descr)))))
                     prop_set (Some setterCallType) None);
       match get, set with
       | VRef g, Some (VRef s) => defineProperty obj name g (Some s)
       | VRef g, _ => defineProperty obj name g None
       | _, _ => mret tt
       end)
    (default [] (descriptor ≫= d_proxiedProperties));;
  match descriptor ≫= d_events with
  | Some (e :: es) =>
      let eventNames :=
        (λ descr, match descr with
                  | inl name => VStr name
                  | inr d => from_option VStr VUndef (d_name d)
                  end) <$> (e :: es) in
      add ← alloc (new_obj (KFunction (EventListener true objId descriptor eventNames ∅)) []);
      js_set obj "addEventListener" (VRef add);;
      remove ← alloc (new_obj (KFunction (EventListener false objId descriptor eventNames ∅)) []);
      js_set obj "removeEventListener" (VRef remove)
  | _ => mret tt
  end;;
  sym_set obj proxyObjectId (objId_value objId);;
  mret obj.

Definition getProxyObject (objId : string) : M value :=
  st ← get_state;
  let obj := ProxyObjectRegistry.get st objId in
  if truthy obj then mret obj
  else
    match remoteObjectDescriptors st ≫= (.!! objId) with
    | None => throw (Error ("No object registered with ID '" +:+ objId +:+ "'"))
    | Some descriptor =>
        obj ← createProxyObject (Some objId) (Some descriptor) None;
        match obj with
        | VRef l => ProxyObjectRegistry.register objId l None
        | _ => mret tt
        end;;
        mret obj
    end.

Definition getProxyFunction (objId : string) : M value :=
  st ← get_state;
  let obj := ProxyObjectRegistry.get st objId in
  if truthy obj then mret obj
  else
    match remoteFunctionDescriptors st ≫= (.!! objId) with
    | None => throw (Error ("No function registered with ID '" +:+ objId +:+ "'"))
    | Some descriptor =>
        obj ← createProxyFunction (Some objId) (Some (inr descriptor)) fn_call None None;
        match obj with
        | VRef l => ProxyObjectRegistry.register objId l None
        | _ => mret tt
        end;;
        mret obj
    end.

(** [clazz.prototype] is created with the function; the model allocates it
    where it is first used. The assignment to [staticDescr.props] is kept
    local to the call. *)
Definition getProxyClass (classId : string) : M value :=
  st ← get_state;
  match proxyClassRegistry st !! classId with
  | Some clazz => mret (VRef clazz)
  | None =>
      match remoteClassDescriptors st ≫= (.!! classId) with
      | None => throw (Error ("No class registered with ID '" +:+ classId +:+ "'"))
      | Some descriptor =>
          clazz ← match d_ctor descriptor with
                  | Some ctor =>
                      createProxyFunction (Some classId) (Some (inr ctor)) ctor_call (Some Sync) None
                  | None => VRef <$> alloc (new_obj (KFunction (CtorStub classId)) [])
                  end;
          prototype ← VRef <$> alloc (set_hidden [("constructor", clazz)] (new_obj KObject []));
          match clazz with
          | VRef c => update_obj c (λ o, set_hidden (o_hidden o ++ [("prototype", prototype)]) o)
          | _ => mret tt
          end;;
          createProxyObject None (d_instance descriptor) (Some prototype);;
          let staticDescr := default empty_descriptor (d_static descriptor) in
          let objDescr := remoteObjectDescriptors st ≫= (.!! classId) in
          let staticDescr :=
            if isFunctionDescriptor objDescr then staticDescr
            else set_d_props (objDescr ≫= d_props) staticDescr in
          createProxyObject (Some classId) (Some staticDescr) (Some clazz);;
          match clazz with
          | VRef c => modify (λ st, set_proxyClassRegistry (<[classId := c]> (proxyClassRegistry st)) st)
          | _ => mret tt
          end;;
          mret clazz
      end
  end.

Definition getOrCreateProxyInstance (objId classId : string) (props : value)
    (replyChannel : RPCChannel) : M value :=
  st ← get_state;
  let obj := ProxyObjectRegistry.get st objId in
  if truthy obj then mret obj
  else
    obj ← (if nullish props then literal [] else mret props);
    obj ← (if bool_decide (classId = "Promise") then
             p ← alloc (new_obj (KPromise Pending []) []);
             modify (λ st, set_asyncCallbacks (<[objId := p]> (asyncCallbacks st)) st);;
             mret (VRef p)
           else
             sym_set obj proxyObjectId (VStr objId);;
             clazz ← getProxyClass classId;
             st ← get_state;
             match obj, js_get st clazz "prototype" with
             | VRef l, VRef p => update_obj l (set_proto (Some p))
             | _, _ => mret tt
             end;;
             mret obj);
    match obj with
    | VRef l => ProxyObjectRegistry.register objId l (Some (SendObjectDied objId replyChannel))
    | _ => halt IllTyped
    end;;
    mret obj.

Definition getOrCreateProxyFunction (objId : string) (replyChannel : RPCChannel)
    (descriptor : option Descriptor) : M value :=
  st ← get_state;
  let fn := ProxyObjectRegistry.get st objId in
  if truthy fn then mret fn
  else
    let descriptor := set_d_type TFunction <$> descriptor in
    fn ← createProxyFunction (Some objId) (inr <$> descriptor) fn_call (Some Async) (Some replyChannel);
    sym_set fn proxyObjectId (VStr objId);;
    match fn with
    | VRef l => ProxyObjectRegistry.register objId l (Some (SendObjectDied objId replyChannel))
    | _ => mret tt
    end;;
    mret fn.

(** The fields [objId] and [classId] of a tagged wire object are strings
    (rpc-message-types.ts); a tagged object of another shape stops the
    model. *)
Fixpoint processAfterDeserialization (fuel : nat) (obj : value) (replyChannel : RPCChannel)
    (descriptor : option Descriptor) : M value :=
  match fuel with
  | 0 => halt OutOfFuel
  | S fuel =>
      st ← get_state;
      match obj with
      | VRef l =>
          match heap st !! l with
          | None => mret obj
          | Some o =>
              if is_function st obj then mret obj
              else
                let rpc_type := js_get st obj "_rpc_type" in
                if bool_decide (rpc_type = VStr "object") then
                  match js_get st obj "objId", js_get st obj "classId" with
                  | VStr objId, VStr classId =>
                      getOrCreateProxyInstance objId classId (js_get st obj "props") replyChannel
                  | _, _ => halt IllTyped
                  end
                else if bool_decide (rpc_type = VStr "function") then
                  match js_get st obj "objId" with
                  | VStr objId => getOrCreateProxyFunction objId replyChannel descriptor
                  | _ => halt IllTyped
                  end
                else if bool_decide (rpc_type = VStr "hostObject") then
                  mret (from_option entry_target VUndef
                          (map_get (hostObjectRegistry st) (js_get st obj "objId")))
                else
                  for_each
                    (λ key,
                       st ← get_state;
                       v ← processAfterDeserialization fuel (js_get st obj key) replyChannel
                             (getPropertyDescriptor descriptor (VStr key));
                       js_set obj key v)
                    (keys o);;
                  mret obj
          end
      | _ => mret obj
      end
  end.

Definition deserializeFunctionArgs (fuel : nat) (func : option Descriptor) (args : list value)
    (replyChannel : RPCChannel) : M (list value) :=
  map_indexed (λ arg idx,
                 processAfterDeserialization fuel arg replyChannel (getArgumentDescriptor func idx))
              0 args.

(** *** Calling the functions the library creates *)

(** [objId ?? this[proxyObjectId]]; reading a property of an undefined
    receiver throws. *)
Definition receiverId (objId : option string) (this : value) : M value :=
  st ← get_state;
  match objId with
  | Some objId => mret (VStr objId)
  | None =>
      if nullish this then
        throw (VError "TypeError" "Cannot read properties of undefined")
      else mret (sym_get st this proxyObjectId)
  end.

Definition disposedError : value := Error "Remote function has been disposed".

(** The body of the function returned by [createVoidProxyFunction]. *)
Definition voidProxyFunction (fuel : nat) (fn : loc) (objId : option string) (func : Descriptor)
    (action : CallAction) (replyChannel : RPCChannel) (this : value) (args : list value) : M value :=
  st ← get_state;
  if truthy (sym_get st (VRef fn) rpc_disposed) then throw disposedError
  else
    objId ← receiverId objId this;
    args ← serializeFunctionArgs fuel (Some func) args replyChannel;
    sendAsyncIfPossible
      (msg (call action Void objId (from_option VStr VUndef (d_name func)) args VUndef))
      replyChannel;;
    mret VUndef.

(** The body of the function returned by [createSyncProxyFunction]. *)
Definition syncProxyFunction (fuel : nat) (fn : loc) (objId : option string) (func : Descriptor)
    (action : CallAction) (replyChannel : RPCChannel) (this : value) (args : list value) : M value :=
  st ← get_state;
  if truthy (sym_get st (VRef fn) rpc_disposed) then throw disposedError
  else
    objId ← receiverId objId this;
    args ← serializeFunctionArgs fuel (Some func) args replyChannel;
    response ← sendSync
      (msg (call action Sync objId (from_option VStr VUndef (d_name func)) args VUndef))
      replyChannel;
    match response with
    | None => throw (Error "No response received")
    | Some response =>
        if negb (checkMarker response) then
          throw (Error ("Invalid response " +:+ JSON_stringify response))
        else
          match body response with
          | fn_reply _ success result _ =>
              if negb success then throw (Error_of ref_toString result)
              else processAfterDeserialization fuel result replyChannel None
          | _ => throw (Error_of ref_toString VUndef)
          end
    end.

(** The body of the function returned by [createAsyncProxyFunction]: the
    executor of [new Promise] runs at once, and what it throws rejects the
    promise. *)
Definition asyncProxyFunction (fuel : nat) (fn : loc) (objId : option string) (func : Descriptor)
    (action : CallAction) (replyChannel : RPCChannel) (this : value) (args : list value) : M value :=
  p ← alloc (new_obj (KPromise Pending []) []);
  try_catch
    (st ← get_state;
     if truthy (sym_get st (VRef fn) rpc_disposed) then throw disposedError
     else
       modify (λ st, set_callId (S (callId st)) st);;
       objId ← receiverId objId this;
       st ← get_state;
       let callId_string := pretty (callId st) in
       args ← serializeFunctionArgs fuel (Some func) args replyChannel;
       sendAsync
         (msg (call action Async objId (from_option VStr VUndef (d_name func)) args
                    (VStr callId_string)))
         replyChannel;;
       modify (λ st, set_asyncCallbacks (<[pretty (callId st) := p]> (asyncCallbacks st)) st))
    (λ e, promise_reject p e);;
  mret (VRef p).

Definition code_of (st : State) (f : value) : option Code :=
  match f with
  | VRef l => match kind_of st l with Some (KFunction c) => Some c | _ => None end
  | _ => None
  end.

Definition callProxyFunction (fuel : nat) (f : value) (this : value) (args : list value) : M value :=
  st ← get_state;
  match f, code_of st f with
  | VRef fn, Some (VoidProxy objId func action ch) =>
      voidProxyFunction fuel fn objId func action ch this args
  | VRef fn, Some (SyncProxy objId func action ch) =>
      syncProxyFunction fuel fn objId func action ch this args
  | VRef fn, Some (AsyncProxy objId func action ch) =>
      asyncProxyFunction fuel fn objId func action ch this args
  | _, _ => throw (VError "TypeError" "proxyFunc is not a function")
  end.

(** [obj.addEventListener] / [obj.removeEventListener] of a proxy object. *)
Definition eventListenerFunction (fuel : nat) (fn : loc) (add : bool) (objId : option string)
    (descriptor : option Descriptor) (eventNames : list value)
    (listenerFunctions : gmap string loc) (args : list value) : M value :=
  let eventName := default VUndef (args !! 0) in
  let listener := default VUndef (args !! 1) in
  if negb (bool_decide (eventName ∈ eventNames)) then
    throw (Error ("No " +:+ dquote +:+ js_String ref_toString eventName +:+ dquote
                  +:+ " event found on object " +:+ dquote
                  +:+ js_String ref_toString (objId_value objId) +:+ dquote +:+ "."))
  else
    match eventName with
    | VStr name =>
        proxyFunc ←
          match listenerFunctions !! name with
          | Some f => mret (VRef f)
          | None =>
              let descr :=
                set_d_name (Some ((if add then "add_" else "remove_") +:+ name))
                           (default empty_descriptor (getEventDescriptor descriptor name)) in
              f ← createProxyFunction objId (Some (inr descr)) method_call None None;
              match f with
              | VRef f' =>
                  update_obj fn (set_kind (KFunction
                    (EventListener add objId descriptor eventNames (<[name := f']> listenerFunctions))))
              | _ => mret tt
              end;;
              mret f
          end;
        callProxyFunction fuel proxyFunc VUndef [listener];;
        mret VUndef
    | _ => halt IllTyped
    end.

Definition runDisposeHook (hook : DisposeHook) : M unit :=
  match hook with
  | SendObjectDied objId ch => sendObjectDied objId ch
  | UserDispose id => user_apply id VUndef [];; mret tt
  end.

(** [f.apply(this, args)]. *)
Definition apply (fuel : nat) (f : value) (this : value) (args : list value) : M value :=
  st ← get_state;
  match f, code_of st f with
  | _, Some (UserFunction id) => user_apply id this args
  | _, Some (CtorStub classId) =>
      throw (Error ("Constructor of class '" +:+ classId +:+ "' is not defined"))
  | VRef fn, Some (EventListener add objId descriptor eventNames listenerFunctions) =>
      eventListenerFunction fuel fn add objId descriptor eventNames listenerFunctions args
  | _, Some (DisposeFunc objId unregToken obj dispose) =>
      ProxyObjectRegistry.disposeFunc runDisposeHook objId unregToken obj dispose;;
      mret VUndef
  | _, Some _ => callProxyFunction fuel f this args
  | _, None => throw (VError "TypeError" "target.apply is not a function")
  end.

(** [new f(...args)]. *)
Definition construct (fuel : nat) (f : value) (args : list value) : M value :=
  st ← get_state;
  match code_of st f with
  | Some (UserFunction id) => user_construct id args
  | Some _ =>
      this ← alloc (set_proto (match js_get st f "prototype" with
                                | VRef p => Some p
                                | _ => None
                                end) (new_obj KObject []));
      r ← apply fuel f (VRef this) args;
      mret (match r with VRef _ => r | _ => VRef this end)
  | None => throw (VError "TypeError" "target is not a constructor")
  end.

(** The collector reclaims the proxy [obj]. *)
Definition collect (fuel : nat) (obj : loc) : M unit :=
  ProxyObjectRegistry.finalize (λ held, apply fuel held VUndef [];; mret tt) obj.

(** *** Incoming calls *)

Definition typeof_function (st : State) (v : value) : bool := is_function st v.

(** The [try] block of [callTargetFunction]; it returns the final value of
    the variable [result]. *)
Definition callTargetBody (fuel : nat) (entry : option HostRegistryEntry)
    (action : CallAction) (callType : FunctionReturnBehavior) (objId prop : value)
    (args : list value) (callId : value) (replyChannel : RPCChannel) : M value :=
  match entry with
  | None =>
      throw (Error ("No object found with ID '" +:+ js_String ref_toString objId +:+ "'"))
  | Some entry =>
      let descriptor := entry_descriptor entry in
      let target := entry_target entry in
      let propName := js_String ref_toString prop in
      let call_with (target scope : value) (descriptor : option Descriptor)
                    (args' : option (list value)) : M value :=
        args' ← match args' with
                | Some a => mret a
                | None => deserializeFunctionArgs fuel descriptor args replyChannel
                end;
        apply fuel target scope args' in
      result ←
        match action with
        | prop_get => st ← get_state; mret (js_get st target propName)
        | prop_set =>
            let descr := getPropertyDescriptor descriptor prop in
            result ← processAfterDeserialization fuel (default VUndef (args !! 0)) replyChannel
                       (head (default [] ((descr ≫= d_set) ≫= d_arguments)));
            st ← get_state;
            (if is_promise st result
                && (bool_decide ((descr ≫= d_get) ≫= d_returns = Some Async)
                    || negb (has_sendSync replyChannel))
             then
               match result with
               | VRef p => promise_then p (AssignProperty target prop)
               | _ => mret tt
               end
             else js_set target propName result);;
            mret VUndef
        | method_call =>
            let scope := target in
            let descriptor := getFunctionDescriptor descriptor prop in
            st ← get_state;
            '(target, args') ←
              (if negb (bool_decide (is_Some descriptor)) && negb (truthy (js_get st target propName))
               then
                 let parts := split_underscore propName in
                 let addOrRemove := default "" (parts !! 0) in
                 match parts !! 1 with
                 | Some eventName =>
                     if negb (bool_decide (eventName = ""))
                        && (bool_decide (addOrRemove = "add") || bool_decide (addOrRemove = "remove"))
                     then
                       let listenerFn := js_get st target (addOrRemove +:+ "EventListener") in
                       if typeof_function st listenerFn then
                         let evtDescriptor := getEventDescriptor descriptor eventName in
                         rest ← deserializeFunctionArgs fuel evtDescriptor args replyChannel;
                         mret (listenerFn, Some (VStr eventName :: rest))
                       else mret (listenerFn, None)
                     else mret (target, None)
                 | None => mret (target, None)
                 end
               else mret (js_get st target propName, None));
            st ← get_state;
            if negb (typeof_function st target) then
              throw (Error ("Property " +:+ propName +:+ " is not a function on object "
                            +:+ js_String ref_toString objId))
            else call_with target scope descriptor args'
        | fn_call => call_with target VNull descriptor None
        | ctor_call =>
            args' ← deserializeFunctionArgs fuel descriptor args replyChannel;
            construct fuel target args'
        end;
      match callType with
      | Async => Promise_resolve_then result (ReplyCall callId replyChannel);; mret result
      | Sync => processBeforeSerialization fuel result replyChannel None
      | Void => mret result
      end
  end.

Definition callTargetFunction (fuel : nat) (action : CallAction)
    (callType : FunctionReturnBehavior) (objId prop : value) (args : list value)
    (callId : value) (replyChannel : RPCChannel) : M unit :=
  st ← get_state;
  let entry :=
    map_get (if bool_decide (action = fn_call) || bool_decide (action = ctor_call)
             then hostFunctionRegistry st else hostObjectRegistry st) objId in
  '(success, result) ←
    try_catch
      (result ← callTargetBody fuel entry action callType objId prop args callId replyChannel;
       mret (true, result))
      (λ err, mret (false, toString_opt ref_toString err));
  match callType with
  | Sync => sendSync (msg (fn_reply Sync success result VUndef)) replyChannel;; mret tt
  | Async =>
      if negb success then sendAsync (msg (fn_reply Async success result callId)) replyChannel
      else mret tt
  | Void => mret tt
  end.

Definition messageReceived (fuel : nat) (message : RPC_Message)
    (replyChannel : option RPCChannel) (context : value) : M unit :=
  st ← get_state;
  let replyChannel := default (channel st) replyChannel in
  modify (set_currentContext context);;
  if checkMarker message then
    match body message with
    | get_descriptors => sendRemoteDescriptors replyChannel
    | descriptors _ _ _ =>
        success ← setRemoteDescriptors (Some message);
        st ← get_state;
        match remoteDescriptorsCallbacks st with
        | Some p => if success : bool then promise_resolve p VUndef else promise_reject p VUndef
        | None => mret tt
        end;;
        modify (set_remoteDescriptorsCallbacks None)
    | call action callType objId prop args callId =>
        callTargetFunction fuel action callType objId prop args callId replyChannel
    | obj_died objId =>
        modify (λ st, set_hostObjectRegistry (map_delete (hostObjectRegistry st) objId) st)
    | fn_reply callType success result callId =>
        if bool_decide (callType = Async) then
          result ← processAfterDeserialization fuel result replyChannel None;
          st ← get_state;
          match map_get (asyncCallbacks st) callId with
          | Some p => if success then promise_resolve p result else promise_reject p result
          | None => mret tt
          end;;
          modify (λ st, set_asyncCallbacks (map_delete (asyncCallbacks st) callId) st)
        else mret tt
    | async_fn _ _ => mret tt
    end
  else mret tt.

(** *** Promise jobs *)

Definition runReaction (fuel : nat) (r : Reaction) (s : PromiseState) : M unit :=
  match r, s with
  | AssignProperty target prop, Fulfilled v => js_set target (js_String ref_toString prop) v
  | AssignProperty _ _, _ => mret tt
  | ReplySettlement objId ch, Fulfilled v =>
      sendAsyncIfPossible (msg (fn_reply Async true v (VStr objId))) ch;; mret tt
  | ReplySettlement objId ch, Rejected e =>
      sendAsyncIfPossible (msg (fn_reply Async false e (VStr objId))) ch;; mret tt
  | ReplySettlement _ _, _ => mret tt
  | ReplyCall callId ch, Fulfilled v =>
      result ← processBeforeSerialization fuel v ch None;
      sendAsync (msg (fn_reply Async true result callId)) ch
  | ReplyCall callId ch, Rejected err =>
      sendAsync (msg (fn_reply Async false (toString_opt ref_toString err) callId)) ch
  | ReplyCall _ _, _ => mret tt
  | ResolvePromise p, (Fulfilled _ | Rejected _) => settle p s
  | ResolvePromise _, _ => mret tt
  end.

(** Runs the oldest pending job. *)
Definition runMicrotask (fuel : nat) : M unit :=
  st ← get_state;
  match microtasks st with
  | [] => mret tt
  | (r, s) :: rest => modify (set_microtasks rest);; runReaction fuel r s
  end.

End methods.
End SuperRPC.

(** ** A concrete endpoint for the examples *)

(** [new SuperRPC(objectIdGenerator)] followed by [connect(ch)]. *)
Definition new_SuperRPC (ch : RPCChannel) : State :=
  mkState ∅ ∅ ∅ [] ch None None None None ∅ 0 ∅ ∅ ∅ ∅ VUndef 0 [] [].

(** Modelled from the spec: the helpers of rpc-descriptor-types.ts as section
    4.1 describes them (a function, argument or event descriptor is found by
    name or position), ids ["id0"], ["id1"], ..., user functions that return
    [undefined], and a channel without synchronous answer. *)
Fixpoint find_descriptor (name : value) (ds : list (string + Descriptor)) : option Descriptor :=
  match ds with
  | [] => None
  | inr d :: rest =>
      if bool_decide (from_option VStr VUndef (d_name d) = name) then Some d
      else find_descriptor name rest
  | inl _ :: rest => find_descriptor name rest
  end.

Fixpoint find_argument (idx : nat) (args : list Descriptor) : option Descriptor :=
  match args with
  | [] => None
  | a :: rest =>
      if bool_decide (d_idx a = None) || bool_decide (d_idx a = Some idx) then Some a
      else find_argument idx rest
  end.

Definition make_env (answer : RPCChannel → RPC_Message → State → option RPC_Message) : Env := {|
  getPropName := λ p, match p with inl name => name | inr d => default "" (d_name d) end;
  getArgumentDescriptor := λ func idx, (func ≫= d_arguments) ≫= find_argument idx;
  getFunctionDescriptor := λ d name, (d ≫= d_functions) ≫= find_descriptor name;
  getPropertyDescriptor := λ d name, (d ≫= d_proxiedProperties) ≫= find_descriptor name;
  getEventDescriptor := λ d name, (d ≫= d_events) ≫= find_descriptor (VStr name);
  isFunctionDescriptor := λ d, bool_decide (d ≫= d_type = Some TFunction);
  processObjectDescriptor := λ _ _, None;
  processFunctionDescriptor := λ _ _, None;
  objectIdGenerator := λ n, "id" +:+ pretty n;
  user_apply := λ _ _ _, mret VUndef;
  user_construct := λ _ _, VRef <$> alloc (new_obj KObject []);
  channel_sendSync := answer;
  ref_toString := λ _, "[object Object]";
  JSON_stringify := λ _, "{}"
|}.

Definition sample_env : Env := make_env (λ _ _ _, None).

Definition both_ways : RPCChannel := mkChannel 0 true true true.
Definition sync_only : RPCChannel := mkChannel 1 true false true.
Definition async_only : RPCChannel := mkChannel 2 false true true.


(** * Vocabulary of the properties *)

Section vocabulary.
Context `{!Env}.
Open Scope list_scope.
Open Scope nat_scope.

Definition code_callType (c : Code) : option FunctionReturnBehavior :=
  match c with
  | VoidProxy _ _ _ _ => Some Void
  | SyncProxy _ _ _ _ => Some Sync
  | AsyncProxy _ _ _ _ => Some Async
  | _ => None
  end.

(** The two re-mappings, in the words of the specification: async without
    the async transport becomes sync, and sync without the sync transport
    becomes async. *)
Definition downgrade (ch : RPCChannel) (m : FunctionReturnBehavior) : FunctionReturnBehavior :=
  match m with
  | Async => if has_sendAsync ch then Async else Sync
  | _ => m
  end.

Definition upgrade (ch : RPCChannel) (m : FunctionReturnBehavior) : FunctionReturnBehavior :=
  match m with
  | Sync => if has_sendSync ch then Sync else Async
  | _ => m
  end.

Definition spec_callType (declared : option FunctionReturnBehavior)
    (dflt : FunctionReturnBehavior) (ch : RPCChannel) : FunctionReturnBehavior :=
  upgrade ch (downgrade ch (default dflt declared)).

(** The mode the specification gives every callable: the declared return
    behaviour, ['async'] when there is none, then the two re-mappings. *)
Definition claimed_callType (c : Code) : option FunctionReturnBehavior :=
  match c with
  | VoidProxy _ func _ ch | SyncProxy _ func _ ch | AsyncProxy _ func _ ch =>
      Some (spec_callType (d_returns func) Async ch)
  | _ => None
  end.

Definition prop_descriptor (prop : option (string + Descriptor)) : Descriptor :=
  match prop with
  | Some (inr d) => d
  | Some (inl name) => name_descriptor (Some name)
  | None => name_descriptor None
  end.

Definition proxy_code (m : FunctionReturnBehavior) :=
  match m with Void => VoidProxy | Sync => SyncProxy | Async => AsyncProxy end.

Definition hostObject_wire (objId : value) : Obj :=
  new_obj KObject [("_rpc_type", VStr "hostObject"); ("objId", objId)].

Definition function_wire (objId : string) : Obj :=
  new_obj KObject [("_rpc_type", VStr "function"); ("objId", VStr objId)].

(** What [sendObjectDied objId ch] hands to the channel. *)
Definition died_notice (objId : string) (ch : RPCChannel)
    : list (Transport * RPCChannel * RPC_Message) :=
  if has_sendAsync ch then [(ViaAsync, ch, mkMessage true (obj_died (VStr objId)))]
  else if has_sendSync ch then [(ViaSync, ch, mkMessage true (obj_died (VStr objId)))]
  else [].

(** The registry entry [callTargetFunction] resolves for a call. *)
Definition targetEntry (st : State) (action : CallAction) (objId : value)
    : option HostRegistryEntry :=
  map_get (if bool_decide (action = fn_call) || bool_decide (action = ctor_call)
           then hostFunctionRegistry st else hostObjectRegistry st) objId.

(** [{action: 'fn_reply', callType, success: false, result: s}], with the
    call id on the async path. *)
Definition error_reply (callType : FunctionReturnBehavior) (s : string) (callId : value)
    : RPC_Message :=
  mkMessage true (fn_reply callType false (VStr s)
                    (match callType with Async => callId | _ => VUndef end)).

(** What the host hands to the reply channel for a failed call. *)
Definition error_reply_sent (callType : FunctionReturnBehavior) (s : string) (callId : value)
    (ch : RPCChannel) : list (Transport * RPCChannel * RPC_Message) :=
  match callType with
  | Sync => if has_sendSync ch then [(ViaSync, ch, error_reply Sync s callId)] else []
  | Async => if has_sendAsync ch then [(ViaAsync, ch, error_reply Async s callId)] else []
  | Void => []
  end.

(** A plain object for the serializer: an object without proxy id that is
    neither a promise nor an instance of a registered host class. *)
Definition plain_for_serialization (st : State) (l : loc) (o : Obj) : Prop :=
  heap st !! l = Some o
  ∧ o_kind o = KObject
  ∧ truthy (o_proxyObjectId o) = false
  ∧ map_get (hostClassRegistry st)
            (sym_get st (js_get st (VRef l) "constructor") classIdSym) = None.

(** A plain object for the deserializer: an object that is not a function
    and whose [_rpc_type] is none of the three tags. *)
Definition untagged (st : State) (l : loc) (o : Obj) : Prop :=
  heap st !! l = Some o
  ∧ is_function st (VRef l) = false
  ∧ js_get st (VRef l) "_rpc_type" ≠ VStr "object"
  ∧ js_get st (VRef l) "_rpc_type" ≠ VStr "function"
  ∧ js_get st (VRef l) "_rpc_type" ≠ VStr "hostObject".

(** [rewritten step l keys st st']: starting in [st], for each key in turn
    the value [obj[key]] is processed by [step key] and the result is
    assigned to [obj[key]], which ends in [st']. *)
Inductive rewritten (step : string → value → M value) (l : loc)
    : list string → State → State → Prop :=
| rewritten_nil st : rewritten step l [] st st
| rewritten_cons key keys st w st1 st2 st3 :
    step key (js_get st (VRef l) key) st = Ret w st1 →
    js_set (VRef l) key w st1 = Ret tt st2 →
    rewritten step l keys st2 st3 →
    rewritten step l (key :: keys) st st3.

(** Acyclic object graphs.  [ranked ρ st]: in every object the serializer
    walks, a property that holds a reference holds one of smaller rank, so
    the walk is finite; and a proxy id is never a reference. *)
Definition rank (ρ : loc → nat) (v : value) : nat :=
  match v with VRef l => S (ρ l) | _ => 0 end.

Definition ranked (ρ : loc → nat) (st : State) : Prop :=
  ∀ l o, heap st !! l = Some o →
    (∀ c, o_proxyObjectId o ≠ VRef c)
    ∧ (o_kind o = KObject → truthy (o_proxyObjectId o) = false →
       ∀ k c, (k, VRef c) ∈ o_props o → ρ c < ρ l).

Definition same_kind (k k' : Kind) : Prop :=
  match k, k' with
  | KObject, KObject => True
  | KPromise _ _, KPromise _ _ => True
  | KFunction c, KFunction c' => c = c'
  | _, _ => False
  end.

(** What the serializer keeps of every object: its keys and their order,
    its proxy id and what kind of object it is. *)
Definition same_shape (o o' : Obj) : Prop :=
  keys o' = keys o
  ∧ o_proxyObjectId o' = o_proxyObjectId o
  ∧ same_kind (o_kind o) (o_kind o').

Definition untouched (o o' : Obj) : Prop :=
  o_props o' = o_props o
  ∧ o_proxyObjectId o' = o_proxyObjectId o
  ∧ same_kind (o_kind o) (o_kind o').

(** A step that allocates nothing and leaves all properties alone. *)
Definition inert (st st' : State) : Prop :=
  hostClassRegistry st' = hostClassRegistry st
  ∧ ∀ l, match heap st !! l, heap st' !! l with
         | Some o, Some o' => untouched o o'
         | None, None => True
         | _, _ => False
         end.

(** A step that keeps the shape of the objects that exist, and the ranks. *)
Definition grows (ρ : loc → nat) (st : State) (ρ' : loc → nat) (st' : State) : Prop :=
  hostClassRegistry st' = hostClassRegistry st
  ∧ (∀ l, is_Some (heap st !! l) → ρ' l = ρ l)
  ∧ (∀ l, ρ' l ≤ ρ l)
  ∧ (∀ l o, heap st !! l = Some o → ∃ o', heap st' !! l = Some o' ∧ same_shape o o').

(** Computations that always return and are inert. *)
Definition Inert {A} (m : M A) : Prop :=
  ∀ st, ∃ a st', m st = Ret a st' ∧ inert st st'.

(** Allocating an object literal whose fields hold no reference. *)
Definition no_reference (fields : list (string * value)) : Prop :=
  ∀ k c, (k, VRef c) ∉ fields.

(** Data without tagged objects.  [plain_data ρ st]: no object is tagged,
    and a property that holds a reference holds one of smaller rank. *)
Definition plain_data (ρ : loc → nat) (st : State) : Prop :=
  ∀ l o, heap st !! l = Some o →
    (is_function st (VRef l) = false → untagged st l o)
    ∧ ∀ k c, (k, VRef c) ∈ o_props o → ρ c < ρ l.

End vocabulary.

(** * Vocabulary of the further properties *)

Section transport_vocabulary.
Context `{!Env}.
Open Scope list_scope.
Open Scope nat_scope.

(** A value that is a reference into the heap. *)
Definition is_ref (v : value) : bool :=
  match v with VRef _ => true | _ => false end.

Definition transport_available (t : Transport) (ch : RPCChannel) : bool :=
  match t with ViaSync => has_sendSync ch | ViaAsync => has_sendAsync ch end.

(** What [t] hands to the channel, if the channel has it. *)
Definition handed (t : Transport) (ch : RPCChannel) (b : RPC_Body)
    : list (Transport * RPCChannel * RPC_Message) :=
  if transport_available t ch then [(t, ch, mkMessage true b)] else [].

(** What a send that prefers [t] hands to the channel: the other transport
    is used when the channel does not have [t]. *)
Definition handed_either (t : Transport) (ch : RPCChannel) (b : RPC_Body)
    : list (Transport * RPCChannel * RPC_Message) :=
  if transport_available t ch then handed t ch b
  else handed (match t with ViaSync => ViaAsync | ViaAsync => ViaSync end) ch b.

(** [{action: 'fn_reply', callType, success: true, result}], with the call id
    on the async path. *)
Definition success_reply (callType : FunctionReturnBehavior) (result callId : value)
    : RPC_Body :=
  fn_reply callType true result (match callType with Async => callId | _ => VUndef end).

(** The [descriptors] message of an endpoint. *)
Definition local_descriptors (st : State) : RPC_Body :=
  descriptors
    (Some (SuperRPC.getLocalDescriptors st (hostObjectRegistry st) (Some processObjectDescriptor)))
    (Some (SuperRPC.getLocalDescriptors st (hostFunctionRegistry st)
             (Some processFunctionDescriptor)))
    (Some (SuperRPC.getLocalDescriptors st (hostClassRegistry st) None)).

(** [new := response.part] when the part is present. *)
Definition updated {A} (new old : option A) : option A :=
  match new with Some _ => new | None => old end.

(** [{_rpc_type: 'object', objId, classId: 'Promise'}]. *)
Definition promise_wire (objId : string) : Obj :=
  new_obj KObject [("_rpc_type", VStr "object"); ("objId", VStr objId);
                   ("classId", VStr "Promise")].

(** What [p.then(r)] adds: a job when [p] is settled, a reaction otherwise. *)
Definition attached (r : Reaction) (s : PromiseState) (rs : list Reaction)
    (st st' : State) (p : loc) : Prop :=
  match s with
  | Fulfilled _ | Rejected _ =>
      microtasks st' = microtasks st ++ [(r, s)] ∧ kind_of st' p = Some (KPromise s rs)
  | _ =>
      microtasks st' = microtasks st ∧ kind_of st' p = Some (KPromise s (rs ++ [r]))
  end.

(** What is a function before a step is a function after it. *)
Definition still_functions (st st' : State) : Prop :=
  ∀ v, is_function st v = true → is_function st' v = true.

(** Computations that, when they return, leave every function a function. *)
Definition Keeps {A} (m : M A) : Prop :=
  ∀ st a st', m st = Ret a st' → still_functions st st'.

End transport_vocabulary.

(** * Sample endpoints *)

Section samples.
#[local] Existing Instance sample_env.

(** The state a computation ends in. *)
Definition exec {A} (m : M A) (st : State) : State :=
  match m st with Ret _ st' | Exn _ st' => st' | Halt _ => st end.

(** An object descriptor with the proxied property [counter]. *)
Definition counter_descriptor : Descriptor :=
  mkDescriptor None None None None None None None false
               None (Some [inl "counter"]) None None None None None None None.

(** An endpoint that holds a proxy object for the remote id ["obj"], at
    location 0, with the accessor functions of [counter] at 1 and 2. *)
Definition proxy_side : State :=
  exec (SuperRPC.createProxyObject (Some "obj") (Some counter_descriptor) None)
       (new_SuperRPC both_ways).

(** The endpoint that hosts ["obj"]: the target at location 0, and the wire
    form of a reference to it at location 1. *)
Definition host_side : State :=
  exec (t ← alloc (new_obj KObject [("counter", VNum 0)]);
        SuperRPC.registerHostObject "obj" (VRef t) counter_descriptor;;
        SuperRPC.literal [("_rpc_type", VStr "hostObject"); ("objId", VStr "obj")])
       (new_SuperRPC both_ways).

(** A class descriptor with a constructor part and a static part. *)
Definition class_descriptor : Descriptor :=
  mkDescriptor (Some TClass) None None None None None None false
               None None None None None
               (Some empty_descriptor) (Some counter_descriptor) None None.

(** An endpoint with one function of its own, at location 0. *)
Definition function_side : State :=
  exec (alloc (new_obj (KFunction (UserFunction 0)) [])) (new_SuperRPC both_ways).

(** An endpoint that holds a proxy function for the remote id ["f"], at
    location 0. *)
Definition caller_side (defaultCallType : FunctionReturnBehavior) : State :=
  exec (f ← SuperRPC.createProxyFunction (Some "f") None fn_call (Some defaultCallType) None;
        match f with
        | VRef fn => ProxyObjectRegistry.register "f" fn (Some (SendObjectDied "f" both_ways))
        | _ => mret tt
        end)
       (new_SuperRPC both_ways).

(** The same endpoint after the proxy function was disposed. *)
Definition disposed_side (defaultCallType : FunctionReturnBehavior) : State :=
  exec (st ← get_state;
        SuperRPC.apply 1 (sym_get st (VRef 0) rpc_disposeFunc) VUndef [])
       (caller_side defaultCallType).

(** An endpoint that holds a proxy function for ["f"] and a new object, at
    location 3, that is not registered yet. *)
Definition proxy_pair : State :=
  exec (alloc (new_obj KObject [])) (caller_side Async).

(** The string form of the error a call to the unknown id ["nope"] raises. *)
Definition missing : string := "Error: No object found with ID 'nope'".

(** A peer that answers every synchronous call with that error. *)
Definition refusing_env : Env := make_env (λ _ _ _, Some (error_reply Sync missing VUndef)).

(** The caller after one call of its async proxy function: call ["1"] is
    pending. *)
Definition pending_side : State :=
  exec (SuperRPC.apply 1 (VRef 0) VUndef []) (caller_side Async).

(** The host of ["obj"] with a pending promise, at location 2. *)
Definition promise_side : State :=
  exec (alloc (new_obj (KPromise Pending []) [])) host_side.

(** An endpoint with the object [{n: 1, inner: {s: 'x'}}] at location 1. *)
Definition nested_side : State :=
  exec (inner ← SuperRPC.literal [("s", VStr "x")];
        SuperRPC.literal [("n", VNum 1); ("inner", inner)])
       (new_SuperRPC both_ways).

End samples.

(** * Further sample endpoints *)

Section more_samples.
#[local] Existing Instance sample_env.

(** An endpoint that hosts the function at location 0 as ["fn"], and the
    object [{run, addEventListener, n: 1}] at location 1 as ["svc"]; both
    function properties hold the function at location 0. *)
Definition service_side : State :=
  exec (f ← alloc (new_obj (KFunction (UserFunction 0)) []);
        t ← alloc (new_obj KObject
                     [("run", VRef f); ("addEventListener", VRef f); ("n", VNum 1)]);
        SuperRPC.registerHostFunction "fn" (VRef f) None;;
        SuperRPC.registerHostObject "svc" (VRef t) empty_descriptor)
       (new_SuperRPC both_ways).

(** A peer that answers every synchronous call with the result 7. *)
Definition answering_env : Env :=
  make_env (λ _ _ _, Some (mkMessage true (fn_reply Sync true (VNum 7) VUndef))).

(** A class descriptor whose instances have the readonly property [n]. *)
Definition point_descriptor : Descriptor :=
  mkDescriptor (Some TClass) None None None None None None false
               None None None None None
               None None
               (Some (mkDescriptor None None None None None None None false
                                   None None (Some ["n"]) None None None None None None))
               None.

(** An endpoint that knows the remote class ["Point"]. *)
Definition class_client : State :=
  exec (SuperRPC.messageReceived 1
          (mkMessage true (descriptors None None (Some {["Point" := point_descriptor]})))
          None VUndef)
       (new_SuperRPC both_ways).

(** The same endpoint after it built the proxy class, with the wire form of
    an instance: the [props] object at location 2 and the tagged object at
    location 3. *)
Definition instance_client : State :=
  exec (SuperRPC.getProxyClass "Point";;
        props ← SuperRPC.literal [("n", VNum 1)];
        SuperRPC.literal [("_rpc_type", VStr "object"); ("objId", VStr "id0");
                          ("classId", VStr "Point"); ("props", props)])
       class_client.

(** An endpoint that hosts the class ["Point"], whose constructor is at
    location 0, with the instance [{n: 1}] at location 1. *)
Definition class_host : State :=
  exec (ctor ← alloc (new_obj (KFunction (UserFunction 0)) []);
        SuperRPC.registerHostClass "Point" (VRef ctor) point_descriptor;;
        alloc (set_hidden [("constructor", VRef ctor)] (new_obj KObject [("n", VNum 1)])))
       (new_SuperRPC both_ways).

(** An endpoint that received the wire form of the function ["id0"], at
    location 0. *)
Definition function_wire_side : State :=
  exec (alloc (function_wire "id0")) (new_SuperRPC both_ways).

(** An endpoint that received the wire form of the promise ["id0"], at
    location 0. *)
Definition promise_wire_side : State :=
  exec (alloc (promise_wire "id0")) (new_SuperRPC both_ways).

(** An object descriptor with the event [tick]. *)
Definition events_descriptor : Descriptor :=
  mkDescriptor None None None None None None None false
               None None None (Some [inl "tick"]) None None None None None.

(** An endpoint with a function of its own at location 0 and a proxy object
    for the remote id ["obj"] at location 1, whose [addEventListener] is at
    location 2. *)
Definition listener_side (objId : option string) : State :=
  exec (alloc (new_obj (KFunction (UserFunction 0)) []);;
        SuperRPC.createProxyObject objId (Some events_descriptor) None)
       (new_SuperRPC both_ways).

(** The endpoint with one function after the function crossed once: its wire
    form is at location 1. *)
Definition crossed_side : State :=
  exec (SuperRPC.processBeforeSerialization 1 (VRef 0) both_ways None) function_side.

(** The same endpoint after it received a reference to the host object
    ["id0"], at location 2. *)
Definition echo_side : State :=
  exec (SuperRPC.literal [("_rpc_type", VStr "hostObject"); ("objId", VStr "id0")])
       crossed_side.

(** The peer after it received the function ["id0"]: the proxy function is at
    location 1. *)
Definition returned_side : State :=
  exec (SuperRPC.processAfterDeserialization 1 (VRef 0) both_ways None) function_wire_side.

End more_samples.

(** * Properties *)

Open Scope list_scope.
Open Scope nat_scope.

(** ** Running the monad *)

Lemma bind_run {A B} (m : M A) (f : A → M B) st :
  (m ≫= f) st
  = match m st with
    | Ret a st' => f a st'
    | Exn e st' => Exn e st'
    | Halt w => Halt w
    end.
Proof. reflexivity. Qed.

Lemma fmap_run {A B} (f : A → B) (m : M A) st :
  (f <$> m) st
  = match m st with
    | Ret a st' => Ret (f a) st'
    | Exn e st' => Exn e st'
    | Halt w => Halt w
    end.
Proof. reflexivity. Qed.

Lemma ret_run {A} (a : A) st : (mret a : M A) st = Ret a st.
Proof. reflexivity. Qed.

Ltac run :=
  repeat first
    [ rewrite bind_run | rewrite fmap_run | rewrite ret_run
    | progress (unfold get_state, modify, throw, halt, try_catch)
    | progress cbn beta iota ].

(** ** Heap lemmas *)

Lemma fresh_loc_None (st : State) : heap st !! fresh (dom (heap st)) = None.
Proof. apply not_elem_of_dom, is_fresh. Qed.

Lemma fresh_loc_ne (st : State) l o : heap st !! l = Some o → l ≠ fresh (dom (heap st)).
Proof. intros Hl ->. by rewrite fresh_loc_None in Hl. Qed.

Lemma get_set_sym s v o : get_sym s (set_sym s v o) = v.
Proof. by destruct s. Qed.

Lemma get_set_sym_ne s s' v o : s ≠ s' → get_sym s' (set_sym s v o) = get_sym s' o.
Proof. by destruct s, s'. Qed.

Lemma size_pos (h : gmap loc Obj) l o : h !! l = Some o → ∃ n, size h = S n.
Proof.
  intros Hl. destruct (size h) eqn:E; [|by eexists].
  apply map_size_empty_iff in E. subst. by rewrite lookup_empty in Hl.
Qed.

(** An own property is found before the prototype chain is consulted. *)
Lemma js_get_own st l o name v :
  heap st !! l = Some o → assoc name (o_props o) = Some v → js_get st (VRef l) name = v.
Proof.
  intros Hl Hv. unfold js_get. destruct (size_pos _ _ _ Hl) as [n ->].
  cbn. by rewrite Hl, Hv.
Qed.

(** ** The call mode of a proxy function (C2) *)

Section call_mode.
Context `{!Env}.

Lemma code_of_alloc st c :
  SuperRPC.code_of
    (set_heap (<[fresh (dom (heap st)) := new_obj (KFunction c) []]> (heap st)) st)
    (VRef (fresh (dom (heap st)))) = Some c.
Proof. unfold SuperRPC.code_of, kind_of. cbn. by rewrite lookup_insert_eq. Qed.

Lemma createProxyFunction_run objId prop action defaultCallType replyChannel st :
  let ch := default (channel st) replyChannel in
  let fn := fresh (dom (heap st)) in
  let mode :=
    spec_callType (d_returns (prop_descriptor prop)) (default Async defaultCallType) ch in
  SuperRPC.createProxyFunction objId prop action defaultCallType replyChannel st
  = Ret (VRef fn)
        (set_heap
           (<[fn := new_obj (KFunction (proxy_code mode objId (prop_descriptor prop) action ch)) []]>
              (heap st)) st).
Proof.
  unfold SuperRPC.createProxyFunction, spec_callType, upgrade, downgrade.
  fold (prop_descriptor prop). run.
  destruct (d_returns (prop_descriptor prop)) as [[]|], defaultCallType as [[]|];
    cbn; destruct (has_sendAsync _), (has_sendSync _); reflexivity.
Qed.

(** C2 (amended). [createProxyFunction] returns a new function whose call
    mode is the declared return behaviour, or else the default call type
    its caller passes (['async'] when the caller passes none), re-mapped
    first from async to sync when the reply channel has no [sendAsync], then
    from sync to async when it has no [sendSync]; a declared ['void'] stays
    ['void']. *)
Theorem createProxyFunction_callType objId prop action defaultCallType replyChannel st :
  let ch := default (channel st) replyChannel in
  let declared := d_returns (prop_descriptor prop) in
  ∃ fn st' c,
    SuperRPC.createProxyFunction objId prop action defaultCallType replyChannel st
      = Ret (VRef fn) st'
    ∧ SuperRPC.code_of st' (VRef fn) = Some c
    ∧ code_callType c
      = Some (upgrade ch (downgrade ch (default (default Async defaultCallType) declared)))
    ∧ (declared = Some Void → code_callType c = Some Void).
Proof.
  intros ch declared. eexists _, _, _. split; [apply createProxyFunction_run|].
  split; [apply code_of_alloc|]. fold ch. split.
  - unfold spec_callType. fold declared. by destruct (upgrade _ _).
  - intros Hd. unfold spec_callType. fold declared. by rewrite Hd.
Qed.

End call_mode.

(** ** Host classes (C10) *)

Section host_class.
Context `{!Env}.

(** C10. [registerHostClass classId classCtor descriptor] stores the class
    entry under [classId] and stamps the constructor with the class id; with
    a [static] part it also stores a host-object entry under [classId], with
    a [ctor] part also a host-function entry under [classId], and either of
    them stamps the constructor with [classId] as its host object id. *)
Theorem registerHostClass_registries classId (classCtor : loc) d st o :
  heap st !! classCtor = Some o →
  ∃ st', SuperRPC.registerHostClass classId (VRef classCtor) d st = Ret tt st'
    ∧ hostClassRegistry st' !! classId
      = Some (mkEntry (VRef classCtor)
                (Some (set_d_class classId (set_d_type TFunction <$> d_ctor d)
                                   (set_d_type TObject <$> d_static d) d)))
    ∧ sym_get st' (VRef classCtor) classIdSym = VStr classId
    ∧ (∀ static, d_static d = Some static →
         hostObjectRegistry st' !! classId
           = Some (mkEntry (VRef classCtor) (Some (set_d_type TObject static)))
         ∧ sym_get st' (VRef classCtor) hostObjectId = VStr classId)
    ∧ (∀ ctor, d_ctor d = Some ctor →
         hostFunctionRegistry st' !! classId
           = Some (mkEntry (VRef classCtor) (Some (set_d_type TFunction ctor)))
         ∧ sym_get st' (VRef classCtor) hostObjectId = VStr classId)
    ∧ (d_static d = None → hostObjectRegistry st' = hostObjectRegistry st)
    ∧ (d_ctor d = None → hostFunctionRegistry st' = hostFunctionRegistry st).
Proof.
  intros Hl.
  unfold SuperRPC.registerHostClass, SuperRPC.registerHostObject,
    SuperRPC.registerHostFunction, sym_set, update_obj.
  destruct (d_static d) as [static|], (d_ctor d) as [ctor|]; run;
    (eexists; split; [reflexivity|]); cbn.
  all: repeat split; try (by rewrite lookup_insert_eq); try done.
  all: unfold sym_get; cbn; rewrite ?lookup_alter, ?decide_True by done;
    rewrite ?Hl; cbn; try done.
  all: try (intros ? [= <-]; split; try (by rewrite lookup_insert_eq);
            rewrite ?lookup_alter, ?decide_True by done; rewrite ?Hl; done).
  all: simplify_eq; by rewrite lookup_insert_eq.
Qed.

End host_class.

(** ** Disposed proxies (C7) *)

Section disposed.
Context `{!Env}.

(** C7. Calling a proxy function whose [rpc_disposed] flag is set fails with
    the error "Remote function has been disposed": a void or sync function
    throws it, and an async function returns a new promise rejected with it,
    without sending anything. *)
Theorem disposed_proxy_fails fuel st fn c this args :
  SuperRPC.code_of st (VRef fn) = Some c →
  truthy (sym_get st (VRef fn) rpc_disposed) = true →
  match code_callType c with
  | Some Void | Some Sync =>
      SuperRPC.apply fuel (VRef fn) this args st = Exn SuperRPC.disposedError st
  | Some Async =>
      ∃ p st',
        SuperRPC.apply fuel (VRef fn) this args st = Ret (VRef p) st'
        ∧ heap st !! p = None
        ∧ kind_of st' p = Some (KPromise (Rejected SuperRPC.disposedError) [])
        ∧ sent st' = sent st
        ∧ asyncCallbacks st' = asyncCallbacks st
        ∧ callId st' = callId st
  | None => True
  end.
Proof.
  intros Hc Hd. destruct c; cbn; try done.
  - unfold SuperRPC.apply, SuperRPC.callProxyFunction. run. rewrite ?Hc. run. rewrite ?Hc. run.
    unfold SuperRPC.voidProxyFunction. run. by rewrite Hd.
  - unfold SuperRPC.apply, SuperRPC.callProxyFunction. run. rewrite ?Hc. run. rewrite ?Hc. run.
    unfold SuperRPC.syncProxyFunction. run. by rewrite Hd.
  - unfold SuperRPC.apply, SuperRPC.callProxyFunction. run. rewrite ?Hc. run. rewrite ?Hc. run.
    unfold SuperRPC.asyncProxyFunction, alloc. run.
    assert (Hfn : ∃ o, heap st !! fn = Some o).
    { unfold SuperRPC.code_of, kind_of in Hc. destruct (heap st !! fn); [by eexists|done]. }
    destruct Hfn as [o Hfn].
    assert (Hd' : truthy (sym_get (set_heap (<[fresh (dom (heap st)) :=
                     new_obj (KPromise Pending []) []]> (heap st)) st) (VRef fn) rpc_disposed) = true).
    { unfold sym_get in *. cbn. rewrite lookup_insert_ne by (symmetry; by eapply fresh_loc_ne).
      done. }
    rewrite Hd'. unfold promise_reject, settle, update_obj, kind_of. run. cbn.
    rewrite lookup_insert_eq. cbn. run. cbn.
    rewrite lookup_insert_eq. cbn. run.
    eexists _, _. split; [reflexivity|]. split; [apply fresh_loc_None|].
    cbn. rewrite lookup_alter, decide_True by done. rewrite lookup_insert_eq. done.
Qed.

End disposed.

(** ** Identity of a proxy sent back to its origin (C1) *)

Section identity.
Context `{!Env}.

Lemma serialize_proxy fuel obj ch d st :
  truthy (sym_get st obj proxyObjectId) = true →
  SuperRPC.processBeforeSerialization (S fuel) obj ch d st
  = Ret (VRef (fresh (dom (heap st))))
        (set_heap (<[fresh (dom (heap st)) := hostObject_wire (sym_get st obj proxyObjectId)]>
                     (heap st)) st).
Proof.
  intros Hp. cbn [SuperRPC.processBeforeSerialization]. run. rewrite Hp.
  unfold SuperRPC.literal, alloc. run. reflexivity.
Qed.

Lemma deserialize_hostObject fuel st w o ch d :
  heap st !! w = Some o →
  is_function st (VRef w) = false →
  js_get st (VRef w) "_rpc_type" = VStr "hostObject" →
  SuperRPC.processAfterDeserialization (S fuel) (VRef w) ch d st
  = Ret (from_option entry_target VUndef
           (map_get (hostObjectRegistry st) (js_get st (VRef w) "objId"))) st.
Proof.
  intros Hw Hf Ht. cbn [SuperRPC.processAfterDeserialization]. run.
  rewrite Hw, Hf, Ht. cbn. reflexivity.
Qed.


End identity.

(** ** Inversion of a run *)

Lemma bind_Ret_inv {A B} (m : M A) (f : A → M B) st b st' :
  (m ≫= f) st = Ret b st' → ∃ a st1, m st = Ret a st1 ∧ f a st1 = Ret b st'.
Proof. rewrite bind_run. destruct (m st); naive_solver. Qed.

Lemma fmap_Ret_inv {A B} (f : A → B) (m : M A) st b st' :
  (f <$> m) st = Ret b st' → ∃ a, m st = Ret a st' ∧ b = f a.
Proof. rewrite fmap_run. destruct (m st); naive_solver. Qed.

Lemma ret_Ret_inv {A} (a b : A) st st' : (mret a : M A) st = Ret b st' → a = b ∧ st = st'.
Proof. rewrite ret_run. naive_solver. Qed.

(** ** The weak proxy registry is consulted first (C5) *)

Section one_proxy.
Context `{!Env}.

Lemma registry_get_Some st k p :
  ProxyObjectRegistry.get st k = VRef p ↔ registry st !! k = Some p ∧ p ∉ collected st.
Proof.
  unfold ProxyObjectRegistry.get. destruct (registry st !! k) as [l|].
  - case_decide; split.
    + done.
    + by intros [[= ->] ?].
    + by intros [= ->].
    + by intros [[= ->] _].
  - split; [done|]. by intros [? _].
Qed.

Lemma register_registry k l hook st :
  ∃ st', ProxyObjectRegistry.register k l hook st = Ret tt st'
         ∧ registry st' !! k = Some l
         ∧ collected st' = collected st
         ∧ sent st' = sent st.
Proof.
  unfold ProxyObjectRegistry.register, alloc, sym_set, update_obj. run.
  eexists. split; [reflexivity|]. cbn. by rewrite lookup_insert_eq.
Qed.

Lemma createProxyObject_returns objId d obj st v st' :
  SuperRPC.createProxyObject objId d obj st = Ret v st' →
  match obj with Some o => v = o | None => ∃ l, v = VRef l end.
Proof.
  unfold SuperRPC.createProxyObject. intros Hrun.
  apply bind_Ret_inv in Hrun as (o & st1 & Hobj & Hrun).
  assert (Ho : match obj with Some o' => o = o' | None => ∃ l, o = VRef l end).
  { destruct obj; [by apply ret_Ret_inv in Hobj as [-> _]|].
    unfold SuperRPC.literal in Hobj. apply fmap_Ret_inv in Hobj as (l & _ & ->). by eexists. }
  repeat (apply bind_Ret_inv in Hrun as (? & ? & _ & Hrun)).
  apply ret_Ret_inv in Hrun as [<- _]. done.
Qed.

Lemma registry_get_cases st k :
  ProxyObjectRegistry.get st k = VUndef ∨ ∃ p, ProxyObjectRegistry.get st k = VRef p.
Proof.
  unfold ProxyObjectRegistry.get. destruct (registry st !! k); [case_decide|]; eauto.
Qed.

Lemma register_returned k obj hook st v st' :
  (match obj with
   | VRef l => ProxyObjectRegistry.register k l hook
   | _ => mret tt
   end;; mret obj) st = Ret v st' →
  (∃ l, obj = VRef l) →
  ∃ p, v = VRef p ∧ registry st' !! k = Some p.
Proof.
  intros Hrun [l ->]. apply bind_Ret_inv in Hrun as ([] & st1 & Hreg & Hret).
  apply ret_Ret_inv in Hret as [<- <-].
  destruct (register_registry k l hook st) as (st2 & Hreg' & Hk & _).
  rewrite Hreg' in Hreg. simplify_eq. eauto.
Qed.

Lemma getProxyObject_registered k st v st' :
  SuperRPC.getProxyObject k st = Ret v st' → ∃ p, v = VRef p ∧ registry st' !! k = Some p.
Proof.
  unfold SuperRPC.getProxyObject. run.
  destruct (registry_get_cases st k) as [Hget|[p Hget]]; rewrite Hget; cbn [truthy].
  - destruct (remoteObjectDescriptors st ≫= _); [|done]. rewrite bind_run.
    destruct (SuperRPC.createProxyObject _ _ _ _) as [obj st1| |] eqn:Hobj; [|done..].
    apply createProxyObject_returns in Hobj. intros Hrun. by eapply register_returned.
  - intros [= <- <-]. apply registry_get_Some in Hget as [? _]. eauto.
Qed.

Lemma getProxyFunction_registered k st v st' :
  SuperRPC.getProxyFunction k st = Ret v st' → ∃ p, v = VRef p ∧ registry st' !! k = Some p.
Proof.
  unfold SuperRPC.getProxyFunction. run.
  destruct (registry_get_cases st k) as [Hget|[p Hget]]; rewrite Hget; cbn [truthy].
  - destruct (remoteFunctionDescriptors st ≫= _); [|done].
    rewrite bind_run, createProxyFunction_run. intros Hrun.
    refine (register_returned k (VRef _) _ _ _ _ Hrun _); eauto.
  - intros [= <- <-]. apply registry_get_Some in Hget as [? _]. eauto.
Qed.

Lemma getOrCreateProxyFunction_registered k ch d st v st' :
  SuperRPC.getOrCreateProxyFunction k ch d st = Ret v st' →
  ∃ p, v = VRef p ∧ registry st' !! k = Some p.
Proof.
  unfold SuperRPC.getOrCreateProxyFunction. run.
  destruct (registry_get_cases st k) as [Hget|[p Hget]]; rewrite Hget; cbn [truthy].
  - rewrite bind_run, createProxyFunction_run. rewrite bind_run.
    unfold sym_set at 1, update_obj. run. intros Hrun.
    refine (register_returned k (VRef _) _ _ _ _ Hrun _); eauto.
  - intros [= <- <-]. apply registry_get_Some in Hget as [? _]. eauto.
Qed.

Lemma getOrCreateProxyInstance_registered k classId props ch st v st' :
  SuperRPC.getOrCreateProxyInstance k classId props ch st = Ret v st' →
  ∃ p, v = VRef p ∧ registry st' !! k = Some p.
Proof.
  unfold SuperRPC.getOrCreateProxyInstance. run.
  destruct (registry_get_cases st k) as [Hget|[p Hget]]; rewrite Hget; cbn [truthy].
  - intros Hrun.
    apply bind_Ret_inv in Hrun as (obj0 & st1 & _ & Hrun).
    apply bind_Ret_inv in Hrun as (obj & st2 & _ & Hrun).
    destruct obj; try done.
    eapply register_returned; [exact Hrun|eauto].
  - intros [= <- <-]. apply registry_get_Some in Hget as [? _]. eauto.
Qed.


End one_proxy.

(** ** Host entries and [obj_died] (C4) *)

Section obj_died.
Context `{!Env}.

Lemma messageReceived_obj_died fuel objId replyChannel context st :
  SuperRPC.messageReceived fuel (mkMessage true (obj_died objId)) replyChannel context st
  = Ret tt (set_hostObjectRegistry (map_delete (hostObjectRegistry st) objId)
              (set_currentContext context st)).
Proof. reflexivity. Qed.

(** C4 (what the code does). A function that crosses the boundary is
    registered in the host function registry under a generated id [k] and
    encoded as [{_rpc_type: 'function', objId: k}]; receiving
    [{action: 'obj_died', objId: k}] afterwards deletes [k] from the host
    object registry only, so the host function entry stays. *)
Theorem obj_died_keeps_host_function fuel fuel' fn o c ch d replyChannel context st :
  heap st !! fn = Some o →
  o_kind o = KFunction c →
  truthy (o_proxyObjectId o) = false →
  map_get (hostFunctionRegistry st) (o_hostObjectId o) = None →
  let k := objectIdGenerator (idCount st) in
  ∃ w st1 st2,
    SuperRPC.processBeforeSerialization (S fuel) (VRef fn) ch d st = Ret (VRef w) st1
    ∧ heap st1 !! w = Some (function_wire k)
    ∧ hostFunctionRegistry st1 !! k = Some (mkEntry (VRef fn) d)
    ∧ SuperRPC.messageReceived fuel' (mkMessage true (obj_died (VStr k)))
        replyChannel context st1 = Ret tt st2
    ∧ hostFunctionRegistry st2 !! k = Some (mkEntry (VRef fn) d)
    ∧ hostObjectRegistry st2 !! k = None.
Proof.
  intros Hfn Hk Hp Hreg k.
  assert (Hslot : ∀ s, sym_get st (VRef fn) s = get_sym s o)
    by (intros s; unfold sym_get; by rewrite Hfn).
  cbn [SuperRPC.processBeforeSerialization]. run.
  rewrite Hslot. cbn [get_sym]. rewrite Hp, Hfn, Hk.
  unfold SuperRPC.registerLocalFunc. run.
  rewrite Hslot. cbn [get_sym]. rewrite Hreg.
  unfold SuperRPC.generateId, sym_set, update_obj, SuperRPC.literal, alloc. run.
  eexists _, _, _. split; [reflexivity|]. cbn.
  split; [by rewrite lookup_insert_eq|]. split; [by rewrite lookup_insert_eq|].
  rewrite messageReceived_obj_died. split; [reflexivity|]. cbn.
  split; [by rewrite lookup_insert_eq|]. apply lookup_delete_eq.
Qed.

End obj_died.

(** ** Disposal of a registered proxy (C3) *)

Section dispose.
Context `{!Env}.

Lemma sendObjectDied_run objId ch st :
  SuperRPC.sendObjectDied objId ch st = Ret tt (set_sent (sent st ++ died_notice objId ch)%list st).
Proof.
  unfold SuperRPC.sendObjectDied, SuperRPC.sendAsyncIfPossible, SuperRPC.sendAsync,
    SuperRPC.sendSync, SuperRPC.emit, died_notice.
  destruct (has_sendAsync ch), (has_sendSync ch); run; try reflexivity.
  all: destruct st; cbn; by rewrite app_nil_r.
Qed.

Lemma kind_of_set_sym st h s v l l' :
  kind_of (set_heap (alter (set_sym s v) l (heap st)) h) l' = kind_of st l'.
Proof.
  unfold kind_of. cbn. rewrite lookup_alter. case_decide; [subst|done].
  destruct (heap st !! l'); [|done]. by destruct s.
Qed.

Lemma filter_none {A} (P : A → Prop) `{∀ x, Decision (P x)} (l : list A) :
  (∀ x, x ∈ l → ¬ P x) → filter P l = [].
Proof.
  induction l as [|x l IH]; [done|]. intros Hl.
  rewrite filter_cons_False by (apply Hl; left).
  apply IH. intros y Hy. apply Hl. by right.
Qed.

Lemma filter_all {A} (P : A → Prop) `{∀ x, Decision (P x)} (l : list A) :
  (∀ x, x ∈ l → P x) → filter P l = l.
Proof.
  induction l as [|x l IH]; [done|]. intros Hl.
  rewrite filter_cons_True by (apply Hl; left).
  f_equal. apply IH. intros y Hy. apply Hl. by right.
Qed.

Lemma register_spec k obj hook st o :
  heap st !! obj = Some o →
  ∃ st1 token fn,
    ProxyObjectRegistry.register k obj hook st = Ret tt st1
    ∧ heap st !! fn = None
    ∧ SuperRPC.code_of st1 (VRef fn) = Some (DisposeFunc k token obj hook)
    ∧ sym_get st1 (VRef obj) rpc_disposeFunc = VRef fn
    ∧ sym_get st1 (VRef obj) rpc_disposed = VBool false
    ∧ objectFinalized st1 = (objectFinalized st ++ [(obj, VRef fn, token)])%list
    ∧ registry st1 = <[k := obj]> (registry st)
    ∧ sent st1 = sent st.
Proof.
  intros Hobj.
  unfold ProxyObjectRegistry.register, alloc, sym_set, update_obj. run.
  set (token := fresh (dom (heap st))).
  assert (Htoken : obj ≠ token) by (by eapply fresh_loc_ne).
  set (h1 := alter (set_sym rpc_disposed (VBool false)) obj
               (<[token := new_obj KObject []]> (heap st))).
  cbn [heap set_heap].
  set (fn := fresh (dom h1)).
  assert (Hh1 : h1 !! obj = Some (set_sym rpc_disposed (VBool false) o)).
  { unfold h1. rewrite lookup_alter, decide_True by done.
    by rewrite lookup_insert_ne, Hobj by done. }
  assert (Hfn1 : h1 !! fn = None) by apply not_elem_of_dom, is_fresh.
  assert (Hfn : obj ≠ fn) by (intros Heq; rewrite Heq in Hh1; congruence).
  eexists _, token, fn. split; [reflexivity|]. cbn.
  split.
  { unfold h1 in Hfn1. rewrite lookup_alter_ne in Hfn1 by done.
    apply lookup_insert_None in Hfn1 as [? _]. done. }
  split.
  { unfold SuperRPC.code_of, kind_of. cbn.
    rewrite lookup_alter_ne by done. by rewrite lookup_insert_eq. }
  unfold sym_get. cbn. fold h1. fold fn.
  rewrite !lookup_alter, !decide_True by done.
  rewrite lookup_insert_ne, Hh1 by done. cbn. done.
Qed.

Lemma dispose_spec fuel fn k token obj k' ch this args st :
  SuperRPC.code_of st (VRef fn) = Some (DisposeFunc k token obj (Some (SendObjectDied k' ch))) →
  ∃ st',
    SuperRPC.apply fuel (VRef fn) this args st = Ret VUndef st'
    ∧ heap st' = alter (set_sym rpc_disposed (VBool true)) obj (heap st)
    ∧ registry st' = delete k (registry st)
    ∧ objectFinalized st' = filter (λ r, r.2 ≠ token) (objectFinalized st)
    ∧ sent st' = (sent st ++ died_notice k' ch)%list
    ∧ collected st' = collected st.
Proof.
  intros Hc. unfold SuperRPC.apply. run. rewrite Hc.
  unfold ProxyObjectRegistry.disposeFunc, ProxyObjectRegistry.remoteObjectDisposed,
    SuperRPC.runDisposeHook, sym_set, update_obj.
  run. rewrite sendObjectDied_run. run. eexists. split; [reflexivity|]. done.
Qed.

Lemma code_of_disposed st fn obj c :
  SuperRPC.code_of st (VRef fn) = Some c →
  ∀ st', heap st' = alter (set_sym rpc_disposed (VBool true)) obj (heap st) →
         SuperRPC.code_of st' (VRef fn) = Some c.
Proof.
  intros Hc st' Hh. unfold SuperRPC.code_of, kind_of in *. rewrite Hh, lookup_alter.
  case_decide; [subst|done]. destruct (heap st !! fn); [|done]. done.
Qed.

Lemma collect_unregistered fuel obj st :
  (∀ r, r ∈ objectFinalized st → r.1.1 ≠ obj) →
  ∃ st', SuperRPC.collect fuel obj st = Ret tt st' ∧ sent st' = sent st.
Proof.
  intros Hnone. unfold SuperRPC.collect, ProxyObjectRegistry.finalize. run. cbn.
  rewrite (filter_none (λ r, r.1.1 = obj)) by (intros r Hr; by apply Hnone).
  cbn. run. eexists. done.
Qed.

Lemma collect_registered fuel obj fn token k k' ch st l :
  objectFinalized st = (l ++ [(obj, VRef fn, token)])%list →
  (∀ r, r ∈ l → r.1.1 ≠ obj) →
  SuperRPC.code_of st (VRef fn) = Some (DisposeFunc k token obj (Some (SendObjectDied k' ch))) →
  ∃ st',
    SuperRPC.collect fuel obj st = Ret tt st'
    ∧ heap st' = alter (set_sym rpc_disposed (VBool true)) obj (heap st)
    ∧ registry st' = delete k (registry st)
    ∧ sent st' = (sent st ++ died_notice k' ch)%list
    ∧ (∀ r, r ∈ objectFinalized st' → r.1.1 ≠ obj).
Proof.
  intros Hfin Hl Hc. unfold SuperRPC.collect, ProxyObjectRegistry.finalize. run.
  cbn [objectFinalized set_collected]. rewrite Hfin, !filter_app.
  rewrite (filter_none (λ r, r.1.1 = obj) l) by done.
  rewrite (filter_all (λ r, r.1.1 ≠ obj) l) by done.
  rewrite filter_cons_True, filter_cons_False by (cbn; auto).
  rewrite !filter_nil, app_nil_r. cbn [app for_each]. run.
  edestruct (dispose_spec fuel fn k token obj k' ch VUndef []
               (set_objectFinalized l (set_collected ({[obj]} ∪ collected st) st)))
    as (st' & Happly & Hheap & Hreg & Hfin' & Hsent & _); [exact Hc|].
  cbn [fst snd]. rewrite Happly. run. eexists. split; [reflexivity|].
  repeat split; try done.
  intros r Hr. rewrite Hfin' in Hr. cbn in Hr.
  apply list_elem_of_filter in Hr as [_ Hr]. by apply Hl.
Qed.


End dispose.

(** ** Remote errors (C6) *)

Section remote_errors.
Context `{!Env}.

Lemma callTargetFunction_throws fuel action callType objId prop args callId ch st err st1 s :
  SuperRPC.callTargetBody fuel (targetEntry st action objId) action callType objId prop args
    callId ch st = Exn err st1 →
  toString_opt ref_toString err = VStr s →
  SuperRPC.callTargetFunction fuel action callType objId prop args callId ch st
  = Ret tt (set_sent (sent st1 ++ error_reply_sent callType s callId ch)%list st1).
Proof.
  intros Hbody Hs. unfold SuperRPC.callTargetFunction. run.
  fold (targetEntry st action objId). rewrite Hbody. run. rewrite Hs.
  unfold error_reply_sent, SuperRPC.sendSync, SuperRPC.sendAsync, SuperRPC.emit.
  destruct callType; cbn [negb]; run.
  - destruct (has_sendSync ch); run; [reflexivity|].
    destruct st1; cbn; by rewrite app_nil_r.
  - destruct (has_sendAsync ch); run; [reflexivity|].
    destruct st1; cbn; by rewrite app_nil_r.
  - destruct st1; cbn; by rewrite app_nil_r.
Qed.

Lemma rejected_call_reply fuel callId ch err s st :
  toString_opt ref_toString err = VStr s →
  SuperRPC.runReaction fuel (ReplyCall callId ch) (Rejected err) st
  = Ret tt (set_sent (sent st ++ error_reply_sent Async s callId ch)%list st).
Proof.
  intros Hs. cbn [SuperRPC.runReaction]. rewrite Hs.
  unfold error_reply_sent, SuperRPC.sendAsync, SuperRPC.emit.
  destruct (has_sendAsync ch); run; [reflexivity|].
  destruct st; cbn; by rewrite app_nil_r.
Qed.

Lemma syncProxyFunction_error fuel fn objId func action ch this args st id st0 args' st1 s cid :
  truthy (sym_get st (VRef fn) rpc_disposed) = false →
  SuperRPC.receiverId objId this st = Ret id st0 →
  SuperRPC.serializeFunctionArgs fuel (Some func) args ch st0 = Ret args' st1 →
  has_sendSync ch = true →
  let request :=
    mkMessage true (call action Sync id (from_option VStr VUndef (d_name func)) args' VUndef) in
  let st2 := set_sent (sent st1 ++ [(ViaSync, ch, request)])%list st1 in
  channel_sendSync ch request st2 = Some (error_reply Sync s cid) →
  SuperRPC.syncProxyFunction fuel fn objId func action ch this args st
  = Exn (VError "Error" s) st2.
Proof.
  intros Hd Hid Hargs Hsync request st2 Hresp.
  unfold SuperRPC.syncProxyFunction. run. rewrite Hd. run. rewrite Hid. run.
  rewrite Hargs. run.
  unfold SuperRPC.sendSync, SuperRPC.emit. rewrite Hsync. run.
  unfold SuperRPC.addMarker, SuperRPC.msg. cbn [body]. fold request. fold st2.
  rewrite Hresp.
  reflexivity.
Qed.

Lemma async_reply_rejects fuel s cid ch context st p rs :
  asyncCallbacks st !! cid = Some p →
  kind_of st p = Some (KPromise Pending rs) →
  ∃ st',
    SuperRPC.messageReceived (S fuel) (error_reply Async s (VStr cid)) ch context st
      = Ret tt st'
    ∧ kind_of st' p = Some (KPromise (Rejected (VStr s)) [])
    ∧ asyncCallbacks st' !! cid = None
    ∧ microtasks st' = (microtasks st ++ ((λ r, (r, Rejected (VStr s))) <$> rs))%list.
Proof.
  intros Hcb Hp. unfold SuperRPC.messageReceived, error_reply. run.
  cbn [SuperRPC.checkMarker rpc_marker body].
  rewrite (bool_decide_eq_true_2 (Async = Async)) by done. run.
  cbn [SuperRPC.processAfterDeserialization]. run.
  cbn [asyncCallbacks set_currentContext map_get key_of mbind option_bind].
  rewrite Hcb. cbn [negb]. run.
  unfold promise_reject. run.
  assert (Hp' : kind_of (set_currentContext context st) p = Some (KPromise Pending rs)) by done.
  rewrite Hp'. unfold settle. run. rewrite Hp'. unfold update_obj. run.
  set (st1 := set_heap _ _).
  assert (Henq : ∀ rs' (st0 : State),
    for_each (λ r, enqueue r (Rejected (VStr s))) rs' st0
    = Ret tt (set_microtasks (microtasks st0 ++ ((λ r, (r, Rejected (VStr s))) <$> rs'))%list st0)).
  { induction rs' as [|r rs' IH]; intros st0.
    - cbn. destruct st0; cbn; by rewrite app_nil_r.
    - cbn [for_each]. run. unfold enqueue at 1. run. rewrite IH.
      destruct st0; cbn. by rewrite <- app_assoc. }
  rewrite Henq. run. eexists. split; [reflexivity|]. cbn.
  split; [|split; [apply lookup_delete_eq|done]].
  unfold kind_of. cbn. rewrite lookup_alter, decide_True by done.
  unfold kind_of in Hp. destruct (heap st !! p); [|done]. done.
Qed.

(** C6. When the processing of an incoming call throws [err] whose string
    form is [s], the host answers [{success: false, result: s}] on the
    transport of the call mode ([sendSync] for a sync call, [sendAsync] with
    the call id for an async call, also when the returned promise rejects);
    a sync proxy call that receives this answer throws an [Error] whose
    message is [s], and the async answer rejects the pending promise of the
    call with [s]. *)
Theorem remote_error_round_trip fuel s callId :
  (∀ action callType objId prop args ch st err st1,
     SuperRPC.callTargetBody fuel (targetEntry st action objId) action callType objId prop
       args callId ch st = Exn err st1 →
     toString_opt ref_toString err = VStr s →
     SuperRPC.callTargetFunction fuel action callType objId prop args callId ch st
     = Ret tt (set_sent (sent st1 ++ error_reply_sent callType s callId ch)%list st1))
  ∧ (∀ ch err st,
       toString_opt ref_toString err = VStr s →
       SuperRPC.runReaction fuel (ReplyCall callId ch) (Rejected err) st
       = Ret tt (set_sent (sent st ++ error_reply_sent Async s callId ch)%list st))
  ∧ (∀ fn objId func action ch this args st id st0 args' st1,
       truthy (sym_get st (VRef fn) rpc_disposed) = false →
       SuperRPC.receiverId objId this st = Ret id st0 →
       SuperRPC.serializeFunctionArgs fuel (Some func) args ch st0 = Ret args' st1 →
       has_sendSync ch = true →
       let request :=
         mkMessage true
           (call action Sync id (from_option VStr VUndef (d_name func)) args' VUndef) in
       let st2 := set_sent (sent st1 ++ [(ViaSync, ch, request)])%list st1 in
       channel_sendSync ch request st2 = Some (error_reply Sync s callId) →
       SuperRPC.syncProxyFunction fuel fn objId func action ch this args st
       = Exn (VError "Error" s) st2)
  ∧ (∀ cid ch context st p rs,
       callId = VStr cid →
       asyncCallbacks st !! cid = Some p →
       kind_of st p = Some (KPromise Pending rs) →
       ∃ st',
         SuperRPC.messageReceived (S fuel) (error_reply Async s callId) ch context st
           = Ret tt st'
         ∧ kind_of st' p = Some (KPromise (Rejected (VStr s)) [])
         ∧ asyncCallbacks st' !! cid = None).
Proof.
  split; [intros; by eapply callTargetFunction_throws|].
  split; [intros; by eapply rejected_call_reply|].
  split; [intros; by eapply syncProxyFunction_error|].
  intros cid ch context st p rs -> Hcb Hp.
  destruct (async_reply_rejects fuel s cid ch context st p rs Hcb Hp) as (st' & ? & ? & ? & _).
  eauto.
Qed.

End remote_errors.

(** ** Property assignment (C8) *)

Section prop_set.
Context `{!Env}.

Lemma assoc_set_Some name v ps ps' :
  assoc_set name v ps = Some ps' → assoc name ps' = Some v ∧ ps'.*1 = ps.*1.
Proof.
  revert ps'. induction ps as [|[k w] ps IH]; intros ps'; cbn; [done|].
  case_decide as Hk.
  - intros [= <-]. cbn. by rewrite decide_True.
  - destruct (assoc_set name v ps) as [ps0|]; [|done]. cbn. intros [= <-].
    destruct (IH ps0 eq_refl) as [IH1 IH2]. cbn. rewrite decide_False by done.
    by rewrite IH2.
Qed.

Lemma assoc_set_None name v ps : assoc_set name v ps = None → assoc name ps = None.
Proof.
  induction ps as [|[k w] ps IH]; cbn; [done|].
  case_decide; [done|]. destruct (assoc_set name v ps); [done|]. auto.
Qed.

Lemma assoc_app_None name v ps :
  assoc name ps = None → assoc name (ps ++ [(name, v)]) = Some v.
Proof.
  induction ps as [|[k w] ps IH]; cbn.
  - by rewrite decide_True.
  - case_decide; [done|]. auto.
Qed.

(** After [obj[name] = v] the object has [v] as its own [name]. *)
Lemma assign_own name v o :
  match assoc name (o_props (assign name v o)) with
  | Some w => w = v
  | None => assoc name (o_hidden (assign name v o)) = Some v
  end.
Proof.
  unfold assign.
  destruct (assoc_set name v (o_props o)) as [ps|] eqn:Hps.
  - cbn. apply assoc_set_Some in Hps as [Hps _]. by rewrite Hps.
  - destruct (assoc_set name v (o_hidden o)) as [hs|] eqn:Hhs.
    + cbn. rewrite (assoc_set_None _ _ _ Hps). by apply assoc_set_Some in Hhs as [Hhs _].
    + cbn. by rewrite (assoc_app_None _ _ _ (assoc_set_None _ _ _ Hps)).
Qed.

Lemma js_get_assign st h name v t o :
  heap st !! t = Some o →
  js_get (set_heap (alter (assign name v) t (heap st)) h) (VRef t) name = v.
Proof.
  intros Ht. unfold js_get. cbn [heap set_heap].
  assert (Ht' : alter (assign name v) t (heap st) !! t = Some (assign name v o))
    by (by rewrite lookup_alter, decide_True, Ht by done).
  destruct (size_pos _ _ _ Ht') as [n ->]. cbn [lookup_chain]. rewrite Ht'.
  pose proof (assign_own name v o) as Hown.
  destruct (assoc name (o_props (assign name v o))); [done|]. by rewrite Hown.
Qed.

Lemma serialize_undefined fuel ch d st :
  SuperRPC.processBeforeSerialization (S fuel) VUndef ch d st = Ret VUndef st.
Proof. reflexivity. Qed.

Lemma promise_then_spec p r st :
  ∃ st',
    promise_then p r st = Ret tt st'
    ∧ (∀ l, o_props <$> heap st' !! l = o_props <$> heap st !! l)
    ∧ (∀ rs, kind_of st p = Some (KPromise Pending rs) →
         kind_of st' p = Some (KPromise Pending (rs ++ [r])))
    ∧ (∀ v rs, kind_of st p = Some (KPromise (Fulfilled v) rs) →
         microtasks st' = (microtasks st ++ [(r, Fulfilled v)])%list).
Proof.
  unfold promise_then, enqueue, update_obj. run.
  assert (Hprops : ∀ k l,
    o_props <$> alter (set_kind k) p (heap st) !! l = o_props <$> heap st !! l).
  { intros k l. rewrite lookup_alter. case_decide; [subst|done]. by destruct (heap st !! l). }
  assert (Hkind : ∀ k k', kind_of st p = Some k' →
    o_kind <$> alter (set_kind k) p (heap st) !! p = Some k).
  { intros k k' Hk. unfold kind_of in Hk. rewrite lookup_alter, decide_True by done.
    by destruct (heap st !! p). }
  destruct (kind_of st p) as [[|[]|]|] eqn:Hk; run;
    (eexists; split; [reflexivity|]); cbn [heap set_heap set_microtasks microtasks];
    (split; [by auto|]); (split; [|by intros ?? [= <-]]).
  all: intros rs' [= <-]; try done. all: unfold kind_of; cbn; by erewrite Hkind.
Qed.


End prop_set.

(** ** The codec rewrites plain objects in place (C9) *)

Section in_place.
Context `{!Env}.

Lemma for_each_rewritten step l ks st st' :
  for_each (λ key, st ← get_state; v ← step key (js_get st (VRef l) key);
                   js_set (VRef l) key v) ks st = Ret tt st' →
  rewritten step l ks st st'.
Proof.
  revert st. induction ks as [|key ks IH]; intros st.
  - intros [= <-]. constructor.
  - cbn [for_each]. run.
    destruct (step key (js_get st (VRef l) key) st) as [w st1| |] eqn:Hstep; [|done..].
    run. intros Hrest. econstructor; [exact Hstep|reflexivity|]. by apply IH.
Qed.

Lemma serialize_plain_unfold fuel l o ch d st :
  plain_for_serialization st l o →
  SuperRPC.processBeforeSerialization (S fuel) (VRef l) ch d st
  = (for_each (λ key, st ← get_state;
                      v ← SuperRPC.processBeforeSerialization fuel (js_get st (VRef l) key) ch None;
                      js_set (VRef l) key v) (keys o);;
     mret (VRef l)) st.
Proof.
  intros (Hl & Hk & Hp & Hc). cbn [SuperRPC.processBeforeSerialization]. run.
  unfold sym_get at 1. rewrite Hl. cbn [from_option get_sym]. rewrite Hp, Hk, Hc.
  reflexivity.
Qed.

Lemma deserialize_untagged_unfold fuel l o ch d st :
  untagged st l o →
  SuperRPC.processAfterDeserialization (S fuel) (VRef l) ch d st
  = (for_each (λ key, st ← get_state;
                      v ← SuperRPC.processAfterDeserialization fuel (js_get st (VRef l) key) ch
                            (getPropertyDescriptor d (VStr key));
                      js_set (VRef l) key v) (keys o);;
     mret (VRef l)) st.
Proof.
  intros (Hl & Hf & H1 & H2 & H3). cbn [SuperRPC.processAfterDeserialization]. run.
  rewrite Hl, Hf. rewrite !bool_decide_eq_false_2 by done. reflexivity.
Qed.

Lemma serialize_plain_same_reference fuel l o ch d st v st' :
  plain_for_serialization st l o →
  SuperRPC.processBeforeSerialization (S fuel) (VRef l) ch d st = Ret v st' →
  v = VRef l
  ∧ rewritten (λ _ x, SuperRPC.processBeforeSerialization fuel x ch None) l (keys o) st st'.
Proof.
  intros Hplain. rewrite (serialize_plain_unfold _ _ _ _ _ _ Hplain). rewrite bind_run.
  destruct (for_each _ _ _) as [[] st1| |] eqn:Hloop; [|done..].
  intros [= <- <-]. split; [done|].
  by apply (for_each_rewritten
              (λ _ x, SuperRPC.processBeforeSerialization fuel x ch None)) in Hloop.
Qed.

Lemma deserialize_untagged_same_reference fuel l o ch d st v st' :
  untagged st l o →
  SuperRPC.processAfterDeserialization (S fuel) (VRef l) ch d st = Ret v st' →
  v = VRef l
  ∧ rewritten (λ key x, SuperRPC.processAfterDeserialization fuel x ch
                         (getPropertyDescriptor d (VStr key))) l (keys o) st st'.
Proof.
  intros Hplain. rewrite (deserialize_untagged_unfold _ _ _ _ _ _ Hplain). rewrite bind_run.
  destruct (for_each _ _ _) as [[] st1| |] eqn:Hloop; [|done..].
  intros [= <- <-]. split; [done|].
  by apply (for_each_rewritten
              (λ key x, SuperRPC.processAfterDeserialization fuel x ch
                          (getPropertyDescriptor d (VStr key)))) in Hloop.
Qed.

Lemma same_kind_refl k : same_kind k k.
Proof. by destruct k. Qed.

Lemma same_kind_trans k1 k2 k3 : same_kind k1 k2 → same_kind k2 k3 → same_kind k1 k3.
Proof. destruct k1, k2, k3; cbn; try done. congruence. Qed.

Lemma same_shape_refl o : same_shape o o.
Proof. repeat split. apply same_kind_refl. Qed.

Lemma same_shape_trans o1 o2 o3 : same_shape o1 o2 → same_shape o2 o3 → same_shape o1 o3.
Proof.
  intros (? & ? & ?) (? & ? & ?). repeat split; try congruence.
  by eapply same_kind_trans.
Qed.

Lemma untouched_refl o : untouched o o.
Proof. repeat split. apply same_kind_refl. Qed.

Lemma untouched_trans o1 o2 o3 : untouched o1 o2 → untouched o2 o3 → untouched o1 o3.
Proof.
  intros (? & ? & ?) (? & ? & ?). repeat split; try congruence.
  by eapply same_kind_trans.
Qed.

Lemma untouched_shape o o' : untouched o o' → same_shape o o'.
Proof. intros (Hp & ? & ?). repeat split; try done. unfold keys. by rewrite Hp. Qed.

Lemma inert_refl st : inert st st.
Proof. split; [done|]. intros l. destruct (heap st !! l); [apply untouched_refl|done]. Qed.

Lemma inert_trans st1 st2 st3 : inert st1 st2 → inert st2 st3 → inert st1 st3.
Proof.
  intros [Hc1 H1] [Hc2 H2]. split; [congruence|]. intros l.
  specialize (H1 l). specialize (H2 l).
  destruct (heap st1 !! l), (heap st2 !! l), (heap st3 !! l); try done.
  by eapply untouched_trans.
Qed.

Lemma grows_refl ρ st : grows ρ st ρ st.
Proof. repeat split; try done. intros l o Hl. exists o. split; [done|apply same_shape_refl]. Qed.

Lemma grows_trans ρ1 st1 ρ2 st2 ρ3 st3 :
  grows ρ1 st1 ρ2 st2 → grows ρ2 st2 ρ3 st3 → grows ρ1 st1 ρ3 st3.
Proof.
  intros (Hc1 & Hr1 & Hle1 & Hs1) (Hc2 & Hr2 & Hle2 & Hs2).
  split; [congruence|]. split; [|split].
  - intros l [o Hl]. destruct (Hs1 l o Hl) as (o' & Hl' & _).
    rewrite Hr2 by eauto. apply Hr1. eauto.
  - intros l. etrans; [apply Hle2|apply Hle1].
  - intros l o Hl. destruct (Hs1 l o Hl) as (o' & Hl' & Hsh).
    destruct (Hs2 l o' Hl') as (o'' & Hl'' & Hsh'). exists o''. split; [done|].
    by eapply same_shape_trans.
Qed.

Lemma inert_grows ρ st st' : inert st st' → grows ρ st ρ st'.
Proof.
  intros [Hc Hh]. repeat split; try done. intros l o Hl. specialize (Hh l).
  rewrite Hl in Hh. destruct (heap st' !! l) as [o'|]; [|done].
  exists o'. split; [done|]. by apply untouched_shape.
Qed.

Lemma inert_ranked ρ st st' : inert st st' → ranked ρ st → ranked ρ st'.
Proof.
  intros [Hc Hh] Hr l o' Hl'. specialize (Hh l). rewrite Hl' in Hh.
  destruct (heap st !! l) as [o|] eqn:Hl; [|done].
  destruct Hh as (Hp & Hid & Hk). destruct (Hr l o Hl) as [Hnoref Hprops].
  rewrite Hid, Hp. split; [done|]. intros Hobj. apply Hprops.
  destruct (o_kind o), (o_kind o'); done.
Qed.

Lemma Inert_ret {A} (a : A) : Inert (mret a).
Proof. intros st. exists a, st. split; [done|apply inert_refl]. Qed.

Lemma Inert_bind {A B} (m : M A) (f : A → M B) :
  Inert m → (∀ a, Inert (f a)) → Inert (m ≫= f).
Proof.
  intros Hm Hf st. destruct (Hm st) as (a & st1 & Hrun & Hin).
  destruct (Hf a st1) as (b & st2 & Hrun' & Hin').
  exists b, st2. rewrite bind_run, Hrun. split; [done|]. by eapply inert_trans.
Qed.

Lemma Inert_get {A} (k : State → M A) : (∀ s, Inert (k s)) → Inert (get_state ≫= k).
Proof. intros Hk st. destruct (Hk st st) as (a & st' & ? & ?). by exists a, st'. Qed.

Lemma Inert_modify (f : State → State) : (∀ st, inert st (f st)) → Inert (modify f).
Proof. intros Hf st. by exists tt, (f st). Qed.

Lemma inert_same_heap st st' :
  heap st' = heap st → hostClassRegistry st' = hostClassRegistry st → inert st st'.
Proof.
  intros Hh Hc. split; [done|]. intros l. rewrite Hh.
  destruct (heap st !! l); [apply untouched_refl|done].
Qed.

Lemma inert_alter st h (f : Obj → Obj) l :
  hostClassRegistry h = hostClassRegistry st →
  (∀ o, heap st !! l = Some o → untouched o (f o)) →
  inert st (set_heap (alter f l (heap st)) h).
Proof.
  intros Hc Hf. split; [by destruct h|]. intros l'. cbn. rewrite lookup_alter.
  case_decide as Hl; [subst l'|].
  - destruct (heap st !! l) as [o|] eqn:Ho; cbn; [by apply Hf|done].
  - destruct (heap st !! l'); [apply untouched_refl|done].
Qed.

Lemma Inert_sym_set obj v : Inert (sym_set obj hostObjectId v).
Proof.
  destruct obj; try apply Inert_ret. apply Inert_modify. intros st.
  apply inert_alter; [done|]. intros o _. repeat split. apply same_kind_refl.
Qed.

Lemma Inert_generateId : Inert SuperRPC.generateId.
Proof.
  unfold SuperRPC.generateId. apply Inert_get. intros s. apply Inert_bind; [|intros; apply Inert_ret].
  apply Inert_modify. intros st. by apply inert_same_heap.
Qed.

Lemma Inert_registerLocalFunc obj d : Inert (SuperRPC.registerLocalFunc obj d).
Proof.
  unfold SuperRPC.registerLocalFunc. apply Inert_get. intros s.
  destruct (map_get _ _); [destruct (key_of _)|]; try apply Inert_ret.
  all: apply Inert_bind; [apply Inert_generateId|]; intros objId.
  all: apply Inert_bind; [apply Inert_modify; intros st; by apply inert_same_heap|]; intros _.
  all: apply Inert_bind; [apply Inert_sym_set|]; intros _; apply Inert_ret.
Qed.

Lemma Inert_registerLocalObj obj d : Inert (SuperRPC.registerLocalObj obj d).
Proof.
  unfold SuperRPC.registerLocalObj. apply Inert_get. intros s.
  destruct (map_get _ _); [destruct (key_of _)|]; try apply Inert_ret.
  all: apply Inert_bind; [apply Inert_generateId|]; intros objId.
  all: apply Inert_bind; [apply Inert_modify; intros st; by apply inert_same_heap|]; intros _.
  all: apply Inert_bind; [apply Inert_sym_set|]; intros _; apply Inert_ret.
Qed.

Lemma Inert_promise_then p r : Inert (promise_then p r).
Proof.
  intros st. unfold promise_then, enqueue, update_obj. run.
  destruct (kind_of st p) as [[|s rs|]|] eqn:Hk;
    try (eexists _, _; split; [reflexivity|apply inert_refl]).
  assert (Hupd : ∀ rs', inert st (set_heap (alter (set_kind (KPromise s rs')) p (heap st)) st)).
  { intros rs'. apply inert_alter; [done|]. intros o Ho. unfold kind_of in Hk.
    rewrite Ho in Hk. cbn in Hk. injection Hk as Hk. repeat split. cbn. by rewrite Hk. }
  destruct s; run; eexists _, _; (split; [reflexivity|]); try apply Hupd.
  all: by apply inert_same_heap.
Qed.

Lemma alloc_literal ρ st fields :
  no_reference fields →
  ranked ρ st →
  let w := fresh (dom (heap st)) in
  let ρ' := λ x, if decide (x = w) then 0 else ρ x in
  let st' := set_heap (<[w := new_obj KObject fields]> (heap st)) st in
  SuperRPC.literal fields st = Ret (VRef w) st' ∧ grows ρ st ρ' st' ∧ ranked ρ' st'.
Proof.
  intros Hfields Hr w ρ' st'. split; [reflexivity|].
  assert (Hw : heap st !! w = None) by apply fresh_loc_None.
  split; [split; [done|]; split; [|split]|].
  - intros l [o Hl]. unfold ρ'. rewrite decide_False; [done|]. intros ->. congruence.
  - intros l. unfold ρ'. case_decide; lia.
  - intros l o Hl. exists o. split; [|apply same_shape_refl].
    cbn. rewrite lookup_insert_ne; [done|]. intros <-. congruence.
  - intros l o. cbn. rewrite lookup_insert. case_decide as Hl.
    + intros [= <-]. split; [done|]. intros _ _ k c Hin. by apply Hfields in Hin.
    + intros Ho. destruct (Hr l o Ho) as [Hnoref Hprops]. split; [done|].
      intros Hk Hp k c Hin. specialize (Hprops Hk Hp k c Hin).
      unfold ρ'. rewrite (decide_False (P := l = w)) by done. case_decide; lia.
Qed.

Lemma assoc_elem key ps x : assoc key ps = Some x → (key, x) ∈ ps.
Proof.
  induction ps as [|[k w] ps IH]; cbn; [done|].
  case_decide; [intros [= <-]; subst; left|intros; right; auto].
Qed.

Lemma keys_assoc key ps : key ∈ ps.*1 → ∃ x, assoc key ps = Some x.
Proof.
  induction ps as [|[k w] ps IH]; cbn; [by intros ?%elem_of_nil|].
  intros Hin. case_decide; [by eexists|].
  apply elem_of_cons in Hin as [?|?]; [done|auto].
Qed.

Lemma assoc_set_elem name v ps ps' :
  assoc_set name v ps = Some ps' → ∀ k y, (k, y) ∈ ps' → (k, y) ∈ ps ∨ y = v.
Proof.
  revert ps'. induction ps as [|[k w] ps IH]; intros ps'; cbn; [done|].
  case_decide.
  - intros [= <-] k' y Hin. apply elem_of_cons in Hin as [Heq|Hin].
    + right. congruence.
    + left. by right.
  - destruct (assoc_set name v ps) as [ps0|]; [|done]. cbn. intros [= <-] k' y Hin.
    apply elem_of_cons in Hin as [Heq|Hin].
    + left. rewrite Heq. left.
    + destruct (IH ps0 eq_refl k' y Hin); [left; by right|by right].
Qed.

Lemma assoc_set_is_Some name v ps x :
  assoc name ps = Some x → is_Some (assoc_set name v ps).
Proof.
  induction ps as [|[k w] ps IH]; cbn; [done|].
  case_decide; [by eexists|]. intros Hx. destruct (IH Hx) as [ps' ->]. by eexists.
Qed.

(** Assigning to an own property of a walked object keeps the shape, and
    the ranks when the new value does not rank above the old one. *)
Lemma js_set_existing ρ st l o key x v :
  ranked ρ st →
  heap st !! l = Some o →
  assoc key (o_props o) = Some x →
  (∀ c, v = VRef c → ρ c < ρ l) →
  let st' := set_heap (alter (assign key v) l (heap st)) st in
  js_set (VRef l) key v st = Ret tt st'
  ∧ grows ρ st ρ st'
  ∧ ranked ρ st'
  ∧ ∃ o', heap st' !! l = Some o' ∧ same_shape o o'.
Proof.
  intros Hr Hl Hx Hv st'. split; [reflexivity|].
  destruct (assoc_set_is_Some key v _ _ Hx) as [ps' Hps].
  assert (Ho' : assign key v o = set_props ps' o) by (unfold assign; by rewrite Hps).
  destruct (assoc_set_Some _ _ _ _ Hps) as [_ Hkeys].
  assert (Hshape : same_shape o (assign key v o)).
  { rewrite Ho'. repeat split; [done|]. apply same_kind_refl. }
  assert (Hl' : heap st' !! l = Some (assign key v o))
    by (cbn; by rewrite lookup_alter, decide_True, Hl by done).
  split; [|split; [|eauto]].
  - repeat split; try done. intros l' o1 Hl1.
    destruct (decide (l' = l)) as [->|Hne].
    + exists (assign key v o). split; [done|]. congruence.
    + exists o1. split; [|apply same_shape_refl]. cbn. by rewrite lookup_alter_ne.
  - intros l' o1. destruct (decide (l' = l)) as [->|Hne].
    + rewrite Hl'. intros [= <-]. destruct (Hr l o Hl) as [Hnoref Hprops].
      rewrite Ho'. cbn. split; [done|]. intros Hk Hp k c Hin.
      destruct (assoc_set_elem _ _ _ _ Hps k (VRef c) Hin) as [Hold|Heq].
      * by eapply Hprops.
      * by apply Hv.
    + cbn. rewrite lookup_alter_ne by done. apply Hr.
Qed.

Section loop.
Variables (fuel : nat) (ch : RPCChannel).
Hypothesis IH : ∀ v d st ρ,
  hostClassRegistry st = ∅ → ranked ρ st → rank ρ v < fuel →
  ∃ v' st' ρ',
    SuperRPC.processBeforeSerialization fuel v ch d st = Ret v' st'
    ∧ grows ρ st ρ' st' ∧ ranked ρ' st' ∧ rank ρ' v' ≤ rank ρ v.

Lemma serialize_loop l ks :
  ∀ st ρ o,
    hostClassRegistry st = ∅ → ranked ρ st →
    heap st !! l = Some o → o_kind o = KObject → truthy (o_proxyObjectId o) = false →
    ks ⊆ keys o → ρ l < fuel →
    ∃ st' ρ',
      for_each (λ key, st ← get_state;
                       v ← SuperRPC.processBeforeSerialization fuel (js_get st (VRef l) key)
                             ch None;
                       js_set (VRef l) key v) ks st = Ret tt st'
      ∧ grows ρ st ρ' st' ∧ ranked ρ' st'.
Proof.
  induction ks as [|key ks IHks]; intros st ρ o Hcls Hr Hl Hk Hp Hks Hfuel.
  { exists st, ρ. split; [done|]. split; [apply grows_refl|done]. }
  cbn [for_each]. run.
  destruct (keys_assoc key (o_props o)) as [x Hx]; [apply Hks; left|].
  rewrite (js_get_own st l o key x Hl Hx).
  destruct (IH x None st ρ Hcls Hr) as (x' & st1 & ρ1 & Hrun & Hg1 & Hr1 & Hx').
  { destruct x as [| | | | | |c]; cbn; try lia.
    destruct (Hr l o Hl) as [_ Hprops].
    specialize (Hprops Hk Hp key c (assoc_elem _ _ _ Hx)). lia. }
  rewrite Hrun. run.
  destruct Hg1 as (Hc1 & Hrank1 & Hle1 & Hshape1).
  destruct (Hshape1 l o Hl) as (o1 & Hl1 & Hkeys1 & Hid1 & Hkind1).
  destruct (keys_assoc key (o_props o1)) as [x1 Hx1].
  { unfold keys in Hkeys1. rewrite Hkeys1. apply Hks. left. }
  assert (Hk1 : o_kind o1 = KObject) by (rewrite Hk in Hkind1; by destruct (o_kind o1)).
  destruct (js_set_existing ρ1 st1 l o1 key x1 x' Hr1 Hl1 Hx1)
    as (Hset & Hg2 & Hr2 & o2 & Hl2 & Hkeys2 & Hid2 & Hkind2).
  { (* the new value ranks below [l], as the value read before did *)
    intros c' ->. cbn in Hx'.
    destruct x as [| | | | | |c]; cbn in Hx'; try lia.
    destruct (Hr l o Hl) as [_ Hprops].
    specialize (Hprops Hk Hp key c (assoc_elem _ _ _ Hx)).
    rewrite (Hrank1 l) by eauto. lia. }
  rewrite Hset.
  destruct (IHks (set_heap (alter (assign key x') l (heap st1)) st1) ρ1 o2)
    as (st' & ρ' & Hloop & Hg3 & Hr3); try done.
  - destruct Hg2 as (Hc2 & _). rewrite Hc2. congruence.
  - rewrite Hk1 in Hkind2. by destruct (o_kind o2).
  - congruence.
  - rewrite Hkeys2, Hkeys1. intros k Hin. apply Hks. by right.
  - rewrite (Hrank1 l) by eauto. done.
  - exists st', ρ'. split; [done|]. split; [|done].
    eapply grows_trans; [|exact Hg3]. eapply grows_trans; [|exact Hg2].
    by repeat split.
Qed.
End loop.

Lemma map_get_empty {A} k : map_get (∅ : gmap string A) k = None.
Proof. unfold map_get. by destruct (key_of k). Qed.

(** With enough fuel for the rank of the value, serialization returns. *)
Lemma serialize_total ch fuel :
  ∀ v d st ρ,
    hostClassRegistry st = ∅ → ranked ρ st → rank ρ v < fuel →
    ∃ v' st' ρ',
      SuperRPC.processBeforeSerialization fuel v ch d st = Ret v' st'
      ∧ grows ρ st ρ' st' ∧ ranked ρ' st' ∧ rank ρ' v' ≤ rank ρ v.
Proof.
  induction fuel as [|fuel IH]; intros v d st ρ Hcls Hr Hlt; [lia|].
  cbn [SuperRPC.processBeforeSerialization]. run.
  destruct (truthy (sym_get st v proxyObjectId)) eqn:Hp.
  { (* a proxy: the wire object holds its id *)
    destruct v as [| | | | | |l]; try done. unfold sym_get in Hp |- *.
    destruct (heap st !! l) as [o|] eqn:Hl; [|done]. cbn [from_option get_sym] in Hp |- *.
    destruct (alloc_literal ρ st [("_rpc_type", VStr "hostObject"); ("objId", o_proxyObjectId o)])
      as (Hrun & Hg & Hr'); [|done|].
    { intros k c Hin. destruct (Hr l o Hl) as [Hnoref _].
      rewrite !elem_of_cons, elem_of_nil in Hin.
      destruct Hin as [Heq|[Heq|[]]]; simplify_eq. by eapply Hnoref. }
    rewrite Hrun. eexists _, _, _. split; [done|]. split; [done|]. split; [done|].
    cbn. rewrite decide_True by done. lia. }
  destruct v as [| |b|n|s|name message|l].
  1-6: eexists _, st, ρ; (split; [reflexivity|]);
    (split; [apply grows_refl|]); (split; [done|]); cbn; lia.
  destruct (heap st !! l) as [o|] eqn:Hl.
  2: { eexists _, st, ρ. split; [reflexivity|]. split; [apply grows_refl|]. split; [done|lia]. }
  assert (Hwire : ∀ st1 fields,
    inert st st1 → no_reference fields →
    ∃ v' st' ρ',
      SuperRPC.literal fields st1 = Ret v' st'
      ∧ grows ρ st ρ' st' ∧ ranked ρ' st' ∧ rank ρ' v' ≤ rank ρ (VRef l)).
  { intros st1 fields Hin Hfields.
    destruct (alloc_literal ρ st1 fields Hfields (inert_ranked _ _ _ Hin Hr))
      as (Hrun & Hg & Hr').
    eexists _, _, _. split; [exact Hrun|]. split; [|split; [done|]].
    - eapply grows_trans; [by apply inert_grows|done].
    - cbn. rewrite decide_True by done. lia. }
  destruct (o_kind o) eqn:Hk; cbn beta iota.
  - (* a plain object: no class is registered *)
    rewrite Hcls, map_get_empty. cbn beta iota.
    destruct (serialize_loop fuel ch (λ v d st ρ, IH v d st ρ) l (keys o) st ρ o)
      as (st' & ρ' & Hloop & Hg & Hr'); try done.
    { unfold sym_get in Hp. by rewrite Hl in Hp. }
    { cbn in Hlt. lia. }
    unfold get_state in Hloop. rewrite bind_run, Hloop. run. exists (VRef l), st', ρ'.
    split; [done|]. split; [done|]. split; [done|].
    destruct Hg as (_ & Hrank & _). cbn. rewrite Hrank by eauto. lia.
  - (* a promise *)
    destruct (Inert_registerLocalObj (VRef l) empty_descriptor st) as (objId & st1 & Hreg & Hin1).
    rewrite bind_run, Hreg. run.
    assert (Hthen : ∃ st2,
      (if negb (map_has (hostObjectRegistry st) (sym_get st (VRef l) hostObjectId))
       then promise_then l (ReplySettlement objId ch) else mret tt) st1 = Ret tt st2
      ∧ inert st1 st2).
    { destruct (negb _).
      - destruct (Inert_promise_then l (ReplySettlement objId ch) st1) as ([] & st2 & ? & ?).
        eauto.
      - exists st1. split; [done|apply inert_refl]. }
    destruct Hthen as (st2 & -> & Hin2). run.
    apply Hwire; [by eapply inert_trans|].
    intros k c Hin. rewrite !elem_of_cons, elem_of_nil in Hin.
    repeat (destruct Hin as [Hin|Hin]); by simplify_eq.
  - (* a function *)
    destruct (Inert_registerLocalFunc (VRef l) d st) as (objId & st1 & Hreg & Hin1).
    rewrite bind_run, Hreg. run.
    apply Hwire; [done|].
    intros k c' Hin. rewrite !elem_of_cons, elem_of_nil in Hin.
    repeat (destruct Hin as [Hin|Hin]); by simplify_eq.
Qed.

Lemma assoc_set_same name x ps : assoc name ps = Some x → assoc_set name x ps = Some ps.
Proof.
  induction ps as [|[k w] ps IH]; cbn; [done|].
  case_decide; [by intros [= ->]|]. intros Hx. by rewrite (IH Hx).
Qed.

Lemma assign_same name x o : assoc name (o_props o) = Some x → assign name x o = o.
Proof. intros Hx. unfold assign. rewrite (assoc_set_same _ _ _ Hx). by destruct o. Qed.

Lemma js_set_same st l o key x :
  heap st !! l = Some o → assoc key (o_props o) = Some x →
  js_set (VRef l) key x st = Ret tt st.
Proof.
  intros Hl Hx. unfold js_set, update_obj. run. f_equal.
  assert (Hh : alter (assign key x) l (heap st) = heap st).
  { apply map_eq. intros l'. rewrite lookup_alter. case_decide; [subst|done].
    rewrite Hl. cbn. by rewrite (assign_same _ _ _ Hx). }
  rewrite Hh. by destruct st.
Qed.

(** Deserializing such data returns the value itself and leaves the state
    as it is: every property is assigned the value it already holds. *)
Lemma deserialize_plain_data ch ρ st fuel :
  plain_data ρ st →
  ∀ v d, rank ρ v < fuel →
         SuperRPC.processAfterDeserialization fuel v ch d st = Ret v st.
Proof.
  intros Hdata. induction fuel as [|fuel IH]; intros v d Hlt; [lia|].
  destruct v as [| |b|n|s|name message|l]; try reflexivity.
  destruct (heap st !! l) as [o|] eqn:Hl.
  2: { cbn [SuperRPC.processAfterDeserialization]. run. by rewrite Hl. }
  destruct (is_function st (VRef l)) eqn:Hf.
  { cbn [SuperRPC.processAfterDeserialization]. run. by rewrite Hl, Hf. }
  destruct (Hdata l o Hl) as [Huntagged Hprops]. specialize (Huntagged Hf).
  rewrite (deserialize_untagged_unfold _ _ _ _ _ _ Huntagged), bind_run.
  assert (Hloop : ∀ ks, ks ⊆ keys o →
    for_each (λ key, st ← get_state;
                     v ← SuperRPC.processAfterDeserialization fuel (js_get st (VRef l) key) ch
                           (getPropertyDescriptor d (VStr key));
                     js_set (VRef l) key v) ks st = Ret tt st).
  { induction ks as [|key ks IHks]; intros Hks; [done|].
    cbn [for_each]. run.
    destruct (keys_assoc key (o_props o)) as [x Hx]; [apply Hks; left|].
    rewrite (js_get_own st l o key x Hl Hx), IH.
    - run. rewrite (js_set_same st l o key x Hl Hx). apply IHks.
      intros k Hin. apply Hks. by right.
    - cbn in Hlt. destruct x as [| | | | | |c]; cbn; try lia.
      specialize (Hprops key c (assoc_elem _ _ _ Hx)). lia. }
  by rewrite Hloop.
Qed.


End in_place.


(** * Further properties *)

(** ** Values that are not references *)

Lemma set_sent_nil st : set_sent (sent st ++ []) st = st.
Proof. destruct st; cbn. by rewrite app_nil_r. Qed.

Section primitives.
Context `{!Env}.

Lemma serialize_not_ref fuel v ch d st :
  is_ref v = false → SuperRPC.processBeforeSerialization (S fuel) v ch d st = Ret v st.
Proof. by destruct v. Qed.

Lemma deserialize_not_ref fuel v ch d st :
  is_ref v = false → SuperRPC.processAfterDeserialization (S fuel) v ch d st = Ret v st.
Proof. by destruct v. Qed.

Lemma map_indexed_id {A} (f : A → nat → M A) args st :
  ∀ idx, Forall (λ a, ∀ i, f a i st = Ret a st) args →
  map_indexed f idx args st = Ret args st.
Proof.
  induction args as [|a args IH]; intros idx Hall; [done|].
  apply Forall_cons in Hall as [Ha Hall]. cbn [map_indexed]. run.
  rewrite Ha. run. rewrite IH by done. by run.
Qed.

End primitives.

(** ** Incoming calls *)

Section incoming.
Context `{!Env}.

Lemma Error_string message :
  message ≠ "" →
  toString_opt ref_toString (Error message) = VStr ("Error: " +:+ message).
Proof. intros Hm. unfold toString_opt, Error. cbn. by rewrite decide_False. Qed.

(** X1. A call whose object id is not in the registry of its action (the
    function registry for [fn_call] and [ctor_call], the object registry for
    the other actions) runs nothing.  A sync or an async caller gets a failed
    reply whose result is the string "Error: No object found with ID '<id>'",
    over the transport of its call type if the reply channel has it; a void
    caller gets nothing. *)
Theorem call_to_unknown_id fuel action callType objId prop args callId ch st :
  targetEntry st action objId = None →
  SuperRPC.callTargetFunction fuel action callType objId prop args callId ch st
  = Ret tt (set_sent
              (sent st ++ error_reply_sent callType
                 ("Error: No object found with ID '" +:+ js_String ref_toString objId +:+ "'")
                 callId ch) st).
Proof.
  intros Hentry. eapply callTargetFunction_throws.
  - rewrite Hentry. reflexivity.
  - by apply Error_string.
Qed.

Lemma handed_run t ch b st :
  (if transport_available t ch
   then SuperRPC.emit t ch (mkMessage true b) else mret tt) st
  = Ret tt (set_sent (sent st ++ handed t ch b) st).
Proof.
  unfold handed, SuperRPC.emit. destruct (transport_available t ch); run; [done|].
  by rewrite set_sent_nil.
Qed.

Lemma sendSync_run b ch st :
  SuperRPC.sendSync (SuperRPC.msg b) ch st
  = let st' := set_sent (sent st ++ handed ViaSync ch b) st in
    Ret (if has_sendSync ch then channel_sendSync ch (mkMessage true b) st' else None) st'.
Proof.
  unfold SuperRPC.sendSync, SuperRPC.emit, handed. cbn.
  destruct (has_sendSync ch); run; [done|]. by rewrite set_sent_nil.
Qed.

Lemma sendAsync_run b ch st :
  SuperRPC.sendAsync (SuperRPC.msg b) ch st
  = Ret tt (set_sent (sent st ++ handed ViaAsync ch b) st).
Proof.
  unfold SuperRPC.sendAsync, SuperRPC.emit, handed. cbn.
  destruct (has_sendAsync ch); run; [done|]. by rewrite set_sent_nil.
Qed.

(** The reply of a call whose body returned [result] or threw. *)
Lemma callTargetFunction_returns fuel action callType objId prop args callId ch st result st1 :
  SuperRPC.callTargetBody fuel (targetEntry st action objId) action callType objId prop args
    callId ch st = Ret result st1 →
  SuperRPC.callTargetFunction fuel action callType objId prop args callId ch st
  = Ret tt (set_sent
              (sent st1 ++ match callType with
                           | Sync => handed ViaSync ch (success_reply Sync result callId)
                           | _ => []
                           end) st1).
Proof.
  intros Hbody. unfold SuperRPC.callTargetFunction. run.
  fold (targetEntry st action objId). rewrite Hbody. run.
  destruct callType; cbn [negb]; run.
  - rewrite sendSync_run. by run.
  - by rewrite set_sent_nil.
  - by rewrite set_sent_nil.
Qed.

Lemma Promise_resolve_then_returns v r st : ∃ st', Promise_resolve_then v r st = Ret tt st'.
Proof.
  unfold Promise_resolve_then, promise_then, enqueue, update_obj. run.
  destruct v as [| | | | | |l]; run; eauto.
  destruct (is_promise st (VRef l)); run; eauto.
  destruct (kind_of st l) as [[|[]|]|]; run; eauto.
Qed.


(** The tail of [callTargetFunction] after the target returned or threw. *)
Lemma call_outcome fuel action objId prop args callId ch st (called : Res value) :
  (∀ callType,
     SuperRPC.callTargetBody fuel (targetEntry st action objId) action callType objId prop args
       callId ch st
     = match called with
       | Ret v st1 =>
           match callType with
           | Async => (Promise_resolve_then v (ReplyCall callId ch);; mret v) st1
           | Sync => SuperRPC.processBeforeSerialization fuel v ch None st1
           | Void => Ret v st1
           end
       | Exn e st1 => Exn e st1
       | Halt w => Halt w
       end) →
  SuperRPC.callTargetFunction fuel action Void objId prop args callId ch st
    = match called with
      | Ret _ st' | Exn _ st' => Ret tt st'
      | Halt w => Halt w
      end
  ∧ (∀ v st1 w st2,
       called = Ret v st1 →
       SuperRPC.processBeforeSerialization fuel v ch None st1 = Ret w st2 →
       SuperRPC.callTargetFunction fuel action Sync objId prop args callId ch st
       = Ret tt (set_sent (sent st2 ++ handed ViaSync ch (success_reply Sync w callId)) st2))
  ∧ (∀ v st1,
       called = Ret v st1 →
       SuperRPC.callTargetFunction fuel action Async objId prop args callId ch st
       = Promise_resolve_then v (ReplyCall callId ch) st1).
Proof.
  intros Hbody. split; [|split].
  - unfold SuperRPC.callTargetFunction. run. fold (targetEntry st action objId).
    rewrite Hbody. by destruct called; run.
  - intros v st1 w st2 Hcalled Hw.
    apply (callTargetFunction_returns fuel action Sync objId prop args callId ch st w st2).
    by rewrite Hbody, Hcalled.
  - intros v st1 Hcalled.
    unfold SuperRPC.callTargetFunction. run. fold (targetEntry st action objId).
    rewrite Hbody, Hcalled. run.
    destruct (Promise_resolve_then_returns v (ReplyCall callId ch) st1) as [st' Hthen].
    rewrite Hthen. by run.
Qed.

(** X3. A [fn_call] on a registered host function applies the target to
    the deserialized arguments with [this] being [null].  A void call never
    replies and swallows what the target throws; a sync call replies with the
    serialized result; an async call defers its reply to a promise job on the
    result. *)
Theorem fn_call_applies_target fuel objId prop args callId ch st entry :
  map_get (hostFunctionRegistry st) objId = Some entry →
  let called :=
    (args' ← SuperRPC.deserializeFunctionArgs fuel (entry_descriptor entry) args ch;
     SuperRPC.apply fuel (entry_target entry) VNull args') st in
  SuperRPC.callTargetFunction fuel fn_call Void objId prop args callId ch st
    = match called with
      | Ret _ st' | Exn _ st' => Ret tt st'
      | Halt w => Halt w
      end
  ∧ (∀ v st1 w st2,
       called = Ret v st1 →
       SuperRPC.processBeforeSerialization fuel v ch None st1 = Ret w st2 →
       SuperRPC.callTargetFunction fuel fn_call Sync objId prop args callId ch st
       = Ret tt (set_sent (sent st2 ++ handed ViaSync ch (success_reply Sync w callId)) st2))
  ∧ (∀ v st1,
       called = Ret v st1 →
       SuperRPC.callTargetFunction fuel fn_call Async objId prop args callId ch st
       = Promise_resolve_then v (ReplyCall callId ch) st1).
Proof.
  intros Hentry called. apply call_outcome.
  intros callType. unfold targetEntry. rewrite bool_decide_eq_true_2 by done. cbn [orb].
  rewrite Hentry. unfold SuperRPC.callTargetBody. run.
  subst called. rewrite (bind_run (SuperRPC.deserializeFunctionArgs _ _ _ _)).
  destruct (SuperRPC.deserializeFunctionArgs _ _ _ _ _) as [args' st1| |]; [|done..].
  destruct (SuperRPC.apply _ _ _ _ _); [|done..]. by destruct callType.
Qed.

(** X4. A [method_call] for a property that has a function descriptor or a
    truthy value on the target: when [target[prop]] is not a function every
    caller that expects a reply gets the error "Error: Property <prop> is not
    a function on object <id>" and nothing runs; when it is a function, it is
    applied to the deserialized arguments with [this] being the target, and
    the reply follows the call type as for a function call. *)
Theorem method_call_on_target fuel objId prop args callId ch st entry :
  map_get (hostObjectRegistry st) objId = Some entry →
  let target := entry_target entry in
  let name := js_String ref_toString prop in
  let descriptor := getFunctionDescriptor (entry_descriptor entry) prop in
  let method := js_get st target name in
  is_Some descriptor ∨ truthy method = true →
  (is_function st method = false →
   ∀ callType,
     SuperRPC.callTargetFunction fuel method_call callType objId prop args callId ch st
     = Ret tt (set_sent
                 (sent st ++ error_reply_sent callType
                    ("Error: Property " +:+ name +:+ " is not a function on object "
                     +:+ js_String ref_toString objId) callId ch) st))
  ∧ (is_function st method = true →
     let called :=
       (args' ← SuperRPC.deserializeFunctionArgs fuel descriptor args ch;
        SuperRPC.apply fuel method target args') st in
     SuperRPC.callTargetFunction fuel method_call Void objId prop args callId ch st
       = match called with
         | Ret _ st' | Exn _ st' => Ret tt st'
         | Halt w => Halt w
         end
     ∧ (∀ v st1 w st2,
          called = Ret v st1 →
          SuperRPC.processBeforeSerialization fuel v ch None st1 = Ret w st2 →
          SuperRPC.callTargetFunction fuel method_call Sync objId prop args callId ch st
          = Ret tt (set_sent (sent st2 ++ handed ViaSync ch (success_reply Sync w callId)) st2))
     ∧ (∀ v st1,
          called = Ret v st1 →
          SuperRPC.callTargetFunction fuel method_call Async objId prop args callId ch st
          = Promise_resolve_then v (ReplyCall callId ch) st1)).
Proof.
  intros Hentry target name descriptor method Hknown.
  assert (Hguard :
    negb (bool_decide (is_Some descriptor)) && negb (truthy method) = false).
  { destruct Hknown as [Hd|Hm].
    - by rewrite bool_decide_eq_true_2.
    - rewrite Hm. by rewrite andb_false_r. }
  split.
  - intros Hfn callType. eapply callTargetFunction_throws; [|by apply Error_string].
    unfold targetEntry. rewrite !bool_decide_eq_false_2 by done. cbn [orb].
    rewrite Hentry. unfold SuperRPC.callTargetBody. run.
    fold target name descriptor method. rewrite Hguard. run.
    unfold SuperRPC.typeof_function. rewrite Hfn. reflexivity.
  - intros Hfn called. apply call_outcome.
    intros callType. unfold targetEntry. rewrite !bool_decide_eq_false_2 by done. cbn [orb].
    rewrite Hentry. unfold SuperRPC.callTargetBody. run.
    fold target name descriptor method. rewrite Hguard. run.
    unfold SuperRPC.typeof_function. rewrite Hfn. cbn [negb]. run.
    subst called. rewrite (bind_run (SuperRPC.deserializeFunctionArgs _ _ _ _)).
    destruct (SuperRPC.deserializeFunctionArgs _ _ _ _ _) as [args' st1| |]; [|done..].
    destruct (SuperRPC.apply _ _ _ _ _); [|done..]. by destruct callType.
Qed.

End incoming.

(** ** Calls through a proxy function *)

Section proxy_calls.
Context `{!Env}.

Lemma sendAsyncIfPossible_run b ch st :
  ∃ r, SuperRPC.sendAsyncIfPossible (SuperRPC.msg b) ch st
       = Ret r (set_sent (sent st ++ handed_either ViaAsync ch b) st).
Proof.
  unfold SuperRPC.sendAsyncIfPossible, handed_either. cbn [transport_available].
  destruct (has_sendAsync ch) eqn:Hasync; run.
  - rewrite sendAsync_run. run. eauto.
  - rewrite sendSync_run. cbn zeta. eauto.
Qed.

Lemma sendSyncIfPossible_run b ch st :
  ∃ r, SuperRPC.sendSyncIfPossible (SuperRPC.msg b) ch st
       = Ret r (set_sent (sent st ++ handed_either ViaSync ch b) st).
Proof.
  unfold SuperRPC.sendSyncIfPossible, handed_either. cbn [transport_available].
  destruct (has_sendSync ch) eqn:Hsync; run.
  - rewrite sendSync_run. cbn zeta. eauto.
  - rewrite sendAsync_run. run. eauto.
Qed.

(** X5. A sync proxy function that is not disposed sends one request with
    the serialized arguments over the sync transport.  It throws "No response
    received" when the channel has no answer (or no sync transport), throws
    "Invalid response ..." when the answer does not carry the marker, and
    returns the deserialized result of a marked success reply. *)
Theorem sync_call_outcomes fuel fn objId func action ch this args st id st0 args' st1 :
  truthy (sym_get st (VRef fn) rpc_disposed) = false →
  SuperRPC.receiverId objId this st = Ret id st0 →
  SuperRPC.serializeFunctionArgs fuel (Some func) args ch st0 = Ret args' st1 →
  let request := call action Sync id (from_option VStr VUndef (d_name func)) args' VUndef in
  let st2 := set_sent (sent st1 ++ handed ViaSync ch request) st1 in
  let answer :=
    if has_sendSync ch then channel_sendSync ch (mkMessage true request) st2 else None in
  let outcome := SuperRPC.syncProxyFunction fuel fn objId func action ch this args st in
  (answer = None → outcome = Exn (Error "No response received") st2)
  ∧ (∀ response, answer = Some response → rpc_marker response = false →
       outcome = Exn (Error ("Invalid response " +:+ JSON_stringify response)) st2)
  ∧ (∀ callType result callId,
       answer = Some (mkMessage true (fn_reply callType true result callId)) →
       outcome = SuperRPC.processAfterDeserialization fuel result ch None st2).
Proof.
  intros Hd Hid Hargs request st2 answer run0.
  assert (Hrun : run0
    = match answer with
      | None => Exn (Error "No response received") st2
      | Some response =>
          if negb (SuperRPC.checkMarker response) then
            Exn (Error ("Invalid response " +:+ JSON_stringify response)) st2
          else
            match body response with
            | fn_reply _ success result _ =>
                if negb success then Exn (Error_of ref_toString result) st2
                else SuperRPC.processAfterDeserialization fuel result ch None st2
            | _ => Exn (Error_of ref_toString VUndef) st2
            end
      end).
  { subst run0. unfold SuperRPC.syncProxyFunction. run. rewrite Hd. run. rewrite Hid. run.
    rewrite Hargs. run. rewrite sendSync_run. cbn zeta. fold request st2 answer.
    destruct answer as [response|]; [|done].
    destruct (negb (SuperRPC.checkMarker response)); [done|].
    destruct (body response); try done. by destruct success. }
  rewrite Hrun. split; [by intros ->|]. split.
  - intros response -> Hmark. unfold SuperRPC.checkMarker. by rewrite Hmark.
  - by intros callType result callId ->.
Qed.

Lemma receiverId_state objId this st id st0 :
  SuperRPC.receiverId objId this st = Ret id st0 →
  st0 = st
  ∧ id = match objId with
         | Some k => VStr k
         | None => sym_get st this proxyObjectId
         end
  ∧ (objId = None → nullish this = false).
Proof.
  unfold SuperRPC.receiverId. run. destruct objId as [k|]; run.
  - by intros [= <- <-].
  - destruct (nullish this); run; [done|]. by intros [= <- <-].
Qed.

Lemma voidProxyFunction_run fuel fn objId func action ch this args st id st0 args' st1 :
  truthy (sym_get st (VRef fn) rpc_disposed) = false →
  SuperRPC.receiverId objId this st = Ret id st0 →
  SuperRPC.serializeFunctionArgs fuel (Some func) args ch st0 = Ret args' st1 →
  let request := call action Void id (from_option VStr VUndef (d_name func)) args' VUndef in
  SuperRPC.voidProxyFunction fuel fn objId func action ch this args st
  = Ret VUndef (set_sent (sent st1 ++ handed_either ViaAsync ch request) st1).
Proof.
  intros Hd Hid Hargs request.
  unfold SuperRPC.voidProxyFunction. run. rewrite Hd. run. rewrite Hid. run.
  rewrite Hargs. run. fold request.
  destruct (sendAsyncIfPossible_run request ch st1) as [r ->]. by run.
Qed.

Lemma asyncProxyFunction_run fuel fn objId func action ch this args st id st0 args' st1 :
  truthy (sym_get st (VRef fn) rpc_disposed) = false →
  let p := fresh (dom (heap st)) in
  let started :=
    set_callId (S (callId st))
      (set_heap (<[p := new_obj (KPromise Pending []) []]> (heap st)) st) in
  SuperRPC.receiverId objId this started = Ret id st0 →
  SuperRPC.serializeFunctionArgs fuel (Some func) args ch st0 = Ret args' st1 →
  let request :=
    call action Async id (from_option VStr VUndef (d_name func)) args'
         (VStr (pretty (S (callId st)))) in
  SuperRPC.asyncProxyFunction fuel fn objId func action ch this args st
  = Ret (VRef p)
        (set_asyncCallbacks (<[pretty (callId st1) := p]> (asyncCallbacks st1))
           (set_sent (sent st1 ++ handed ViaAsync ch request) st1)).
Proof.
  intros Hd p started Hid Hargs request.
  unfold SuperRPC.asyncProxyFunction, alloc. run. fold p.
  assert (Hd' : truthy (sym_get (set_heap (<[p := new_obj (KPromise Pending []) []]> (heap st)) st)
                                (VRef fn) rpc_disposed) = false).
  { unfold sym_get in *. cbn [heap set_heap].
    destruct (decide (fn = p)) as [->|Hne].
    - by rewrite lookup_insert_eq.
    - by rewrite lookup_insert_ne. }
  rewrite Hd'. run.
  change (SuperRPC.receiverId objId this _) with (SuperRPC.receiverId objId this started).
  rewrite Hid. run.
  apply receiverId_state in Hid as (-> & _ & _).
  rewrite Hargs. run. rewrite sendAsync_run. run. reflexivity.
Qed.

(** X6. A void or an async proxy function that is not disposed sends one
    request with the serialized arguments.  The void function prefers the
    async transport, falls back to the sync one, and returns undefined.  The
    async function returns a new pending promise, sends the request with the
    incremented call counter as call id over the async transport only, and
    stores the promise in [asyncCallbacks] under the counter as read after
    the arguments were serialized. *)
Theorem proxy_call_sends fuel fn objId func action ch this args st :
  truthy (sym_get st (VRef fn) rpc_disposed) = false →
  (∀ id st0 args' st1,
     SuperRPC.receiverId objId this st = Ret id st0 →
     SuperRPC.serializeFunctionArgs fuel (Some func) args ch st0 = Ret args' st1 →
     let request := call action Void id (from_option VStr VUndef (d_name func)) args' VUndef in
     SuperRPC.voidProxyFunction fuel fn objId func action ch this args st
     = Ret VUndef (set_sent (sent st1 ++ handed_either ViaAsync ch request) st1))
  ∧ (let p := fresh (dom (heap st)) in
     let started :=
       set_callId (S (callId st))
         (set_heap (<[p := new_obj (KPromise Pending []) []]> (heap st)) st) in
     ∀ id st0 args' st1,
       SuperRPC.receiverId objId this started = Ret id st0 →
       SuperRPC.serializeFunctionArgs fuel (Some func) args ch st0 = Ret args' st1 →
       let request :=
         call action Async id (from_option VStr VUndef (d_name func)) args'
              (VStr (pretty (S (callId st)))) in
       SuperRPC.asyncProxyFunction fuel fn objId func action ch this args st
       = Ret (VRef p)
             (set_asyncCallbacks (<[pretty (callId st1) := p]> (asyncCallbacks st1))
                (set_sent (sent st1 ++ handed ViaAsync ch request) st1))).
Proof.
  intros Hd. split.
  - intros id st0 args' st1 Hid Hargs. by eapply voidProxyFunction_run.
  - intros p started id st0 args' st1 Hid Hargs. by eapply asyncProxyFunction_run.
Qed.

End proxy_calls.

(** ** Replies to async calls *)

Section replies.
Context `{!Env}.

Lemma enqueue_all s rs st :
  for_each (λ r, enqueue r s) rs st
  = Ret tt (set_microtasks (microtasks st ++ ((λ r, (r, s)) <$> rs)) st).
Proof.
  revert st. induction rs as [|r rs IH]; intros st.
  - cbn. destruct st; cbn; by rewrite app_nil_r.
  - cbn [for_each]. run. unfold enqueue at 1. run. rewrite IH.
    destruct st; cbn. by rewrite <- app_assoc.
Qed.

Lemma settle_pending p s rs st :
  kind_of st p = Some (KPromise Pending rs) →
  let st' := set_microtasks (microtasks st ++ ((λ r, (r, s)) <$> rs))
               (set_heap (alter (set_kind (KPromise s [])) p (heap st)) st) in
  settle p s st = Ret tt st' ∧ kind_of st' p = Some (KPromise s []).
Proof.
  intros Hp. unfold settle. run. rewrite Hp. unfold update_obj. run.
  rewrite enqueue_all. split; [reflexivity|].
  unfold kind_of in *. cbn. rewrite lookup_alter, decide_True by done.
  by destruct (heap st !! p).
Qed.


End replies.

(** ** Exchanging descriptors *)

Section descriptors.
Context `{!Env}.

Lemma setRemoteDescriptors_run objects functions classes marker st :
  ∃ st',
    SuperRPC.setRemoteDescriptors (Some (mkMessage marker (descriptors objects functions classes))) st
      = Ret true st'
    ∧ remoteObjectDescriptors st' = updated objects (remoteObjectDescriptors st)
    ∧ remoteFunctionDescriptors st' = updated functions (remoteFunctionDescriptors st)
    ∧ remoteClassDescriptors st' = updated classes (remoteClassDescriptors st)
    ∧ remoteDescriptorsCallbacks st' = remoteDescriptorsCallbacks st
    ∧ heap st' = heap st ∧ sent st' = sent st ∧ microtasks st' = microtasks st.
Proof.
  unfold SuperRPC.setRemoteDescriptors. cbn [body].
  destruct objects, functions, classes; run; eexists; (split; [reflexivity|]); by cbn.
Qed.

Lemma getLocalDescriptors_lookup st entries processFn k :
  is_Some (SuperRPC.getLocalDescriptors st entries processFn !! k)
  ↔ ∃ entry, entries !! k = Some entry ∧ is_Some (entry_descriptor entry).
Proof.
  unfold SuperRPC.getLocalDescriptors. rewrite lookup_omap.
  destruct (entries !! k) as [entry|]; cbn.
  - destruct (entry_descriptor entry) as [d|] eqn:Hd; cbn.
    + split.
      * intros _. exists entry. rewrite Hd. by eauto.
      * intros _. destruct (d_type d) as [[]|], (d_readonlyProperties d); by eauto.
    + split; [by intros [? ?]|]. intros (? & [= <-] & [? Hd']). congruence.
  - split; [by intros [? ?]|]. by intros (? & ? & _).
Qed.

(** X8. [sendRemoteDescriptors] sends one [descriptors] message with the
    descriptors of the three host registries, preferring the sync transport
    and falling back to the async one; a [get_descriptors] message is
    answered by exactly that, on the reply channel.  Receiving a
    [descriptors] message replaces each of the three remote tables whose part
    is present and keeps the others, clears the pending callback (fulfilling
    its promise with undefined) and sends nothing.  The object part holds an
    id exactly when the id is registered with a descriptor. *)
Theorem descriptors_exchange fuel ch host :
  SuperRPC.sendRemoteDescriptors ch host
    = Ret tt (set_sent (sent host ++ handed_either ViaSync ch (local_descriptors host)) host)
  ∧ (∀ replyChannel context,
       SuperRPC.messageReceived fuel (mkMessage true get_descriptors) replyChannel context host
       = SuperRPC.sendRemoteDescriptors (default (channel host) replyChannel)
           (set_currentContext context host))
  ∧ (∀ objects functions classes replyChannel context client,
       ∃ client',
         SuperRPC.messageReceived fuel (mkMessage true (descriptors objects functions classes))
           replyChannel context client = Ret tt client'
         ∧ remoteObjectDescriptors client' = updated objects (remoteObjectDescriptors client)
         ∧ remoteFunctionDescriptors client'
           = updated functions (remoteFunctionDescriptors client)
         ∧ remoteClassDescriptors client' = updated classes (remoteClassDescriptors client)
         ∧ remoteDescriptorsCallbacks client' = None
         ∧ sent client' = sent client
         ∧ ∀ p rs, remoteDescriptorsCallbacks client = Some p →
                   kind_of client p = Some (KPromise Pending rs) →
                   kind_of client' p = Some (KPromise (Fulfilled VUndef) []))
  ∧ (∀ k,
       is_Some (SuperRPC.getLocalDescriptors host (hostObjectRegistry host)
                  (Some processObjectDescriptor) !! k)
       ↔ ∃ entry, hostObjectRegistry host !! k = Some entry
                  ∧ is_Some (entry_descriptor entry)).
Proof.
  split; [|split; [|split; [|intros k; apply getLocalDescriptors_lookup]]].
  - unfold SuperRPC.sendRemoteDescriptors. run. fold (local_descriptors host).
    destruct (sendSyncIfPossible_run (local_descriptors host) ch host) as [r ->]. by run.
  - reflexivity.
  - intros objects functions classes replyChannel context client.
    unfold SuperRPC.messageReceived. run. cbn [SuperRPC.checkMarker rpc_marker body].
    rewrite bind_run.
    destruct (setRemoteDescriptors_run objects functions classes true
                (set_currentContext context client))
      as (st1 & -> & Ho & Hf & Hc & Hcb & Hheap & Hsent & Hjobs).
    run. rewrite Hcb. cbn [remoteDescriptorsCallbacks set_currentContext].
    destruct (remoteDescriptorsCallbacks client) as [p|] eqn:Hp; run.
    + assert (Hsame : kind_of st1 p = kind_of client p) by (unfold kind_of; by rewrite Hheap).
      destruct (kind_of client p) as [[|[| | |] reactions|]|] eqn:Hkind.
      2:{ destruct (settle_pending p (Fulfilled VUndef) reactions st1 Hsame) as [Hsettle Hkind2].
          unfold promise_resolve. run. rewrite Hsame, Hsettle. run.
          eexists; split; [reflexivity|]. cbn.
          do 5 (split; [done|]). intros p' rs ? _. simplify_eq. exact Hkind2. }
      all: unfold promise_resolve; run; rewrite Hsame; run.
      all: eexists; (split; [reflexivity|]); cbn.
      all: do 5 (split; [done|]); intros p' rs ? ?; simplify_eq.
    + eexists; split; [reflexivity|]. cbn. by do 5 (split; [done|]).
Qed.

(** X9. [requestRemoteDescriptors] on a channel with a sync transport
    sends [get_descriptors] synchronously: when the channel returns no answer
    it returns false and changes no table; with a [descriptors] answer it
    returns true and updates the tables, whether or not the answer carries
    the marker.  On a channel without a sync transport it returns a new
    pending promise, which it stores as the descriptors callback, and sends
    the request over the async transport if there is one. *)
Theorem requestRemoteDescriptors_outcomes st :
  let ch := channel st in
  (has_sendSync ch = true →
   let asked := set_sent (sent st ++ [(ViaSync, ch, mkMessage true get_descriptors)]) st in
   let answer := channel_sendSync ch (mkMessage true get_descriptors) asked in
   (answer = None → SuperRPC.requestRemoteDescriptors st = Ret (VBool false) asked)
   ∧ (∀ marker objects functions classes,
        answer = Some (mkMessage marker (descriptors objects functions classes)) →
        ∃ st',
          SuperRPC.requestRemoteDescriptors st = Ret (VBool true) st'
          ∧ remoteObjectDescriptors st' = updated objects (remoteObjectDescriptors st)
          ∧ remoteFunctionDescriptors st' = updated functions (remoteFunctionDescriptors st)
          ∧ remoteClassDescriptors st' = updated classes (remoteClassDescriptors st)
          ∧ sent st' = sent asked))
  ∧ (has_sendSync ch = false →
     let p := fresh (dom (heap st)) in
     SuperRPC.requestRemoteDescriptors st
     = Ret (VRef p)
           (set_remoteDescriptorsCallbacks (Some p)
              (set_sent (sent st ++ handed ViaAsync ch get_descriptors)
                 (set_heap (<[p := new_obj (KPromise Pending []) []]> (heap st)) st)))).
Proof.
  intros ch. split.
  - intros Hsync asked answer.
    assert (Hasked : SuperRPC.sendSync (SuperRPC.msg get_descriptors) ch st = Ret answer asked).
    { rewrite sendSync_run. unfold handed. cbn [transport_available]. fold ch.
      by rewrite Hsync. }
    split.
    + intros Hanswer. unfold SuperRPC.requestRemoteDescriptors. run. fold ch.
      rewrite Hsync. run. rewrite Hasked, Hanswer. reflexivity.
    + intros marker objects functions classes Hanswer.
      destruct (setRemoteDescriptors_run objects functions classes marker asked)
        as (st' & Hset & Ho & Hf & Hc & _ & _ & Hsent & _).
      exists st'. split; [|done].
      unfold SuperRPC.requestRemoteDescriptors. run. fold ch.
      rewrite Hsync. run. rewrite Hasked. run. rewrite Hanswer, Hset. reflexivity.
  - intros Hsync p. unfold SuperRPC.requestRemoteDescriptors, alloc. run. fold ch.
    rewrite Hsync. run. rewrite sendAsync_run. by run.
Qed.

(** X10. Without a live proxy and without a remote descriptor for the id,
    [getProxyObject], [getProxyFunction] and [getProxyClass] throw "No
    object/function/class registered with ID '<id>'" and leave the endpoint
    unchanged. *)
Theorem lookup_without_descriptor k st :
  (ProxyObjectRegistry.get st k = VUndef →
   remoteObjectDescriptors st ≫= (.!! k) = None →
   SuperRPC.getProxyObject k st
   = Exn (Error ("No object registered with ID '" +:+ k +:+ "'")) st)
  ∧ (ProxyObjectRegistry.get st k = VUndef →
     remoteFunctionDescriptors st ≫= (.!! k) = None →
     SuperRPC.getProxyFunction k st
     = Exn (Error ("No function registered with ID '" +:+ k +:+ "'")) st)
  ∧ (proxyClassRegistry st !! k = None →
     remoteClassDescriptors st ≫= (.!! k) = None →
     SuperRPC.getProxyClass k st
     = Exn (Error ("No class registered with ID '" +:+ k +:+ "'")) st).
Proof.
  split; [|split].
  - intros Hget Hd. unfold SuperRPC.getProxyObject. run. by rewrite Hget, Hd.
  - intros Hget Hd. unfold SuperRPC.getProxyFunction. run. by rewrite Hget, Hd.
  - intros Hget Hd. unfold SuperRPC.getProxyClass. run. by rewrite Hget, Hd.
Qed.

(** X11. When [getProxyClass] returns, it returns a constructor that is
    now in the proxy class registry under the class id, and asking again
    returns the same constructor without changing the endpoint. *)
Theorem getProxyClass_cached classId st v st' :
  SuperRPC.getProxyClass classId st = Ret v st' →
  ∃ clazz, v = VRef clazz
    ∧ proxyClassRegistry st' !! classId = Some clazz
    ∧ SuperRPC.getProxyClass classId st' = Ret (VRef clazz) st'.
Proof.
  intros Hrun.
  assert (Hcached : ∀ clazz st0, proxyClassRegistry st0 !! classId = Some clazz →
            SuperRPC.getProxyClass classId st0 = Ret (VRef clazz) st0).
  { intros clazz st0 Hc. unfold SuperRPC.getProxyClass. run. by rewrite Hc. }
  revert Hrun. unfold SuperRPC.getProxyClass at 1. run.
  destruct (proxyClassRegistry st !! classId) as [c|] eqn:Hc.
  { intros [= <- <-]. eauto. }
  destruct (remoteClassDescriptors st ≫= (.!! classId)) as [descriptor|]; [|done].
  intros Hrun.
  apply bind_Ret_inv in Hrun as (clazz & st1 & Hclazz & Hrun).
  assert (∃ c, clazz = VRef c) as [c ->].
  { destruct (d_ctor descriptor) as [ctor|].
    - rewrite createProxyFunction_run in Hclazz. injection Hclazz as <- _. eauto.
    - apply fmap_Ret_inv in Hclazz as (c & _ & ->). eauto. }
  apply bind_Ret_inv in Hrun as (prototype & st2 & _ & Hrun).
  apply bind_Ret_inv in Hrun as ([] & st3 & _ & Hrun).
  apply bind_Ret_inv in Hrun as (? & st4 & _ & Hrun).
  apply bind_Ret_inv in Hrun as (? & st5 & _ & Hrun).
  apply bind_Ret_inv in Hrun as ([] & st6 & Hset & Hrun).
  apply ret_Ret_inv in Hrun as [<- <-].
  injection Hset as <-. cbn.
  exists c. split; [done|]. split; [by rewrite lookup_insert_eq|].
  apply Hcached. cbn. by rewrite lookup_insert_eq.
Qed.

End descriptors.

(** ** The weak proxy registry *)

Section registry.
Context `{!Env}.

Lemma register_run k obj hook st :
  ∃ st1, ProxyObjectRegistry.register k obj hook st = Ret tt st1
    ∧ registry st1 = <[k := obj]> (registry st)
    ∧ collected st1 = collected st.
Proof.
  unfold ProxyObjectRegistry.register, alloc, sym_set, update_obj. run.
  eexists. split; [reflexivity|]. by cbn.
Qed.

Lemma get_insert st st' k obj :
  registry st' = <[k := obj]> (registry st) → collected st' = collected st →
  obj ∉ collected st →
  ProxyObjectRegistry.get st' k = VRef obj
  ∧ ProxyObjectRegistry.has st' k = true
  ∧ ∀ k', k' ≠ k →
      ProxyObjectRegistry.get st' k' = ProxyObjectRegistry.get st k'
      ∧ ProxyObjectRegistry.has st' k' = ProxyObjectRegistry.has st k'.
Proof.
  intros Hr Hc Hobj. unfold ProxyObjectRegistry.get, ProxyObjectRegistry.has.
  rewrite Hr, Hc, lookup_insert_eq. rewrite decide_False by done.
  split; [done|]. split; [by apply bool_decide_eq_true_2|].
  intros k' Hk. by rewrite lookup_insert_ne.
Qed.

Lemma get_delete st st' k :
  registry st' = delete k (registry st) → collected st' = collected st →
  ProxyObjectRegistry.get st' k = VUndef
  ∧ ProxyObjectRegistry.has st' k = false
  ∧ ∀ k', k' ≠ k →
      ProxyObjectRegistry.get st' k' = ProxyObjectRegistry.get st k'
      ∧ ProxyObjectRegistry.has st' k' = ProxyObjectRegistry.has st k'.
Proof.
  intros Hr Hc. unfold ProxyObjectRegistry.get, ProxyObjectRegistry.has.
  rewrite Hr, Hc, lookup_delete_eq.
  split; [done|]. split; [apply bool_decide_eq_false_2; by intros [? ?]|].
  intros k' Hk. by rewrite lookup_delete_ne.
Qed.

(** X12. Registering an object that has not been collected makes [get]
    return it and [has] true for its id; [delete] then makes [get] undefined
    and [has] false.  Neither step changes what [get] and [has] answer for
    another id. *)
Theorem registry_round_trip k obj hook st :
  obj ∉ collected st →
  ∃ st1 st2,
    ProxyObjectRegistry.register k obj hook st = Ret tt st1
    ∧ ProxyObjectRegistry.get st1 k = VRef obj
    ∧ ProxyObjectRegistry.has st1 k = true
    ∧ ProxyObjectRegistry.delete k st1 = Ret tt st2
    ∧ ProxyObjectRegistry.get st2 k = VUndef
    ∧ ProxyObjectRegistry.has st2 k = false
    ∧ ∀ k', k' ≠ k →
        ProxyObjectRegistry.get st1 k' = ProxyObjectRegistry.get st k'
        ∧ ProxyObjectRegistry.has st1 k' = ProxyObjectRegistry.has st k'
        ∧ ProxyObjectRegistry.get st2 k' = ProxyObjectRegistry.get st k'
        ∧ ProxyObjectRegistry.has st2 k' = ProxyObjectRegistry.has st k'.
Proof.
  intros Hobj. destruct (register_run k obj hook st) as (st1 & Hreg & Hr & Hc).
  destruct (get_insert st st1 k obj Hr Hc Hobj) as (Hget & Hhas & Hframe).
  set (st2 := set_registry (delete k (registry st1)) st1).
  destruct (get_delete st1 st2 k eq_refl eq_refl) as (Hget2 & Hhas2 & Hframe2).
  exists st1, st2. do 6 (split; [done|]).
  intros k' Hk. destruct (Hframe k' Hk) as [-> ->]. destruct (Hframe2 k' Hk) as [-> ->].
  by destruct (Hframe k' Hk) as [-> ->].
Qed.

(** X13. When a second object is registered under an id that is already
    in use, the dispose function of the first object still removes the id:
    after it ran, the registry no longer has the id although the second
    object was never disposed, and the death notice for the id is sent. *)
Theorem stale_dispose_unregisters fuel k obj1 obj2 ch hook2 st o1 o2 :
  heap st !! obj1 = Some o1 → heap st !! obj2 = Some o2 → obj1 ≠ obj2 →
  obj2 ∉ collected st →
  ∃ st1 st2 fn1 st3,
    ProxyObjectRegistry.register k obj1 (Some (SendObjectDied k ch)) st = Ret tt st1
    ∧ ProxyObjectRegistry.register k obj2 hook2 st1 = Ret tt st2
    ∧ ProxyObjectRegistry.get st2 k = VRef obj2
    ∧ sym_get st2 (VRef obj1) rpc_disposeFunc = VRef fn1
    ∧ SuperRPC.apply fuel (VRef fn1) VUndef [] st2 = Ret VUndef st3
    ∧ ProxyObjectRegistry.has st3 k = false
    ∧ ProxyObjectRegistry.get st3 k = VUndef
    ∧ sym_get st3 (VRef obj2) rpc_disposed = VBool false
    ∧ sent st3 = sent st ++ died_notice k ch.
Proof.
  intros H1 H2 Hne Hlive.
  destruct (register_spec k obj1 (Some (SendObjectDied k ch)) st o1 H1)
    as (st1 & token1 & fn1 & Hreg1 & Hfresh1 & Hcode1 & Hfn1 & _ & _ & Hr1 & Hsent1).
  destruct (register_run k obj1 (Some (SendObjectDied k ch)) st) as (st1' & Hreg1' & _ & Hc1).
  rewrite Hreg1 in Hreg1'. injection Hreg1' as <-.
  assert (∃ o2', heap st1 !! obj2 = Some o2') as [o2' H2'].
  { revert Hreg1. unfold ProxyObjectRegistry.register, alloc, sym_set, update_obj. run.
    intros [= <-]. cbn [heap set_heap set_registry set_objectFinalized].
    rewrite !lookup_alter_ne by done.
    assert (obj2 ≠ fresh (dom (heap st))) by (by eapply fresh_loc_ne).
    set (tok := fresh (dom (heap st))) in *.
    set (h1 := alter _ obj1 (<[tok := _]> (heap st))).
    assert (Hh1 : h1 !! obj2 = Some o2).
    { unfold h1. rewrite lookup_alter_ne, lookup_insert_ne by done. done. }
    set (st_a := set_heap h1 st) in *.
    assert (obj2 ≠ fresh (dom (heap st_a))) by (by eapply fresh_loc_ne).
    rewrite lookup_insert_ne by done. eauto. }
  destruct (register_spec k obj2 hook2 st1 o2' H2')
    as (st2 & token2 & fn2 & Hreg2 & Hfresh2 & Hcode2 & Hfn2 & Hflag2 & _ & Hr2 & Hsent2).
  destruct (register_run k obj2 hook2 st1) as (st2' & Hreg2' & _ & Hc2).
  rewrite Hreg2 in Hreg2'. injection Hreg2' as <-.
  assert (Hlive2 : obj2 ∉ collected st1) by (by rewrite Hc1).
  destruct (get_insert st1 st2 k obj2 Hr2 Hc2 Hlive2) as (Hget2 & _ & _).
  (* the first proxy keeps its dispose function *)
  assert (Hkeep : sym_get st2 (VRef obj1) rpc_disposeFunc = VRef fn1
                  ∧ SuperRPC.code_of st2 (VRef fn1)
                    = Some (DisposeFunc k token1 obj1 (Some (SendObjectDied k ch)))).
  { revert Hreg2 Hfn1 Hcode1.
    unfold ProxyObjectRegistry.register, alloc, sym_set, update_obj. run.
    intros [= <-] Hfn1 Hcode1.
    unfold sym_get, SuperRPC.code_of, kind_of in *.
    cbn [heap set_heap set_registry set_objectFinalized].
    destruct (heap st1 !! obj1) as [o1'|] eqn:Ho1; [|done]. cbn in Hfn1.
    destruct (heap st1 !! fn1) as [f1|] eqn:Hf1; [|done]. cbn in Hcode1.
    assert (obj1 ≠ fresh (dom (heap st1))) by (by eapply fresh_loc_ne).
    assert (fn1 ≠ fresh (dom (heap st1))) by (by eapply fresh_loc_ne).
    assert (fn1 ≠ obj2).
    { intros ->. by rewrite H2 in Hfresh1. }
    set (tok := fresh (dom (heap st1))) in *.
    set (h1 := alter _ obj2 (<[tok := _]> (heap st1))).
    assert (Hh1o : h1 !! obj1 = Some o1').
    { unfold h1. by rewrite lookup_alter_ne, lookup_insert_ne. }
    assert (Hh1f : h1 !! fn1 = Some f1).
    { unfold h1. by rewrite lookup_alter_ne, lookup_insert_ne. }
    set (st_a := set_heap h1 st1) in *.
    assert (obj1 ≠ fresh (dom (heap st_a))) by (by eapply fresh_loc_ne).
    assert (fn1 ≠ fresh (dom (heap st_a))) by (by eapply fresh_loc_ne).
    rewrite !lookup_alter_ne, !lookup_insert_ne by done.
    change (heap st_a) with h1. by rewrite Hh1o, Hh1f. }
  destruct Hkeep as [Hfn1' Hcode1'].
  destruct (dispose_spec fuel fn1 k token1 obj1 k ch VUndef [] st2 Hcode1')
    as (st3 & Hrun & Hheap3 & Hr3 & _ & Hsent3 & Hc3).
  destruct (get_delete st2 st3 k Hr3 Hc3) as (Hget3 & Hhas3 & _).
  exists st1, st2, fn1, st3. do 7 (split; [done|]). split.
  - unfold sym_get in *. rewrite Hheap3, lookup_alter_ne by done. exact Hflag2.
  - by rewrite Hsent3, Hsent2, Hsent1.
Qed.

End registry.

(** ** Functions that cross the boundary *)

Section crossing.
Context `{!Env}.

Lemma map_get_Some {A} (m : gmap string A) v a :
  map_get m v = Some a ↔ ∃ k, v = VStr k ∧ m !! k = Some a.
Proof.
  unfold map_get. destruct v; cbn; split; try done; try by intros (? & ? & ?).
  - eauto.
  - by intros (? & [= <-] & ?).
Qed.

Lemma registerLocalFunc_new fn d st :
  map_get (hostFunctionRegistry st) (sym_get st (VRef fn) hostObjectId) = None →
  let k := objectIdGenerator (idCount st) in
  SuperRPC.registerLocalFunc (VRef fn) d st
  = Ret k (set_heap (alter (set_sym hostObjectId (VStr k)) fn (heap st))
             (set_hostFunctionRegistry (<[k := mkEntry (VRef fn) d]> (hostFunctionRegistry st))
                (set_idCount (S (idCount st)) st))).
Proof.
  intros Hnone k. unfold SuperRPC.registerLocalFunc. run. rewrite Hnone.
  unfold SuperRPC.generateId, sym_set, update_obj.
  by destruct (key_of (sym_get st (VRef fn) hostObjectId)); run.
Qed.

Lemma registerLocalFunc_old fn d st k :
  sym_get st (VRef fn) hostObjectId = VStr k → is_Some (hostFunctionRegistry st !! k) →
  SuperRPC.registerLocalFunc (VRef fn) d st = Ret k st.
Proof.
  intros Hid [entry Hentry]. unfold SuperRPC.registerLocalFunc. run.
  rewrite Hid. cbn. by rewrite Hentry.
Qed.

Lemma registerLocalObj_new l d st :
  map_get (hostObjectRegistry st) (sym_get st (VRef l) hostObjectId) = None →
  let k := objectIdGenerator (idCount st) in
  SuperRPC.registerLocalObj (VRef l) d st
  = Ret k (set_heap (alter (set_sym hostObjectId (VStr k)) l (heap st))
             (set_hostObjectRegistry
                (<[k := mkEntry (VRef l) (Some d)]> (hostObjectRegistry st))
                (set_idCount (S (idCount st)) st))).
Proof.
  intros Hnone k. unfold SuperRPC.registerLocalObj. run. rewrite Hnone.
  unfold SuperRPC.generateId, sym_set, update_obj.
  by destruct (key_of (sym_get st (VRef l) hostObjectId)); run.
Qed.

Lemma registerLocalObj_old l d st k :
  sym_get st (VRef l) hostObjectId = VStr k → is_Some (hostObjectRegistry st !! k) →
  SuperRPC.registerLocalObj (VRef l) d st = Ret k st.
Proof.
  intros Hid [entry Hentry]. unfold SuperRPC.registerLocalObj. run.
  rewrite Hid. cbn. by rewrite Hentry.
Qed.

(** The function branch of the serializer. *)
Lemma serialize_function fuel fn o c ch d st k st1 :
  heap st !! fn = Some o → o_kind o = KFunction c → truthy (o_proxyObjectId o) = false →
  SuperRPC.registerLocalFunc (VRef fn) d st = Ret k st1 →
  SuperRPC.processBeforeSerialization (S fuel) (VRef fn) ch d st
  = Ret (VRef (fresh (dom (heap st1))))
        (set_heap (<[fresh (dom (heap st1)) := function_wire k]> (heap st1)) st1).
Proof.
  intros Hfn Hk Hp Hreg.
  assert (Hslot : ∀ s, sym_get st (VRef fn) s = get_sym s o)
    by (intros s; unfold sym_get; by rewrite Hfn).
  cbn [SuperRPC.processBeforeSerialization]. run.
  rewrite Hslot. cbn [get_sym]. rewrite Hp, Hfn, Hk. run.
  rewrite Hreg. unfold SuperRPC.literal, alloc. by run.
Qed.

(** X14. A local function that is not a proxy is sent as
    [{_rpc_type: 'function', objId}].  On its first crossing it is registered
    as a host function under a generated id, with the descriptor of that
    crossing; on the next crossing it is sent under the same id, and neither
    the registry nor the id generator changes. *)
Theorem function_keeps_its_id fuel fn o c ch d ch' d' st :
  heap st !! fn = Some o → o_kind o = KFunction c → truthy (o_proxyObjectId o) = false →
  ∃ k w1 st1 w2 st2,
    SuperRPC.processBeforeSerialization (S fuel) (VRef fn) ch d st = Ret (VRef w1) st1
    ∧ heap st1 !! w1 = Some (function_wire k)
    ∧ SuperRPC.processBeforeSerialization (S fuel) (VRef fn) ch' d' st1 = Ret (VRef w2) st2
    ∧ heap st2 !! w2 = Some (function_wire k)
    ∧ hostFunctionRegistry st2 = hostFunctionRegistry st1
    ∧ idCount st2 = idCount st1
    ∧ (map_get (hostFunctionRegistry st) (o_hostObjectId o) = None →
       k = objectIdGenerator (idCount st)
       ∧ hostFunctionRegistry st1 !! k = Some (mkEntry (VRef fn) d)).
Proof.
  intros Hfn Hk Hp.
  assert (Hslot : sym_get st (VRef fn) hostObjectId = o_hostObjectId o)
    by (unfold sym_get; by rewrite Hfn).
  assert (Hfirst : ∃ k sta o1,
    SuperRPC.registerLocalFunc (VRef fn) d st = Ret k sta
    ∧ heap sta !! fn = Some o1 ∧ o_kind o1 = KFunction c
    ∧ o_proxyObjectId o1 = o_proxyObjectId o
    ∧ o_hostObjectId o1 = VStr k
    ∧ is_Some (hostFunctionRegistry sta !! k)
    ∧ (map_get (hostFunctionRegistry st) (o_hostObjectId o) = None →
       k = objectIdGenerator (idCount st)
       ∧ hostFunctionRegistry sta !! k = Some (mkEntry (VRef fn) d))).
  { destruct (map_get (hostFunctionRegistry st) (o_hostObjectId o)) as [entry|] eqn:Hreg.
    - apply map_get_Some in Hreg as (k & Hid & Hentry).
      exists k, st, o. split; [|by eauto 10].
      apply registerLocalFunc_old; [congruence|by eauto].
    - eexists _, _, _. split; [apply registerLocalFunc_new; by rewrite Hslot|]. cbn.
      rewrite lookup_alter, decide_True, Hfn by done. cbn.
      split; [reflexivity|]. rewrite lookup_insert_eq. by eauto 10. }
  destruct Hfirst as (k & sta & o1 & Hreg1 & Hfn1 & Hk1 & Hp1 & Hid1 & Hentry & Hnew).
  pose proof (serialize_function fuel fn o c ch d st k sta Hfn Hk Hp Hreg1) as Hrun1.
  set (w1 := fresh (dom (heap sta))) in *.
  set (st1 := set_heap (<[w1 := function_wire k]> (heap sta)) sta) in *.
  assert (Hne : fn ≠ w1) by (by eapply fresh_loc_ne).
  assert (Hfn1' : heap st1 !! fn = Some o1) by (cbn; by rewrite lookup_insert_ne).
  assert (Hreg2 : SuperRPC.registerLocalFunc (VRef fn) d' st1 = Ret k st1).
  { apply registerLocalFunc_old; [|done]. unfold sym_get. by rewrite Hfn1'. }
  rewrite <- Hp1 in Hp.
  pose proof (serialize_function fuel fn o1 c ch' d' st1 k st1 Hfn1' Hk1 Hp Hreg2) as Hrun2.
  eexists k, w1, st1, (fresh (dom (heap st1))), _.
  split; [exact Hrun1|]. split; [cbn; by rewrite lookup_insert_eq|].
  split; [exact Hrun2|]. split; [cbn; by rewrite lookup_insert_eq|].
  by do 2 (split; [done|]).
Qed.

Lemma register_full k obj hook st o :
  heap st !! obj = Some o →
  ∃ st1 token fn,
    ProxyObjectRegistry.register k obj hook st = Ret tt st1
    ∧ heap st !! fn = None
    ∧ heap st1 !! obj
      = Some (set_sym rpc_disposeFunc (VRef fn) (set_sym rpc_disposed (VBool false) o))
    ∧ (∀ l o', l ≠ obj → heap st !! l = Some o' → heap st1 !! l = Some o')
    ∧ SuperRPC.code_of st1 (VRef fn) = Some (DisposeFunc k token obj hook)
    ∧ registry st1 = <[k := obj]> (registry st)
    ∧ collected st1 = collected st
    ∧ sent st1 = sent st
    ∧ asyncCallbacks st1 = asyncCallbacks st
    ∧ microtasks st1 = microtasks st.
Proof.
  intros Hobj.
  unfold ProxyObjectRegistry.register, alloc, sym_set, update_obj. run.
  set (token := fresh (dom (heap st))).
  assert (Htoken : obj ≠ token) by (by eapply fresh_loc_ne).
  set (h1 := alter (set_sym rpc_disposed (VBool false)) obj
               (<[token := new_obj KObject []]> (heap st))).
  cbn [heap set_heap].
  set (fn := fresh (dom h1)).
  assert (Hh1 : h1 !! obj = Some (set_sym rpc_disposed (VBool false) o)).
  { unfold h1. rewrite lookup_alter, decide_True by done.
    by rewrite lookup_insert_ne, Hobj by done. }
  assert (Hfn1 : h1 !! fn = None) by apply not_elem_of_dom, is_fresh.
  assert (Hfn : obj ≠ fn) by (intros Heq; rewrite Heq in Hh1; congruence).
  eexists _, token, fn. split; [reflexivity|]. cbn. fold h1. fold fn.
  split.
  { unfold h1 in Hfn1. rewrite lookup_alter_ne in Hfn1 by done.
    apply lookup_insert_None in Hfn1 as [? _]. done. }
  split.
  { rewrite lookup_alter, decide_True by done. rewrite lookup_insert_ne by done.
    by rewrite Hh1. }
  split.
  { intros l o' Hl Ho'. rewrite lookup_alter_ne by done.
    assert (l ≠ token) by (by eapply fresh_loc_ne).
    assert (Hl1 : h1 !! l = Some o').
    { unfold h1. by rewrite lookup_alter_ne, lookup_insert_ne. }
    assert (l ≠ fn) by (intros ->; congruence).
    by rewrite lookup_insert_ne. }
  split; [|done].
  unfold SuperRPC.code_of, kind_of. cbn.
  rewrite lookup_alter_ne by done. by rewrite lookup_insert_eq.
Qed.

(** X15. Receiving [{_rpc_type: 'function', objId}] for an id without a live
    proxy creates a proxy function for [fn_call] on the reply channel, async
    by default, marks it with the id, and registers it in the weak registry
    with a dispose hook that sends [obj_died] for the id on that channel;
    nothing is sent. *)
Theorem function_wire_becomes_proxy fuel w o k ch d st :
  heap st !! w = Some o → is_function st (VRef w) = false →
  js_get st (VRef w) "_rpc_type" = VStr "function" →
  js_get st (VRef w) "objId" = VStr k →
  ProxyObjectRegistry.get st k = VUndef →
  let descr := prop_descriptor (inr <$> (set_d_type TFunction <$> d)) in
  let mode := spec_callType (d_returns descr) Async ch in
  ∃ pf st',
    SuperRPC.processAfterDeserialization (S fuel) (VRef w) ch d st = Ret (VRef pf) st'
    ∧ heap st !! pf = None
    ∧ SuperRPC.code_of st' (VRef pf) = Some (proxy_code mode (Some k) descr fn_call ch)
    ∧ sym_get st' (VRef pf) proxyObjectId = VStr k
    ∧ sym_get st' (VRef pf) rpc_disposed = VBool false
    ∧ registry st' !! k = Some pf
    ∧ (∃ dispose token,
         sym_get st' (VRef pf) rpc_disposeFunc = VRef dispose
         ∧ SuperRPC.code_of st' (VRef dispose)
           = Some (DisposeFunc k token pf (Some (SendObjectDied k ch))))
    ∧ sent st' = sent st.
Proof.
  intros Hw Hfn Htag Hid Hget descr mode.
  cbn [SuperRPC.processAfterDeserialization]. run. rewrite Hw, Hfn, Htag.
  rewrite bool_decide_eq_false_2, bool_decide_eq_true_2 by done. rewrite Hid.
  unfold SuperRPC.getOrCreateProxyFunction. run. rewrite Hget. cbn [truthy]. run.
  rewrite createProxyFunction_run. cbn zeta. cbn [default]. fold descr mode. run.
  set (pf := fresh (dom (heap st))).
  unfold sym_set, update_obj. run.
  set (code := proxy_code mode (Some k) descr fn_call ch).
  set (st1 := set_heap (alter _ pf _) _).
  assert (Hpf : heap st1 !! pf
                = Some (set_sym proxyObjectId (VStr k) (new_obj (KFunction code) []))).
  { unfold st1. cbn. by rewrite lookup_alter, decide_True, lookup_insert_eq by done. }
  destruct (register_full k pf (Some (SendObjectDied k ch)) st1 _ Hpf)
    as (st2 & token & dispose & -> & _ & Hpf2 & _ & Hcode & Hreg & _ & Hsent & _).
  run. exists pf, st2. split; [done|]. split; [apply fresh_loc_None|].
  unfold SuperRPC.code_of, kind_of, sym_get. rewrite Hpf2. cbn.
  do 3 (split; [done|]). split; [by rewrite Hreg, lookup_insert_eq|].
  split; [by eauto|]. by rewrite Hsent.
Qed.

(** X16. A local function that crosses is registered in the host function
    registry only.  The peer's proxy of it, which carries the id, is sent
    back as [{_rpc_type: 'hostObject', objId}], and the host resolves such a
    reference in the host object registry only: the host reads undefined,
    although the function is still registered under the id. *)
Theorem function_sent_back_is_lost fuel fn o c ch d host :
  heap host !! fn = Some o → o_kind o = KFunction c →
  truthy (o_proxyObjectId o) = false →
  map_get (hostFunctionRegistry host) (o_hostObjectId o) = None →
  let k := objectIdGenerator (idCount host) in
  k ≠ "" → hostObjectRegistry host !! k = None →
  ∃ w host1,
    SuperRPC.processBeforeSerialization (S fuel) (VRef fn) ch d host = Ret (VRef w) host1
    ∧ heap host1 !! w = Some (function_wire k)
    ∧ hostFunctionRegistry host1 !! k = Some (mkEntry (VRef fn) d)
    ∧ (∀ fuel' pf ch' d' client,
         sym_get client (VRef pf) proxyObjectId = VStr k →
         ∃ back client',
           SuperRPC.processBeforeSerialization (S fuel') (VRef pf) ch' d' client
             = Ret (VRef back) client'
           ∧ heap client' !! back = Some (hostObject_wire (VStr k)))
    ∧ (∀ fuel' w' o' ch' d' host',
         heap host' !! w' = Some o' → is_function host' (VRef w') = false →
         js_get host' (VRef w') "_rpc_type" = VStr "hostObject" →
         js_get host' (VRef w') "objId" = VStr k →
         hostObjectRegistry host' = hostObjectRegistry host1 →
         hostFunctionRegistry host' = hostFunctionRegistry host1 →
         SuperRPC.processAfterDeserialization (S fuel') (VRef w') ch' d' host'
           = Ret VUndef host'
         ∧ hostFunctionRegistry host' !! k = Some (mkEntry (VRef fn) d)).
Proof.
  intros Hfn Hk Hp Hnone k Hk0 Hfree.
  assert (Hslot : sym_get host (VRef fn) hostObjectId = o_hostObjectId o)
    by (unfold sym_get; by rewrite Hfn).
  pose proof (registerLocalFunc_new fn d host) as Hreg. rewrite Hslot in Hreg.
  specialize (Hreg Hnone). cbn zeta in Hreg. fold k in Hreg.
  pose proof (serialize_function fuel fn o c ch d host _ _ Hfn Hk Hp Hreg) as Hrun.
  eexists _, _. split; [exact Hrun|].
  split; [cbn; by rewrite lookup_insert_eq|]. split; [cbn; by rewrite lookup_insert_eq|].
  split.
  - intros fuel' pf ch' d' client Hproxy.
    assert (Htruthy : truthy (sym_get client (VRef pf) proxyObjectId) = true).
    { rewrite Hproxy. cbn. by rewrite (proj2 (String.eqb_neq k "")). }
    rewrite (serialize_proxy fuel' (VRef pf) ch' d' client Htruthy), Hproxy.
    eexists _, _. split; [reflexivity|]. cbn. by rewrite lookup_insert_eq.
  - intros fuel' w' o' ch' d' host' Hw' Hnf' Htag' Hid' Hobjs Hfuns.
    rewrite (deserialize_hostObject fuel' host' w' o' ch' d' Hw' Hnf' Htag').
    rewrite Hid', Hobjs, Hfuns. unfold map_get. cbn. rewrite Hfree.
    split; [reflexivity|]. by rewrite lookup_insert_eq.
Qed.

End crossing.

(** ** Promises that cross the boundary *)

Section promises.
Context `{!Env}.

Lemma serialize_promise fuel p o s rs ch d st k st1 :
  heap st !! p = Some o → o_kind o = KPromise s rs → truthy (o_proxyObjectId o) = false →
  SuperRPC.registerLocalObj (VRef p) empty_descriptor st = Ret k st1 →
  SuperRPC.processBeforeSerialization (S fuel) (VRef p) ch d st
  = ((if negb (map_has (hostObjectRegistry st) (o_hostObjectId o))
      then promise_then p (ReplySettlement k ch) else mret tt);;
     SuperRPC.literal [("_rpc_type", VStr "object"); ("objId", VStr k);
                       ("classId", VStr "Promise")]) st1.
Proof.
  intros Hp Hk Hproxy Hreg.
  assert (Hslot : ∀ s, sym_get st (VRef p) s = get_sym s o)
    by (intros ?; unfold sym_get; by rewrite Hp).
  cbn [SuperRPC.processBeforeSerialization]. run.
  rewrite !Hslot. cbn [get_sym]. rewrite Hproxy, Hp, Hk. run. rewrite Hreg. reflexivity.
Qed.

(** X17. A promise that is not yet registered is sent as
    [{_rpc_type: 'object', objId, classId: 'Promise'}]: it is registered as a
    host object under a generated id and gets one reaction, which reports
    its settlement as an async [fn_reply] whose call id is that id and whose
    result is sent as it is.  Sending the same promise again reuses the id
    and attaches nothing. *)
Theorem promise_crossing_host fuel p o s rs ch d ch' d' st :
  heap st !! p = Some o → o_kind o = KPromise s rs → truthy (o_proxyObjectId o) = false →
  map_get (hostObjectRegistry st) (o_hostObjectId o) = None →
  let k := objectIdGenerator (idCount st) in
  ∃ w st1 w2 st2,
    SuperRPC.processBeforeSerialization (S fuel) (VRef p) ch d st = Ret (VRef w) st1
    ∧ heap st1 !! w = Some (promise_wire k)
    ∧ hostObjectRegistry st1 = <[k := mkEntry (VRef p) (Some empty_descriptor)]>
                                 (hostObjectRegistry st)
    ∧ attached (ReplySettlement k ch) s rs st st1 p
    ∧ sent st1 = sent st
    ∧ SuperRPC.processBeforeSerialization (S fuel) (VRef p) ch' d' st1 = Ret (VRef w2) st2
    ∧ heap st2 !! w2 = Some (promise_wire k)
    ∧ hostObjectRegistry st2 = hostObjectRegistry st1
    ∧ microtasks st2 = microtasks st1
    ∧ kind_of st2 p = kind_of st1 p
    ∧ ∀ fuel' success result st',
        SuperRPC.runReaction fuel' (ReplySettlement k ch)
          (if success : bool then Fulfilled result else Rejected result) st'
        = Ret tt (set_sent (sent st' ++ handed_either ViaAsync ch
                                          (fn_reply Async success result (VStr k))) st').
Proof.
  intros Hp Hk Hproxy Hnone k.
  assert (Hslot : sym_get st (VRef p) hostObjectId = o_hostObjectId o)
    by (unfold sym_get; by rewrite Hp).
  pose proof (registerLocalObj_new p empty_descriptor st) as Hreg. rewrite Hslot in Hreg.
  specialize (Hreg Hnone). cbn zeta in Hreg. fold k in Hreg.
  pose proof (serialize_promise fuel p o s rs ch d st _ _ Hp Hk Hproxy Hreg) as Hrun.
  unfold map_has in Hrun. rewrite Hnone in Hrun.
  rewrite bool_decide_eq_false_2 in Hrun by (by intros [? ?]). cbn [negb] in Hrun.
  set (sta := set_heap _ _) in *.
  assert (Hpa : heap sta !! p = Some (set_sym hostObjectId (VStr k) o)).
  { unfold sta. cbn. by rewrite lookup_alter, decide_True, Hp by done. }
  assert (Hka : kind_of sta p = Some (KPromise s rs)).
  { unfold kind_of. rewrite Hpa. cbn. by rewrite Hk. }
  (* the reaction *)
  assert (Hthen : ∃ stb ob,
    promise_then p (ReplySettlement k ch) sta = Ret tt stb
    ∧ attached (ReplySettlement k ch) s rs st stb p
    ∧ heap stb !! p = Some ob
    ∧ o_hostObjectId ob = VStr k ∧ o_proxyObjectId ob = o_proxyObjectId o
    ∧ (∃ s' rs', o_kind ob = KPromise s' rs')
    ∧ hostObjectRegistry stb = hostObjectRegistry sta
    ∧ sent stb = sent st).
  { unfold promise_then, enqueue, update_obj, attached. run. rewrite Hka.
    assert (Hobj : ∀ ob, o_hostObjectId (set_sym hostObjectId (VStr k) ob) = VStr k
                         ∧ o_proxyObjectId (set_sym hostObjectId (VStr k) ob)
                           = o_proxyObjectId ob
                         ∧ o_kind (set_sym hostObjectId (VStr k) ob) = o_kind ob)
      by (by intros []).
    destruct (Hobj o) as (Hid & Hpr & Hkd). rewrite Hk in Hkd.
    destruct s; run.
    1,2: eexists _, (set_kind _ (set_sym hostObjectId (VStr k) o)).
    3,4: eexists _, (set_sym hostObjectId (VStr k) o).
    all: split; [reflexivity|]; unfold kind_of; cbn [heap set_heap set_microtasks microtasks].
    1,2: rewrite lookup_alter, decide_True, Hpa by done; cbn.
    3,4: rewrite Hpa; cbn [fmap option_fmap option_map]; rewrite Hkd.
    all: split; [done|]. all: split; [done|]. all: split; [done|]. all: split; [done|].
    all: split; [cbn; by eauto|]. all: done. }
  destruct Hthen as (stb & ob & Hthen & Hatt & Hpb & Hidb & Hproxyb & (s' & rs' & Hkb) & Hregb
                     & Hsentb).
  rewrite bind_run, Hthen in Hrun. unfold SuperRPC.literal, alloc in Hrun.
  rewrite fmap_run in Hrun.
  set (w := fresh (dom (heap stb))) in *.
  set (st1 := set_heap (<[w := _]> (heap stb)) stb) in *.
  assert (Hne : p ≠ w) by (by eapply fresh_loc_ne).
  assert (Hp1 : heap st1 !! p = Some ob) by (unfold st1; cbn; by rewrite lookup_insert_ne).
  (* the second crossing *)
  assert (Hreg2 : SuperRPC.registerLocalObj (VRef p) empty_descriptor st1 = Ret k st1).
  { apply registerLocalObj_old.
    - unfold sym_get. rewrite Hp1. by cbn.
    - unfold st1. cbn. rewrite Hregb. unfold sta. cbn. rewrite lookup_insert_eq. by eauto. }
  rewrite <- Hproxyb in Hproxy.
  pose proof (serialize_promise fuel p ob s' rs' ch' d' st1 _ _ Hp1 Hkb Hproxy Hreg2) as Hrun2.
  unfold map_has, map_get in Hrun2. rewrite Hidb in Hrun2. cbn [key_of mbind option_bind] in Hrun2.
  assert (Hhas : is_Some (hostObjectRegistry st1 !! k)).
  { unfold st1. cbn. rewrite Hregb. unfold sta. cbn. rewrite lookup_insert_eq. by eauto. }
  rewrite bool_decide_eq_true_2 in Hrun2 by done. cbn [negb] in Hrun2.
  rewrite bind_run, ret_run in Hrun2. unfold SuperRPC.literal, alloc in Hrun2.
  rewrite fmap_run in Hrun2.
  eexists w, st1, _, _. split; [exact Hrun|].
  split; [unfold st1; cbn; by rewrite lookup_insert_eq|].
  split; [unfold st1; cbn; by rewrite Hregb|].
  split.
  { unfold attached in *. unfold st1, kind_of in *. cbn [heap set_heap microtasks].
    rewrite lookup_insert_ne by done. exact Hatt. }
  split; [done|]. split; [exact Hrun2|].
  split; [cbn; by rewrite lookup_insert_eq|]. split; [done|]. split; [done|].
  split.
  { unfold kind_of. cbn [heap set_heap]. rewrite lookup_insert_ne; [done|].
    intros Heq. pose proof (fresh_loc_None st1) as Hf. rewrite Heq in Hf. congruence. }
  intros fuel' success result st'.
  destruct (sendAsyncIfPossible_run (fn_reply Async success result (VStr k)) ch st')
    as [r Hsend].
  destruct success; cbn [SuperRPC.runReaction]; run; by rewrite Hsend.
Qed.

Lemma async_reply_resolves fuel cid result replyChannel context st p rs :
  is_ref result = false →
  asyncCallbacks st !! cid = Some p →
  kind_of st p = Some (KPromise Pending rs) →
  ∃ st',
    SuperRPC.messageReceived (S fuel) (mkMessage true (fn_reply Async true result (VStr cid)))
      replyChannel context st = Ret tt st'
    ∧ kind_of st' p = Some (KPromise (Fulfilled result) [])
    ∧ microtasks st' = microtasks st ++ ((λ r, (r, Fulfilled result)) <$> rs)
    ∧ asyncCallbacks st' = delete cid (asyncCallbacks st)
    ∧ sent st' = sent st.
Proof.
  intros Hresult Hcb Hp.
  unfold SuperRPC.messageReceived. run. cbn [SuperRPC.checkMarker rpc_marker body].
  rewrite (bool_decide_eq_true_2 (Async = Async)) by done. run.
  rewrite deserialize_not_ref by done. run.
  cbn [asyncCallbacks set_currentContext map_get key_of mbind option_bind].
  rewrite Hcb. run.
  assert (Hp' : kind_of (set_currentContext context st) p = Some (KPromise Pending rs))
    by done.
  unfold promise_resolve. run. rewrite Hp'.
  destruct (settle_pending p (Fulfilled result) rs _ Hp') as [Hsettle Hkind].
  assert (Hsettled : match result with
                     | VRef q =>
                         if is_promise (set_currentContext context st) result
                         then update_obj p (set_kind (KPromise (Following q) rs));;
                              promise_then q (ResolvePromise p)
                         else settle p (Fulfilled result)
                     | _ => settle p (Fulfilled result)
                     end (set_currentContext context st) = Ret tt _)
    by (destruct result; [exact Hsettle..|done]).
  rewrite Hsettled. run. eexists. split; [reflexivity|]. by split; [exact Hkind|].
Qed.

(** X18. Receiving [{_rpc_type: 'object', objId, classId: 'Promise'}] for an
    id without a live proxy creates a pending promise, stores it in
    [asyncCallbacks] under the object id and registers it in the weak
    registry; it carries no proxy id.  An async success reply whose call id
    is the object id then fulfils that promise. *)
Theorem promise_wire_becomes_promise fuel w o k ch d st :
  heap st !! w = Some o → is_function st (VRef w) = false →
  js_get st (VRef w) "_rpc_type" = VStr "object" →
  js_get st (VRef w) "objId" = VStr k →
  js_get st (VRef w) "classId" = VStr "Promise" →
  ProxyObjectRegistry.get st k = VUndef →
  ∃ p st',
    SuperRPC.processAfterDeserialization (S fuel) (VRef w) ch d st = Ret (VRef p) st'
    ∧ heap st !! p = None
    ∧ kind_of st' p = Some (KPromise Pending [])
    ∧ asyncCallbacks st' = <[k := p]> (asyncCallbacks st)
    ∧ registry st' !! k = Some p
    ∧ sym_get st' (VRef p) proxyObjectId = VUndef
    ∧ (∃ dispose token,
         sym_get st' (VRef p) rpc_disposeFunc = VRef dispose
         ∧ SuperRPC.code_of st' (VRef dispose)
           = Some (DisposeFunc k token p (Some (SendObjectDied k ch))))
    ∧ sent st' = sent st
    ∧ ∀ fuel' result replyChannel context,
        is_ref result = false →
        ∃ st'',
          SuperRPC.messageReceived (S fuel')
            (mkMessage true (fn_reply Async true result (VStr k))) replyChannel context st'
          = Ret tt st''
          ∧ kind_of st'' p = Some (KPromise (Fulfilled result) []).
Proof.
  intros Hw Hfn Htag Hid Hclass Hget.
  cbn [SuperRPC.processAfterDeserialization]. run. rewrite Hw, Hfn, Htag.
  rewrite bool_decide_eq_true_2 by done. rewrite Hid, Hclass.
  unfold SuperRPC.getOrCreateProxyInstance. run. rewrite Hget. cbn [truthy]. run.
  assert (Hobj : ∃ obj st0,
    (if nullish (js_get st (VRef w) "props") then SuperRPC.literal []
     else mret (js_get st (VRef w) "props")) st = Ret obj st0
    ∧ (∀ l o', heap st !! l = Some o' → heap st0 !! l = Some o')
    ∧ registry st0 = registry st ∧ asyncCallbacks st0 = asyncCallbacks st
    ∧ sent st0 = sent st).
  { destruct (nullish _).
    - unfold SuperRPC.literal, alloc. run. eexists _, _. split; [reflexivity|]. cbn.
      split; [|done]. intros l o' Hl. rewrite lookup_insert_ne; [done|].
      intros <-. by rewrite fresh_loc_None in Hl.
    - exists (js_get st (VRef w) "props"), st. by run. }
  destruct Hobj as (obj & st0 & -> & Hkeep & Hreg0 & Hcb0 & Hsent0).
  rewrite bool_decide_eq_true_2 by done. unfold alloc. run.
  set (p := fresh (dom (heap st0))).
  set (st1 := set_asyncCallbacks _ _).
  assert (Hp1 : heap st1 !! p = Some (new_obj (KPromise Pending []) [])).
  { unfold st1. cbn. by rewrite lookup_insert_eq. }
  destruct (register_full k p (Some (SendObjectDied k ch)) st1 _ Hp1)
    as (st2 & token & dispose & -> & _ & Hp2 & _ & Hcode & Hreg & _ & Hsent & Hcb & Hjobs).
  run.
  assert (Hkind : kind_of st2 p = Some (KPromise Pending [])).
  { unfold kind_of. by rewrite Hp2. }
  exists p, st2. split; [done|].
  split.
  { destruct (heap st !! p) as [o'|] eqn:Hp; [|done].
    apply Hkeep in Hp. pose proof (fresh_loc_None st0) as Hf. fold p in Hf. congruence. }
  split; [done|]. split; [by rewrite Hcb; unfold st1; cbn; rewrite Hcb0|].
  split; [by rewrite Hreg, lookup_insert_eq|].
  split; [unfold sym_get; by rewrite Hp2|].
  split; [unfold sym_get; rewrite Hp2; cbn; by eauto|].
  split; [by rewrite Hsent; unfold st1; cbn|].
  intros fuel' result replyChannel context Hresult.
  destruct (async_reply_resolves fuel' k result replyChannel context st2 p [] Hresult)
    as (st'' & Hrun & Hdone & _); [|done|by eauto].
  rewrite Hcb. unfold st1. cbn. by rewrite lookup_insert_eq.
Qed.

End promises.

(** ** The message marker *)

Section marker.
Context `{!Env}.

Lemma handed_marked t ch b entry :
  entry ∈ handed t ch b →
  entry = (t, ch, mkMessage true b) ∧ transport_available t ch = true.
Proof.
  unfold handed. destruct (transport_available t ch); [|by intros ?%elem_of_nil].
  by intros ->%list_elem_of_singleton.
Qed.

Lemma handed_either_marked t ch b entry :
  entry ∈ handed_either t ch b →
  ∃ t', entry = (t', ch, mkMessage true b) ∧ transport_available t' ch = true
        ∧ (transport_available t ch = true → t' = t).
Proof.
  unfold handed_either. destruct (transport_available t ch) eqn:Ht.
  - intros [-> ?]%handed_marked. eauto.
  - intros [-> ?]%handed_marked. eexists. split; [done|]. split; [done|]. done.
Qed.

(** X19. Every message the four send functions hand to a channel carries
    the marker and goes over a transport the channel has: [sendSync] and
    [sendAsync] hand nothing over when their transport is missing, the
    [IfPossible] variants then use the other transport.  An incoming message
    without the marker changes nothing but the current context. *)
Theorem marker_discipline message ch st :
  (∃ r, SuperRPC.sendSync message ch st
        = Ret r (set_sent (sent st ++ handed ViaSync ch (body message)) st))
  ∧ SuperRPC.sendAsync message ch st
    = Ret tt (set_sent (sent st ++ handed ViaAsync ch (body message)) st)
  ∧ (∃ r, SuperRPC.sendSyncIfPossible message ch st
          = Ret r (set_sent (sent st ++ handed_either ViaSync ch (body message)) st))
  ∧ (∃ r, SuperRPC.sendAsyncIfPossible message ch st
          = Ret r (set_sent (sent st ++ handed_either ViaAsync ch (body message)) st))
  ∧ (∀ t entry,
       entry ∈ handed_either t ch (body message) →
       ∃ t', entry = (t', ch, mkMessage true (body message))
             ∧ transport_available t' ch = true
             ∧ SuperRPC.checkMarker entry.2 = true
             ∧ (transport_available t ch = true → t' = t))
  ∧ (∀ fuel b replyChannel context,
       SuperRPC.messageReceived fuel (mkMessage false b) replyChannel context st
       = Ret tt (set_currentContext context st)).
Proof.
  assert (Hsync : SuperRPC.sendSync message ch = SuperRPC.sendSync (SuperRPC.msg (body message)) ch)
    by done.
  assert (Hasync : SuperRPC.sendAsync message ch
                   = SuperRPC.sendAsync (SuperRPC.msg (body message)) ch) by done.
  split; [rewrite Hsync, sendSync_run; by eauto|].
  split; [by rewrite Hasync, sendAsync_run|].
  split.
  { unfold SuperRPC.sendSyncIfPossible. rewrite Hsync, Hasync.
    apply (sendSyncIfPossible_run (body message) ch st). }
  split.
  { unfold SuperRPC.sendAsyncIfPossible. rewrite Hsync, Hasync.
    apply (sendAsyncIfPossible_run (body message) ch st). }
  split; [|done].
  intros t entry (t' & -> & Ht' & Hpref)%handed_either_marked. by eauto 10.
Qed.

End marker.

(** ** Instances of host classes that cross the boundary *)

Section instances.
Context `{!Env}.

Lemma assoc_set_other name name' v ps ps' :
  name' ≠ name → assoc_set name v ps = Some ps' → assoc name' ps' = assoc name' ps.
Proof.
  intros Hne. revert ps'. induction ps as [|[k w] ps IH]; intros ps'; cbn; [done|].
  case_decide as Hk.
  - intros [= <-]. cbn. subst k. by rewrite !decide_False by done.
  - destruct (assoc_set name v ps) as [ps0|]; [|done]. cbn. intros [= <-]. cbn.
    case_decide; [done|]. by apply IH.
Qed.

Lemma assoc_app_other name name' (v : value) ps :
  name' ≠ name → assoc name' (ps ++ [(name, v)]) = assoc name' ps.
Proof.
  intros Hne. induction ps as [|[k w] ps IH]; cbn.
  - by rewrite decide_False.
  - by case_decide.
Qed.

(** [obj[name] = v] on an object without hidden properties. *)
Lemma assign_plain name v o :
  o_hidden o = [] →
  o_hidden (assign name v o) = []
  ∧ o_kind (assign name v o) = o_kind o
  ∧ assoc name (o_props (assign name v o)) = Some v
  ∧ (∀ name', name' ≠ name →
       assoc name' (o_props (assign name v o)) = assoc name' (o_props o))
  ∧ (∀ k, k ∈ (o_props (assign name v o)).*1 → k = name ∨ k ∈ (o_props o).*1).
Proof.
  intros Hh. unfold assign. rewrite Hh. cbn [assoc_set].
  destruct (assoc_set name v (o_props o)) as [ps|] eqn:Hps.
  - destruct (assoc_set_Some _ _ _ _ Hps) as [Hv Hkeys]. cbn.
    split; [done|]. split; [done|]. split; [done|].
    split; [intros name' Hne; by eapply assoc_set_other|].
    intros k Hk. right. by rewrite <- Hkeys.
  - pose proof (assoc_set_None _ _ _ Hps) as Hnone. cbn.
    split; [done|]. split; [done|]. split; [by apply assoc_app_None|].
    split; [intros name' Hne; by apply assoc_app_other|].
    intros k. rewrite fmap_app, elem_of_app. cbn. rewrite list_elem_of_singleton.
    intros [?|?]; by eauto.
Qed.

(** The loop that copies the read-only properties of an instance. *)
Lemma copy_readonly fuel l ol props ch (readonly : list string) :
  l ≠ props →
  (∀ prop, prop ∈ readonly →
     ∃ v, assoc (getPropName (inl prop)) (o_props ol) = Some v ∧ is_ref v = false) →
  ∀ st po,
    heap st !! l = Some ol → heap st !! props = Some po → o_hidden po = [] →
    ∃ po',
      for_each
        (λ prop,
           let propName := getPropName (inl prop) in
           st ← get_state;
           v ← SuperRPC.processBeforeSerialization (S fuel) (js_get st (VRef l) propName) ch None;
           js_set (VRef props) propName v)
        readonly st
      = Ret tt (set_heap (<[props := po']> (heap st)) st)
      ∧ o_hidden po' = [] ∧ o_kind po' = o_kind po
      ∧ (∀ prop, prop ∈ readonly →
           assoc (getPropName (inl prop)) (o_props po')
           = assoc (getPropName (inl prop)) (o_props ol))
      ∧ (∀ name, (∀ prop, prop ∈ readonly → name ≠ getPropName (inl prop)) →
           assoc name (o_props po') = assoc name (o_props po))
      ∧ (∀ k, k ∈ (o_props po').*1 →
           k ∈ (o_props po).*1 ∨ ∃ prop, prop ∈ readonly ∧ k = getPropName (inl prop)).
Proof.
  intros Hne. set (body := λ prop : string, _).
  induction readonly as [|prop readonly IH]; intros Hown st po Hl Hprops Hh.
  - exists po. cbn [for_each]. run. rewrite insert_id by done.
    split; [by destruct st|]. split; [done|]. split; [done|].
    split; [by intros ? ?%elem_of_nil|]. by eauto.
  - destruct (Hown prop) as (v & Hv & Hprim); [by left|].
    set (name := getPropName (inl prop)) in *.
    assert (Hhead : body prop st
                    = Ret tt (set_heap (alter (assign name v) props (heap st)) st)).
    { unfold body. cbn zeta. fold name. run.
      rewrite (js_get_own st l ol _ v Hl Hv), serialize_not_ref by done. run.
      unfold js_set, update_obj. by run. }
    cbn [for_each]. rewrite bind_run, Hhead.
    destruct (assign_plain name v po Hh) as (Hh1 & Hk1 & Hset & Hother & Hkeys).
    set (po1 := assign name v po) in *.
    set (st1 := set_heap _ st).
    assert (Hl1 : heap st1 !! l = Some ol).
    { unfold st1. cbn. by rewrite lookup_alter_ne. }
    assert (Hp1 : heap st1 !! props = Some po1).
    { unfold st1. cbn. by rewrite lookup_alter, decide_True, Hprops by done. }
    destruct (IH (λ p Hp, Hown p (list_elem_of_further _ _ _ Hp)) st1 po1 Hl1 Hp1 Hh1)
      as (po' & -> & Hh' & Hk' & Hcopied & Hkept & Hkeys').
    exists po'. split.
    { assert (Hins : <[props := po']> (alter (assign name v) props (heap st))
                     = <[props := po']> (heap st)).
      { apply map_eq. intros i. rewrite !lookup_insert.
        case_decide; [done|]. by rewrite lookup_alter_ne. }
      unfold st1. cbn [heap set_heap]. rewrite Hins. by destruct st. }
    split; [done|]. split; [congruence|]. split; [|split].
    + intros prop' [->|Hin]%elem_of_cons; [|by apply Hcopied].
      fold name.
      destruct (decide (name ∈ (λ p, getPropName (inl p)) <$> readonly)) as [Hlater|Hlater].
      * apply list_elem_of_fmap in Hlater as (p & Hp & Hin). rewrite Hp. by apply Hcopied.
      * rewrite Hkept, Hset, Hv; [done|].
        intros p Hin Hp. apply Hlater, list_elem_of_fmap. by eauto.
    + intros name' Hname'. rewrite Hkept, Hother; [done| |].
      * apply (Hname' prop). by left.
      * intros p Hin. apply Hname'. by right.
    + intros k Hk. destruct (Hkeys' k Hk) as [Hk1'|(p & Hp & ->)].
      * destruct (Hkeys k Hk1') as [->|?]; [|by left].
        right. exists prop. split; [by left|done].
      * right. exists p. split; [by right|done].
Qed.

Lemma serialize_instance_unfold n l o ch d st entry :
  heap st !! l = Some o → o_kind o = KObject → truthy (o_proxyObjectId o) = false →
  map_get (hostClassRegistry st) (sym_get st (js_get st (VRef l) "constructor") classIdSym)
    = Some entry →
  let instance := entry_descriptor entry ≫= d_instance in
  SuperRPC.processBeforeSerialization (S n) (VRef l) ch d st
  = (objId ← SuperRPC.registerLocalObj (VRef l) (default empty_descriptor instance);
     props ← SuperRPC.literal [];
     for_each
       (λ prop,
          let propName := getPropName (inl prop) in
          st ← get_state;
          v ← SuperRPC.processBeforeSerialization n (js_get st (VRef l) propName) ch None;
          js_set props propName v)
       (default [] (instance ≫= d_readonlyProperties));;
     SuperRPC.literal
       [("_rpc_type", VStr "object");
        ("classId", from_option VStr VUndef (entry_descriptor entry ≫= d_classId));
        ("props", props); ("objId", VStr objId)]) st.
Proof.
  intros Hl Hk Hproxy Hclass instance.
  assert (Hslot : ∀ s, sym_get st (VRef l) s = get_sym s o)
    by (intros ?; unfold sym_get; by rewrite Hl).
  cbn [SuperRPC.processBeforeSerialization]. rewrite bind_run. unfold get_state at 1.
  cbn beta iota. rewrite Hslot. cbn [get_sym]. rewrite Hproxy, Hl, Hk.
  change (lookup_chain (size (heap st)) (heap st) l "constructor")
    with (js_get st (VRef l) "constructor").
  by rewrite Hclass.
Qed.


Lemma lookup_chain_set_sym n s v l (h : gmap loc Obj) l' name :
  lookup_chain n (alter (set_sym s v) l h) l' name = lookup_chain n h l' name.
Proof.
  revert l'. induction n as [|n IH]; intros l'; [done|]. cbn [lookup_chain].
  rewrite lookup_alter. case_decide as Heq.
  - subst l'. destruct (h !! l) as [o|]; cbn; [|done].
    assert (o_props (set_sym s v o) = o_props o ∧ o_hidden (set_sym s v o) = o_hidden o
            ∧ o_proto (set_sym s v o) = o_proto o) as (-> & -> & ->) by (by destruct s).
    destruct (assoc name (o_props o)); [done|]. destruct (assoc name (o_hidden o)); [done|].
    destruct (o_proto o); [apply IH|done].
  - destruct (h !! l') as [o|]; [|done].
    destruct (assoc name (o_props o)); [done|]. destruct (assoc name (o_hidden o)); [done|].
    destruct (o_proto o); [apply IH|done].
Qed.

Lemma js_get_set_sym st s v l obj name :
  js_get (set_heap (alter (set_sym s v) l (heap st)) st) obj name = js_get st obj name.
Proof.
  unfold js_get. destruct obj; try done. cbn [heap set_heap].
  rewrite lookup_chain_set_sym. f_equal.
  rewrite <- !(size_dom (D := gset loc)). f_equal. apply dom_alter_L.
Qed.

(** X21. Receiving [{_rpc_type: 'object', objId, classId, props}] of a class
    whose proxy class exists, for an id without a live proxy, turns the
    [props] object itself into the proxy instance: it keeps its properties,
    gets the prototype of the proxy class and the proxy id, and is registered
    in the weak registry with a dispose hook that sends [obj_died]. *)
Theorem instance_wire_becomes_proxy fuel w o k classId lp po clazz proto ch d st :
  heap st !! w = Some o → is_function st (VRef w) = false →
  js_get st (VRef w) "_rpc_type" = VStr "object" →
  js_get st (VRef w) "objId" = VStr k →
  js_get st (VRef w) "classId" = VStr classId →
  js_get st (VRef w) "props" = VRef lp →
  heap st !! lp = Some po →
  classId ≠ "Promise" →
  ProxyObjectRegistry.get st k = VUndef →
  proxyClassRegistry st !! classId = Some clazz →
  js_get st (VRef clazz) "prototype" = VRef proto →
  ∃ st' po',
    SuperRPC.processAfterDeserialization (S fuel) (VRef w) ch d st = Ret (VRef lp) st'
    ∧ heap st' !! lp = Some po'
    ∧ o_props po' = o_props po
    ∧ o_proto po' = Some proto
    ∧ o_proxyObjectId po' = VStr k
    ∧ o_rpc_disposed po' = VBool false
    ∧ registry st' !! k = Some lp
    ∧ (∃ dispose token,
         o_rpc_disposeFunc po' = VRef dispose
         ∧ SuperRPC.code_of st' (VRef dispose)
           = Some (DisposeFunc k token lp (Some (SendObjectDied k ch))))
    ∧ sent st' = sent st.
Proof.
  intros Hw Hfn Htag Hid Hclass Hprops Hlp Hnot Hget Hclazz Hproto.
  cbn [SuperRPC.processAfterDeserialization]. run. rewrite Hw, Hfn, Htag.
  rewrite bool_decide_eq_true_2 by done. rewrite Hid, Hclass, Hprops.
  unfold SuperRPC.getOrCreateProxyInstance. run. rewrite Hget. cbn [truthy nullish]. run.
  rewrite bool_decide_eq_false_2 by done.
  unfold sym_set, update_obj. run.
  set (st1 := set_heap (alter (set_sym proxyObjectId (VStr k)) lp (heap st)) st).
  assert (Hcached : SuperRPC.getProxyClass classId st1 = Ret (VRef clazz) st1).
  { unfold SuperRPC.getProxyClass. run.
    change (proxyClassRegistry st1) with (proxyClassRegistry st). by rewrite Hclazz. }
  rewrite Hcached. run.
  unfold st1 at 1. rewrite js_get_set_sym, Hproto. run. fold st1.
  set (st2 := set_heap (alter (set_proto (Some proto)) lp (heap st1)) st1).
  set (po2 := set_proto (Some proto) (set_sym proxyObjectId (VStr k) po)).
  assert (Hlp2 : heap st2 !! lp = Some po2).
  { unfold st2, st1. cbn. by rewrite !lookup_alter, !decide_True, Hlp by done. }
  destruct (register_full k lp (Some (SendObjectDied k ch)) st2 _ Hlp2)
    as (st3 & token & dispose & -> & _ & Hlp3 & _ & Hcode & Hreg & _ & Hsent & _).
  run. eexists st3, _. split; [done|]. split; [exact Hlp3|].
  split; [by destruct po|]. split; [by destruct po|]. split; [by destruct po|].
  split; [by destruct po|]. split; [by rewrite Hreg, lookup_insert_eq|].
  split; [cbn; by eauto|]. by rewrite Hsent.
Qed.

End instances.

(** ** Deserialization leaves functions functions *)

Section keeps.
Context `{!Env}.

Lemma Keeps_ret {A} (a : A) : Keeps (mret a).
Proof. intros st b st' [_ <-]%ret_Ret_inv v Hv. exact Hv. Qed.

Lemma Keeps_bind {A B} (m : M A) (f : A → M B) :
  Keeps m → (∀ a, Keeps (f a)) → Keeps (m ≫= f).
Proof.
  intros Hm Hf st b st' (a & st1 & H1 & H2)%bind_Ret_inv v Hv.
  eapply Hf; [exact H2|]. eapply Hm; [exact H1|exact Hv].
Qed.

Lemma Keeps_fmap {A B} (g : A → B) (m : M A) : Keeps m → Keeps (g <$> m).
Proof. intros Hm st b st' (a & H1 & _)%fmap_Ret_inv. by eapply Hm. Qed.

Lemma Keeps_get {A} (k : State → M A) : (∀ s, Keeps (k s)) → Keeps (get_state ≫= k).
Proof. intros Hk st a st' Hrun. by eapply (Hk st). Qed.

Lemma Keeps_throw {A} e : Keeps (throw e : M A).
Proof. by intros st a st'. Qed.

Lemma Keeps_halt {A} w : Keeps (halt w : M A).
Proof. by intros st a st'. Qed.

Lemma Keeps_modify (f : State → State) : (∀ st, heap (f st) = heap st) → Keeps (modify f).
Proof.
  intros Hf st a st' Hrun v Hv. unfold modify in Hrun. simplify_eq.
  destruct v; try done. unfold is_function in *. by rewrite Hf.
Qed.

Lemma Keeps_alloc o : Keeps (alloc o).
Proof.
  intros st a st' Hrun v Hv. unfold alloc in Hrun. simplify_eq.
  destruct v as [| | | | | |l]; try done. unfold is_function in *. cbn.
  destruct (heap st !! l) as [o'|] eqn:Hl; [|done].
  rewrite lookup_insert_ne; [by rewrite Hl|]. intros Heq. by eapply fresh_loc_ne.
Qed.

Lemma Keeps_update_obj l f : (∀ o, o_kind (f o) = o_kind o) → Keeps (update_obj l f).
Proof.
  intros Hf st a st' Hrun v Hv. unfold update_obj, modify in Hrun. simplify_eq.
  destruct v as [| | | | | |l']; try done. unfold is_function in *. cbn.
  rewrite lookup_alter. case_decide; [subst|done].
  destruct (heap st !! l'); [cbn in *; by rewrite Hf|done].
Qed.

Lemma Keeps_js_set obj name v : Keeps (js_set obj name v).
Proof.
  destruct obj; try apply Keeps_ret. apply Keeps_update_obj. intros o. unfold assign.
  by repeat case_match.
Qed.

Lemma Keeps_sym_set obj s v : Keeps (sym_set obj s v).
Proof.
  destruct obj; try apply Keeps_ret. apply Keeps_update_obj. intros o. by destruct s.
Qed.

Lemma Keeps_for_each {A} (body : A → M unit) xs : (∀ x, Keeps (body x)) → Keeps (for_each body xs).
Proof.
  intros Hbody. induction xs as [|x xs IH]; [apply Keeps_ret|].
  apply Keeps_bind; [apply Hbody|by intros _].
Qed.

Lemma Keeps_map_indexed {A B} (f : A → nat → M B) idx args :
  (∀ a i, Keeps (f a i)) → Keeps (map_indexed f idx args).
Proof.
  intros Hf. revert idx. induction args as [|a args IH]; intros idx; [apply Keeps_ret|].
  apply Keeps_bind; [apply Hf|]. intros b. apply Keeps_bind; [apply IH|]. intros bs. apply Keeps_ret.
Qed.

Ltac keeps_step :=
  match goal with
  | |- Keeps (mret _) => apply Keeps_ret
  | |- Keeps (throw _) => apply Keeps_throw
  | |- Keeps (halt _) => apply Keeps_halt
  | |- Keeps (alloc _) => apply Keeps_alloc
  | |- Keeps (js_set _ _ _) => apply Keeps_js_set
  | |- Keeps (sym_set _ _ _) => apply Keeps_sym_set
  | |- Keeps (get_state ≫= _) => apply Keeps_get; intros ?
  | |- Keeps (_ ≫= _) => apply Keeps_bind; [|intros ?]
  | |- Keeps (_ <$> _) => apply Keeps_fmap
  | |- Keeps (for_each _ _) => apply Keeps_for_each; intros ?
  | |- Keeps (modify _) => apply Keeps_modify; intros ?; reflexivity
  | |- Keeps (update_obj _ _) => apply Keeps_update_obj; intros ?; reflexivity
  | |- Keeps (match ?x with _ => _ end) => destruct x
  | |- Keeps (if ?b then _ else _) => destruct b
  | |- Keeps (let _ := _ in _) => cbn zeta
  end.

Ltac keeps := repeat keeps_step.

Lemma Keeps_literal fields : Keeps (SuperRPC.literal fields).
Proof. unfold SuperRPC.literal. keeps. Qed.

Lemma Keeps_createProxyFunction objId prop action defaultCallType replyChannel :
  Keeps (SuperRPC.createProxyFunction objId prop action defaultCallType replyChannel).
Proof.
  unfold SuperRPC.createProxyFunction, SuperRPC.createVoidProxyFunction,
    SuperRPC.createSyncProxyFunction, SuperRPC.createAsyncProxyFunction. keeps.
Qed.

Lemma Keeps_defineProperty obj name get set : Keeps (SuperRPC.defineProperty obj name get set).
Proof. unfold SuperRPC.defineProperty. keeps. Qed.

Lemma Keeps_register objId obj dispose : Keeps (ProxyObjectRegistry.register objId obj dispose).
Proof. unfold ProxyObjectRegistry.register. keeps. Qed.

Lemma Keeps_createProxyObject objId descriptor obj :
  Keeps (SuperRPC.createProxyObject objId descriptor obj).
Proof.
  unfold SuperRPC.createProxyObject.
  keeps; try apply Keeps_literal; try apply Keeps_createProxyFunction;
    try apply Keeps_defineProperty; keeps.
Qed.

Lemma Keeps_getProxyClass classId : Keeps (SuperRPC.getProxyClass classId).
Proof.
  unfold SuperRPC.getProxyClass.
  keeps; try apply Keeps_createProxyFunction; try apply Keeps_createProxyObject; keeps.
Qed.

Lemma Keeps_getOrCreateProxyInstance objId classId props ch :
  Keeps (SuperRPC.getOrCreateProxyInstance objId classId props ch).
Proof.
  unfold SuperRPC.getOrCreateProxyInstance.
  keeps; try apply Keeps_literal; try apply Keeps_getProxyClass; try apply Keeps_register; keeps.
Qed.

Lemma Keeps_getOrCreateProxyFunction objId ch d :
  Keeps (SuperRPC.getOrCreateProxyFunction objId ch d).
Proof.
  unfold SuperRPC.getOrCreateProxyFunction.
  keeps; try apply Keeps_createProxyFunction; try apply Keeps_register; keeps.
Qed.

Lemma Keeps_processAfterDeserialization fuel obj ch d :
  Keeps (SuperRPC.processAfterDeserialization fuel obj ch d).
Proof.
  revert obj d. induction fuel as [|fuel IH]; intros obj d; [apply Keeps_halt|].
  cbn [SuperRPC.processAfterDeserialization].
  keeps; try apply Keeps_getOrCreateProxyInstance; try apply Keeps_getOrCreateProxyFunction;
    try apply IH; keeps.
Qed.

Lemma Keeps_deserializeFunctionArgs fuel func args ch :
  Keeps (SuperRPC.deserializeFunctionArgs fuel func args ch).
Proof.
  apply Keeps_map_indexed. intros a i. apply Keeps_processAfterDeserialization.
Qed.

End keeps.

(** ** Events on the host *)

Section events.
Context `{!Env}.

(** X22. An [obj_died] message removes the id from the host object
    registry and, apart from recording the context, touches nothing else;
    afterwards a property or method call for that id is answered with the
    error "Error: No object found with ID '<id>'". *)
Theorem host_object_dies fuel k replyChannel context st :
  let st' := set_hostObjectRegistry (delete k (hostObjectRegistry st))
               (set_currentContext context st) in
  SuperRPC.messageReceived fuel (mkMessage true (obj_died (VStr k))) replyChannel context st
    = Ret tt st'
  ∧ ∀ fuel' action callType prop args callId ch,
      action ≠ fn_call → action ≠ ctor_call →
      SuperRPC.callTargetFunction fuel' action callType (VStr k) prop args callId ch st'
      = Ret tt (set_sent
                  (sent st' ++ error_reply_sent callType
                     ("Error: No object found with ID '" +:+ k +:+ "'") callId ch) st').
Proof.
  intros st'. split; [apply messageReceived_obj_died|].
  intros fuel' action callType prop args callId ch Hfn Hctor.
  apply (callTargetFunction_throws fuel' action callType (VStr k) prop args callId ch st'
           (Error ("No object found with ID '" +:+ k +:+ "'")) st');
    [|by apply Error_string].
  unfold targetEntry. rewrite !bool_decide_eq_false_2 by done. unfold st'. cbn.
  by rewrite lookup_delete_eq.
Qed.

Lemma split_underscore_cons s : ∃ w ws, split_underscore s = w :: ws.
Proof.
  induction s as [|c s (w & ws & IH)]; cbn; [by eauto|].
  case_decide; [by eauto|]. rewrite IH. by eauto.
Qed.

(** X23. A [method_call] named [add_<event>] or [remove_<event>], for which
    the target has neither a function descriptor nor a truthy property, is
    mapped to the target's [addEventListener] or [removeEventListener]: that
    function is applied with [this] being the target, the event name as first
    argument, and then the arguments deserialized with the event descriptor
    looked up in the absent function descriptor; the reply follows the call
    type as for a function call. *)
Theorem event_subscription_mapping fuel objId which rest args callId ch st entry listener :
  which = "add" ∨ which = "remove" →
  let prop := which +:+ "_" +:+ rest in
  let eventName := default "" (head (split_underscore rest)) in
  map_get (hostObjectRegistry st) objId = Some entry →
  let target := entry_target entry in
  getFunctionDescriptor (entry_descriptor entry) (VStr prop) = None →
  truthy (js_get st target prop) = false →
  eventName ≠ "" →
  js_get st target (which +:+ "EventListener") = listener →
  is_function st listener = true →
  let called :=
    (args' ← SuperRPC.deserializeFunctionArgs fuel (getEventDescriptor None eventName) args ch;
     SuperRPC.apply fuel listener target (VStr eventName :: args')) st in
  SuperRPC.callTargetFunction fuel method_call Void objId (VStr prop) args callId ch st
    = match called with
      | Ret _ st' | Exn _ st' => Ret tt st'
      | Halt w => Halt w
      end
  ∧ (∀ v st1 w st2,
       called = Ret v st1 →
       SuperRPC.processBeforeSerialization fuel v ch None st1 = Ret w st2 →
       SuperRPC.callTargetFunction fuel method_call Sync objId (VStr prop) args callId ch st
       = Ret tt (set_sent (sent st2 ++ handed ViaSync ch (success_reply Sync w callId)) st2))
  ∧ (∀ v st1,
       called = Ret v st1 →
       SuperRPC.callTargetFunction fuel method_call Async objId (VStr prop) args callId ch st
       = Promise_resolve_then v (ReplyCall callId ch) st1).
Proof.
  intros Hwhich prop eventName Hentry target Hnone Hfalsy Hevent Hlistener Hfn called.
  destruct (split_underscore_cons rest) as (e & es & Hsplit).
  assert (Hparts : split_underscore prop = which :: e :: es).
  { unfold prop. destruct Hwhich as [-> | ->]; simpl; unfold String.append; by rewrite Hsplit. }
  assert (He : eventName = e) by (unfold eventName; by rewrite Hsplit).
  apply call_outcome. intros callType.
  unfold targetEntry. rewrite !bool_decide_eq_false_2 by done. cbn [orb].
  rewrite Hentry. unfold SuperRPC.callTargetBody. run. fold target.
  cbn [js_String]. rewrite Hnone.
  rewrite (bool_decide_eq_false_2 (is_Some None)) by (by intros [? ?]).
  rewrite Hfalsy. cbn [negb andb]. rewrite Hparts. cbn [lookup list_lookup default].
  rewrite <- He.
  rewrite (bool_decide_eq_false_2 (eventName = "")) by done. cbn [negb andb].
  assert (Hor : bool_decide (which = "add") || bool_decide (which = "remove") = true).
  { destruct Hwhich as [-> | ->]; [by rewrite bool_decide_eq_true_2|].
    rewrite (bool_decide_eq_true_2 ("remove" = "remove")) by done. by rewrite orb_true_r. }
  unfold id. rewrite Hor. rewrite Hlistener. unfold SuperRPC.typeof_function. rewrite Hfn. run.
  subst called. rewrite (bind_run (SuperRPC.deserializeFunctionArgs _ _ _ _)).
  destruct (SuperRPC.deserializeFunctionArgs _ _ _ _ _) as [args' st1| |] eqn:Hargs; [|done..].
  run. rewrite (Keeps_deserializeFunctionArgs _ _ _ _ _ _ _ Hargs _ Hfn). cbn [negb]. run.
  destruct (SuperRPC.apply _ _ _ _ _); [|done..]. by destruct callType.
Qed.

End events.

(** ** Events on a proxy object *)

Section listeners.
Context `{!Env}.

Lemma eventListenerFunction_new fuel fn (add : bool) objId descriptor eventNames
    (fns : gmap string loc) name listener st :
  VStr name ∈ eventNames →
  fns !! name = None →
  let prop := (if add then "add_" else "remove_") +:+ name in
  let descr :=
    set_d_name (Some prop) (default empty_descriptor (getEventDescriptor descriptor name)) in
  let mode := spec_callType (d_returns descr) Async (channel st) in
  let f := fresh (dom (heap st)) in
  let st1 :=
    set_heap
      (alter (set_kind (KFunction
                (EventListener add objId descriptor eventNames (<[name := f]> fns)))) fn
         (<[f := new_obj (KFunction (proxy_code mode objId descr method_call (channel st))) []]>
            (heap st))) st in
  SuperRPC.eventListenerFunction fuel fn add objId descriptor eventNames fns
    [VStr name; listener] st
  = (SuperRPC.callProxyFunction fuel (VRef f) VUndef [listener];; mret VUndef) st1.
Proof.
  intros Hin Hnew prop descr mode f st1.
  unfold SuperRPC.eventListenerFunction. cbn [lookup list_lookup default].
  rewrite bool_decide_eq_true_2 by done. cbn [negb]. unfold id. cbn beta iota. rewrite Hnew. cbn beta iota.
  fold prop descr.
  rewrite (bind_run (_ ≫= _) _ st).
  rewrite (bind_run (SuperRPC.createProxyFunction _ _ _ _ _) _ st).
  rewrite createProxyFunction_run. cbn beta iota zeta.
  unfold update_obj, modify. rewrite bind_run. reflexivity.
Qed.

(** X24. The first [addEventListener] / [removeEventListener] call of a
    proxy object for a known event whose descriptor declares no return
    behaviour, on a channel with an async transport, creates an async proxy
    function named [add_<event>] / [remove_<event>] and remembers it for the
    event.  On the proxy of an object id it sends the [method_call] request
    with the serialized listener and returns undefined; on a prototype
    created without an object id it sends nothing and registers no callback:
    the inner call is made without a receiver, so its promise is rejected. *)
Theorem listener_subscribes fuel fn (add : bool) objId descriptor eventNames
    (fns : gmap string loc) name listener st :
  kind_of st fn = Some (KFunction (EventListener add objId descriptor eventNames fns)) →
  VStr name ∈ eventNames →
  fns !! name = None →
  d_returns (default empty_descriptor (getEventDescriptor descriptor name)) = None →
  has_sendAsync (channel st) = true →
  let prop := (if add then "add_" else "remove_") +:+ name in
  let descr :=
    set_d_name (Some prop) (default empty_descriptor (getEventDescriptor descriptor name)) in
  let f := fresh (dom (heap st)) in
  let st1 :=
    set_heap
      (alter (set_kind (KFunction
                (EventListener add objId descriptor eventNames (<[name := f]> fns)))) fn
         (<[f := new_obj (KFunction (AsyncProxy objId descr method_call (channel st))) []]>
            (heap st))) st in
  let p := fresh (dom (heap st1)) in
  let started :=
    set_callId (S (callId st))
      (set_heap (<[p := new_obj (KPromise Pending []) []]> (heap st1)) st1) in
  let outcome :=
    SuperRPC.eventListenerFunction fuel fn add objId descriptor eventNames fns
      [VStr name; listener] st in
  (∀ k args' st2,
     objId = Some k →
     SuperRPC.serializeFunctionArgs fuel (Some descr) [listener] (channel st) started
       = Ret args' st2 →
     outcome
     = Ret VUndef
         (set_asyncCallbacks (<[pretty (callId st2) := p]> (asyncCallbacks st2))
            (set_sent
               (sent st2 ++ handed ViaAsync (channel st)
                  (call method_call Async (VStr k) (VStr prop) args'
                        (VStr (pretty (S (callId st))))))
               st2)))
  ∧ (objId = None →
     ∃ e st',
       outcome = Ret VUndef st'
       ∧ kind_of st' p = Some (KPromise (Rejected e) [])
       ∧ sent st' = sent st
       ∧ asyncCallbacks st' = asyncCallbacks st).
Proof.
  intros Hfn Hin Hnew Hreturns Hasync prop descr f st1 p started outcome.
  assert (Hne : fn ≠ f).
  { unfold kind_of in Hfn. destruct (heap st !! fn) as [o|] eqn:Ho; [|done].
    by eapply fresh_loc_ne. }
  assert (Hrun : outcome
    = (SuperRPC.callProxyFunction fuel (VRef f) VUndef [listener];; mret VUndef) st1).
  { subst outcome.
    rewrite (eventListenerFunction_new fuel fn add objId descriptor eventNames fns name
               listener st Hin Hnew).
    cbn zeta. unfold spec_callType. cbn [d_returns set_d_name]. rewrite Hreturns.
    cbn [default from_option downgrade]. rewrite Hasync. reflexivity. }
  assert (Hf : heap st1 !! f
               = Some (new_obj (KFunction (AsyncProxy objId descr method_call (channel st))) [])).
  { unfold st1. cbn [heap set_heap]. rewrite lookup_alter_ne by done.
    by rewrite lookup_insert_eq. }
  assert (Hcode : SuperRPC.code_of st1 (VRef f)
                  = Some (AsyncProxy objId descr method_call (channel st))).
  { unfold SuperRPC.code_of, kind_of. by rewrite Hf. }
  assert (Hlive : truthy (sym_get st1 (VRef f) rpc_disposed) = false).
  { unfold sym_get. by rewrite Hf. }
  assert (Hcall : SuperRPC.callProxyFunction fuel (VRef f) VUndef [listener] st1
                  = SuperRPC.asyncProxyFunction fuel f objId descr method_call (channel st)
                      VUndef [listener] st1).
  { unfold SuperRPC.callProxyFunction. run. by rewrite Hcode. }
  rewrite Hrun, bind_run, Hcall. split.
  - intros k args' st2 -> Hargs.
    rewrite (asyncProxyFunction_run fuel f (Some k) descr method_call (channel st) VUndef
               [listener] st1 (VStr k) started args' st2 Hlive eq_refl Hargs).
    reflexivity.
  - intros ->.
    assert (Hsent : sent st1 = sent st) by done.
    assert (Hcallbacks : asyncCallbacks st1 = asyncCallbacks st) by done.
    clearbody st1. clear started.
    unfold SuperRPC.asyncProxyFunction, alloc. run. fold p.
    assert (Hlive' : truthy (sym_get (set_heap (<[p := new_obj (KPromise Pending []) []]>
                                         (heap st1)) st1) (VRef f) rpc_disposed) = false).
    { unfold sym_get. cbn [heap set_heap].
      rewrite lookup_insert_ne by (symmetry; by eapply fresh_loc_ne). by rewrite Hf. }
    rewrite Hlive'. run. unfold SuperRPC.receiverId. run. cbn [nullish]. run.
    unfold promise_reject, settle, update_obj, kind_of. run. cbn.
    rewrite lookup_insert_eq. cbn. run. cbn.
    rewrite lookup_insert_eq. cbn. run.
    eexists _, _. split; [reflexivity|]. split; [|done].
    unfold kind_of. cbn. rewrite lookup_alter_eq, lookup_insert_eq. reflexivity.
Qed.

End listeners.

(** * The properties on the sample endpoints *)

Section examples.
#[local] Existing Instance sample_env.


(** A class with a constructor part and a static part occupies ["Counter"] in
    the three registries. *)
Lemma registerHostClass_registries_witness :
  ∃ st',
    SuperRPC.registerHostClass "Counter" (VRef 0) class_descriptor function_side = Ret tt st'
    ∧ is_Some (hostClassRegistry st' !! "Counter")
    ∧ is_Some (hostObjectRegistry st' !! "Counter")
    ∧ is_Some (hostFunctionRegistry st' !! "Counter")
    ∧ sym_get st' (VRef 0) classIdSym = VStr "Counter"
    ∧ sym_get st' (VRef 0) hostObjectId = VStr "Counter".
Proof.
  assert (Hctor : heap function_side !! 0 = Some (new_obj (KFunction (UserFunction 0)) []))
    by (vm_compute; reflexivity).
  destruct (registerHostClass_registries "Counter" 0 class_descriptor function_side _ Hctor)
    as (st' & Hrun & Hclass & Hstamp & Hstatic & Hctor' & _).
  destruct (Hstatic counter_descriptor eq_refl) as [Hobject Hid].
  destruct (Hctor' empty_descriptor eq_refl) as [Hfunction _].
  exists st'. rewrite Hclass, Hobject, Hfunction. by repeat split.
Defined.

(** The disposed proxy function of ["f"], in each of the three call modes. *)
Lemma disposed_proxy_fails_witness :
  SuperRPC.apply 1 (VRef 0) VUndef [VNum 1] (disposed_side Sync)
    = Exn SuperRPC.disposedError (disposed_side Sync)
  ∧ SuperRPC.apply 1 (VRef 0) VUndef [VNum 1] (disposed_side Void)
    = Exn SuperRPC.disposedError (disposed_side Void)
  ∧ ∃ p st',
      SuperRPC.apply 1 (VRef 0) VUndef [VNum 1] (disposed_side Async) = Ret (VRef p) st'
      ∧ kind_of st' p = Some (KPromise (Rejected SuperRPC.disposedError) [])
      ∧ sent st' = sent (disposed_side Async).
Proof.
  split; [|split].
  - apply (disposed_proxy_fails 1 (disposed_side Sync) 0
             (SyncProxy (Some "f") (name_descriptor None) fn_call both_ways));
      vm_compute; reflexivity.
  - apply (disposed_proxy_fails 1 (disposed_side Void) 0
             (VoidProxy (Some "f") (name_descriptor None) fn_call both_ways));
      vm_compute; reflexivity.
  - destruct (disposed_proxy_fails 1 (disposed_side Async) 0
                (AsyncProxy (Some "f") (name_descriptor None) fn_call both_ways)
                VUndef [VNum 1]) as (p & st' & Hrun & _ & Hkind & Hsent & _);
      [vm_compute; reflexivity..|].
    by exists p, st'.
Defined.


(** The function at location 0 crosses the boundary as ["id0"], and [obj_died]
    for ["id0"] leaves its host function entry in place. *)
Lemma obj_died_keeps_host_function_witness :
  ∃ w st1 st2,
    SuperRPC.processBeforeSerialization 1 (VRef 0) both_ways None function_side
      = Ret (VRef w) st1
    ∧ heap st1 !! w = Some (function_wire "id0")
    ∧ hostFunctionRegistry st1 !! "id0" = Some (mkEntry (VRef 0) None)
    ∧ SuperRPC.messageReceived 1 (mkMessage true (obj_died (VStr "id0"))) None VUndef st1
      = Ret tt st2
    ∧ hostFunctionRegistry st2 !! "id0" = Some (mkEntry (VRef 0) None)
    ∧ hostObjectRegistry st2 !! "id0" = None.
Proof.
  assert (Hid : objectIdGenerator (idCount function_side) = "id0")
    by (vm_compute; reflexivity).
  rewrite <- Hid.
  apply (obj_died_keeps_host_function 0 1 0 (new_obj (KFunction (UserFunction 0)) [])
           (UserFunction 0) both_ways None None VUndef function_side);
    vm_compute; reflexivity.
Defined.



(** The getter of a proxied property without declared return behaviour is a
    sync function, where a default of ['async'] would make it an async one. *)
Lemma getter_default_is_sync :
  ∃ obj getter setter st' c,
    SuperRPC.createProxyObject (Some "obj") (Some counter_descriptor) None
      (new_SuperRPC both_ways) = Ret (VRef obj) st'
    ∧ o_accessors <$> heap st' !! obj = Some [("counter", (getter, Some setter))]
    ∧ SuperRPC.code_of st' (VRef getter) = Some c
    ∧ code_callType c = Some Sync
    ∧ claimed_callType c = Some Async.
Proof.
  eexists _, _, _, _, _. split; [vm_compute; reflexivity|].
  split; [vm_compute; reflexivity|]. split; [vm_compute; reflexivity|].
  split; reflexivity.
Qed.

(** A call to the unknown id ["nope"] is answered with the error string; that
    answer rejects the pending promise of call ["1"], and a sync proxy call
    that gets it throws an [Error] with the same string. *)
Lemma remote_error_round_trip_witness :
  SuperRPC.callTargetFunction 1 fn_call Async (VStr "nope") VUndef [] (VStr "1")
    both_ways (new_SuperRPC both_ways)
    = Ret tt (set_sent [(ViaAsync, both_ways, error_reply Async missing (VStr "1"))]
                       (new_SuperRPC both_ways))
  ∧ (∃ st',
       SuperRPC.messageReceived 1 (error_reply Async missing (VStr "1")) None VUndef
         pending_side = Ret tt st'
       ∧ kind_of st' 3 = Some (KPromise (Rejected (VStr missing)) [])
       ∧ asyncCallbacks st' !! "1" = None)
  ∧ ∃ st',
      @SuperRPC.syncProxyFunction refusing_env 1 0 (Some "f") (name_descriptor None) fn_call
        both_ways VUndef [] (caller_side Sync)
      = Exn (VError "Error" missing) st'.
Proof.
  destruct (remote_error_round_trip 0 missing (VStr "1")) as (Hhost & _ & _ & Hasync).
  destruct (@remote_error_round_trip refusing_env 1 missing VUndef) as (_ & _ & Hsync & _).
  split; [|split].
  - apply (Hhost fn_call Async (VStr "nope") VUndef [] both_ways (new_SuperRPC both_ways)
             (Error "No object found with ID 'nope'") (new_SuperRPC both_ways));
      vm_compute; reflexivity.
  - apply (Hasync "1" None VUndef pending_side 3 []); vm_compute; reflexivity.
  - eexists.
    apply (Hsync 0 (Some "f") (name_descriptor None) fn_call both_ways VUndef []
             (caller_side Sync) (VStr "f") (caller_side Sync) [] (caller_side Sync));
      vm_compute; reflexivity.
Defined.



End examples.

(** * The further properties on the sample endpoints *)

Section more_examples.
#[local] Existing Instance sample_env.

(** A method call to the unknown id ["nope"] is answered with the error. *)
Lemma call_to_unknown_id_witness :
  SuperRPC.callTargetFunction 1 method_call Sync (VStr "nope") (VStr "run") [] VUndef
    both_ways service_side
  = Ret tt (set_sent [(ViaSync, both_ways, error_reply Sync missing VUndef)] service_side).
Proof.
  apply (call_to_unknown_id 1 method_call Sync (VStr "nope") (VStr "run") [] VUndef both_ways
           service_side).
  vm_compute; reflexivity.
Defined.


(** A void call of the host function ["fn"] runs it and sends nothing. *)
Lemma fn_call_applies_target_witness :
  SuperRPC.callTargetFunction 1 fn_call Void (VStr "fn") VUndef [VNum 1] VUndef
    both_ways service_side = Ret tt service_side
  ∧ SuperRPC.callTargetFunction 1 fn_call Sync (VStr "fn") VUndef [VNum 1] VUndef
      both_ways service_side
    = Ret tt (set_sent [(ViaSync, both_ways, mkMessage true (fn_reply Sync true VUndef VUndef))]
                       service_side).
Proof.
  destruct (fn_call_applies_target 1 (VStr "fn") VUndef [VNum 1] VUndef both_ways service_side
              (mkEntry (VRef 0) (Some (set_d_type TFunction empty_descriptor))))
    as (Hvoid & Hsync & _); [vm_compute; reflexivity|].
  split.
  - exact Hvoid.
  - apply (Hsync VUndef service_side VUndef service_side); vm_compute; reflexivity.
Defined.

(** On ["svc"], [n] is not a function and [run] is one. *)
Lemma method_call_on_target_witness :
  SuperRPC.callTargetFunction 1 method_call Sync (VStr "svc") (VStr "n") [] VUndef
    both_ways service_side
  = Ret tt (set_sent
              [(ViaSync, both_ways,
                error_reply Sync "Error: Property n is not a function on object svc" VUndef)]
              service_side)
  ∧ SuperRPC.callTargetFunction 1 method_call Void (VStr "svc") (VStr "run") [] VUndef
      both_ways service_side = Ret tt service_side.
Proof.
  split.
  - destruct (method_call_on_target 1 (VStr "svc") (VStr "n") [] VUndef both_ways service_side
                (mkEntry (VRef 1) (Some (set_d_type TObject empty_descriptor))))
      as [Hnot _]; [vm_compute; reflexivity|right; vm_compute; reflexivity|].
    apply (Hnot eq_refl Sync).
  - destruct (method_call_on_target 1 (VStr "svc") (VStr "run") [] VUndef both_ways service_side
                (mkEntry (VRef 1) (Some (set_d_type TObject empty_descriptor))))
      as [_ Hfn]; [vm_compute; reflexivity|right; vm_compute; reflexivity|].
    destruct (Hfn eq_refl) as [Hvoid _]. exact Hvoid.
Defined.

(** The sync proxy function of ["f"]: without an answer it throws, and with
    the answer 7 it returns 7. *)
Lemma sync_call_outcomes_witness :
  SuperRPC.syncProxyFunction 1 0 (Some "f") (name_descriptor None) fn_call both_ways VUndef
    [VNum 1] (caller_side Sync)
  = Exn (Error "No response received")
        (set_sent [(ViaSync, both_ways,
                    mkMessage true (call fn_call Sync (VStr "f") VUndef [VNum 1] VUndef))]
                  (caller_side Sync))
  ∧ @SuperRPC.syncProxyFunction answering_env 1 0 (Some "f") (name_descriptor None) fn_call
      both_ways VUndef [VNum 1] (caller_side Sync)
    = Ret (VNum 7)
          (set_sent [(ViaSync, both_ways,
                      mkMessage true (call fn_call Sync (VStr "f") VUndef [VNum 1] VUndef))]
                    (caller_side Sync)).
Proof.
  split.
  - destruct (sync_call_outcomes 1 0 (Some "f") (name_descriptor None) fn_call both_ways VUndef
                [VNum 1] (caller_side Sync) (VStr "f") (caller_side Sync) [VNum 1]
                (caller_side Sync)) as [Hnone _]; [vm_compute; reflexivity..|].
    apply Hnone. reflexivity.
  - destruct (@sync_call_outcomes answering_env 1 0 (Some "f") (name_descriptor None) fn_call
                both_ways VUndef [VNum 1] (caller_side Sync) (VStr "f") (caller_side Sync)
                [VNum 1] (caller_side Sync)) as (_ & _ & Hreply); [vm_compute; reflexivity..|].
    rewrite (Hreply Sync (VNum 7) VUndef eq_refl). reflexivity.
Defined.

(** The void and the async proxy function of ["f"], called with 1. *)
Lemma proxy_call_sends_witness :
  SuperRPC.voidProxyFunction 1 0 (Some "f") (name_descriptor None) fn_call both_ways VUndef
    [VNum 1] (caller_side Void)
  = Ret VUndef
        (set_sent [(ViaAsync, both_ways,
                    mkMessage true (call fn_call Void (VStr "f") VUndef [VNum 1] VUndef))]
                  (caller_side Void))
  ∧ ∃ p st',
      SuperRPC.asyncProxyFunction 1 0 (Some "f") (name_descriptor None) fn_call both_ways
        VUndef [VNum 1] (caller_side Async) = Ret (VRef p) st'
      ∧ kind_of st' p = Some (KPromise Pending [])
      ∧ sent st' = [(ViaAsync, both_ways,
                     mkMessage true (call fn_call Async (VStr "f") VUndef [VNum 1] (VStr "1")))]
      ∧ asyncCallbacks st' !! "1" = Some p.
Proof.
  split.
  - destruct (proxy_call_sends 1 0 (Some "f") (name_descriptor None) fn_call both_ways VUndef
                [VNum 1] (caller_side Void)) as [Hvoid _]; [vm_compute; reflexivity|].
    apply (Hvoid (VStr "f") (caller_side Void) [VNum 1] (caller_side Void));
      vm_compute; reflexivity.
  - destruct (proxy_call_sends 1 0 (Some "f") (name_descriptor None) fn_call both_ways VUndef
                [VNum 1] (caller_side Async)) as [_ Hasync]; [vm_compute; reflexivity|].
    cbn zeta in Hasync. eexists _, _. split.
    + eapply (Hasync (VStr "f") _ [VNum 1]); reflexivity.
    + split; [vm_compute; reflexivity|]. split; vm_compute; reflexivity.
Defined.


(** The proxy class of ["Point"] is built once. *)
Lemma getProxyClass_cached_witness :
  ∃ clazz st',
    SuperRPC.getProxyClass "Point" class_client = Ret (VRef clazz) st'
    ∧ proxyClassRegistry st' !! "Point" = Some clazz
    ∧ SuperRPC.getProxyClass "Point" st' = Ret (VRef clazz) st'.
Proof.
  destruct (SuperRPC.getProxyClass "Point" class_client) as [v st'| |] eqn:Hrun;
    [|by vm_compute in Hrun..].
  destruct (getProxyClass_cached "Point" class_client v st' Hrun) as (clazz & -> & Hreg & Hagain).
  by exists clazz, st'.
Defined.

(** Registering the object at location 3 as ["g"] and deleting ["g"]. *)
Lemma registry_round_trip_witness :
  ∃ st1 st2,
    ProxyObjectRegistry.register "g" 3 None proxy_pair = Ret tt st1
    ∧ ProxyObjectRegistry.get st1 "g" = VRef 3
    ∧ ProxyObjectRegistry.get st1 "f" = VRef 0
    ∧ ProxyObjectRegistry.delete "g" st1 = Ret tt st2
    ∧ ProxyObjectRegistry.get st2 "g" = VUndef
    ∧ ProxyObjectRegistry.get st2 "f" = VRef 0.
Proof.
  assert (Hlive : 3 ∉ collected proxy_pair).
  { intros Hin. vm_compute in Hin. discriminate Hin. }
  destruct (registry_round_trip "g" 3 None proxy_pair Hlive)
    as (st1 & st2 & Hreg & Hget & _ & Hdel & Hgone & _ & Hother).
  destruct (Hother "f") as (Hf1 & _ & Hf2 & _); [done|].
  exists st1, st2. rewrite Hf1, Hf2.
  split; [exact Hreg|]. split; [exact Hget|]. split; [vm_compute; reflexivity|].
  split; [exact Hdel|]. split; [exact Hgone|]. vm_compute; reflexivity.
Defined.

(** The objects at locations 3 and 1 are registered as ["g"] in turn; the
    dispose function of the first removes ["g"]. *)
Lemma stale_dispose_unregisters_witness :
  ∃ st1 st2 fn1 st3,
    ProxyObjectRegistry.register "g" 3 (Some (SendObjectDied "g" both_ways)) proxy_pair
      = Ret tt st1
    ∧ ProxyObjectRegistry.register "g" 1 None st1 = Ret tt st2
    ∧ ProxyObjectRegistry.get st2 "g" = VRef 1
    ∧ sym_get st2 (VRef 3) rpc_disposeFunc = VRef fn1
    ∧ SuperRPC.apply 1 (VRef fn1) VUndef [] st2 = Ret VUndef st3
    ∧ ProxyObjectRegistry.get st3 "g" = VUndef
    ∧ sym_get st3 (VRef 1) rpc_disposed = VBool false.
Proof.
  assert (Hlive : 1 ∉ collected proxy_pair).
  { intros Hin. vm_compute in Hin. discriminate Hin. }
  destruct (stale_dispose_unregisters 1 "g" 3 1 both_ways None proxy_pair
              (new_obj KObject []) (new_obj KObject []))
    as (st1 & st2 & fn1 & st3 & H1 & H2 & H3 & H4 & H5 & _ & H6 & H7 & _);
    [vm_compute; reflexivity|vm_compute; reflexivity|done|exact Hlive|].
  by exists st1, st2, fn1, st3.
Defined.

(** The function at location 0 crosses twice as ["id0"]. *)
Lemma function_keeps_its_id_witness :
  ∃ w1 st1 w2 st2,
    SuperRPC.processBeforeSerialization 1 (VRef 0) both_ways None function_side
      = Ret (VRef w1) st1
    ∧ heap st1 !! w1 = Some (function_wire "id0")
    ∧ SuperRPC.processBeforeSerialization 1 (VRef 0) async_only None st1 = Ret (VRef w2) st2
    ∧ heap st2 !! w2 = Some (function_wire "id0")
    ∧ idCount st2 = idCount st1.
Proof.
  destruct (function_keeps_its_id 0 0 (new_obj (KFunction (UserFunction 0)) [])
              (UserFunction 0) both_ways None async_only None function_side)
    as (k & w1 & st1 & w2 & st2 & H1 & Hw1 & H2 & Hw2 & _ & Hcount & Hnew);
    [vm_compute; reflexivity..|].
  destruct Hnew as [-> _]; [vm_compute; reflexivity|].
  assert (Hid : objectIdGenerator (idCount function_side) = "id0")
    by (vm_compute; reflexivity).
  rewrite Hid in Hw1, Hw2. by exists w1, st1, w2, st2.
Defined.

(** The wire form of the function ["id0"] becomes an async proxy function
    that is registered under ["id0"]. *)
Lemma function_wire_becomes_proxy_witness :
  ∃ pf st',
    SuperRPC.processAfterDeserialization 1 (VRef 0) both_ways None function_wire_side
      = Ret (VRef pf) st'
    ∧ SuperRPC.code_of st' (VRef pf)
      = Some (AsyncProxy (Some "id0") (name_descriptor None) fn_call both_ways)
    ∧ sym_get st' (VRef pf) proxyObjectId = VStr "id0"
    ∧ registry st' !! "id0" = Some pf.
Proof.
  destruct (function_wire_becomes_proxy 0 0 (function_wire "id0") "id0" both_ways None
              function_wire_side)
    as (pf & st' & Hrun & _ & Hcode & Hid & _ & Hreg & _); [vm_compute; reflexivity..|].
  by exists pf, st'.
Defined.

(** The pending promise at location 2 crosses twice as ["id0"], with one
    reaction. *)
Lemma promise_crossing_host_witness :
  ∃ w st1 w2 st2,
    SuperRPC.processBeforeSerialization 1 (VRef 2) both_ways None promise_side
      = Ret (VRef w) st1
    ∧ heap st1 !! w = Some (promise_wire "id0")
    ∧ kind_of st1 2 = Some (KPromise Pending [ReplySettlement "id0" both_ways])
    ∧ SuperRPC.processBeforeSerialization 1 (VRef 2) both_ways None st1 = Ret (VRef w2) st2
    ∧ heap st2 !! w2 = Some (promise_wire "id0")
    ∧ kind_of st2 2 = Some (KPromise Pending [ReplySettlement "id0" both_ways]).
Proof.
  assert (Hid : objectIdGenerator (idCount promise_side) = "id0")
    by (vm_compute; reflexivity).
  destruct (promise_crossing_host 0 2 (new_obj (KPromise Pending []) []) Pending []
              both_ways None both_ways None promise_side)
    as (w & st1 & w2 & st2 & H1 & Hw & _ & [_ Hkind] & _ & H2 & Hw2 & _ & _ & Hkind2 & _);
    [vm_compute; reflexivity..|].
  rewrite Hid in *. exists w, st1, w2, st2. rewrite Hkind2. by rewrite Hkind.
Defined.

(** The wire form of the promise ["id0"] becomes a pending promise, which the
    reply 7 for ["id0"] fulfils. *)
Lemma promise_wire_becomes_promise_witness :
  ∃ p st' st'',
    SuperRPC.processAfterDeserialization 1 (VRef 0) both_ways None promise_wire_side
      = Ret (VRef p) st'
    ∧ kind_of st' p = Some (KPromise Pending [])
    ∧ asyncCallbacks st' !! "id0" = Some p
    ∧ SuperRPC.messageReceived 1 (mkMessage true (fn_reply Async true (VNum 7) (VStr "id0")))
        None VUndef st' = Ret tt st''
    ∧ kind_of st'' p = Some (KPromise (Fulfilled (VNum 7)) []).
Proof.
  destruct (promise_wire_becomes_promise 0 0 (promise_wire "id0") "id0" both_ways None
              promise_wire_side)
    as (p & st' & Hrun & _ & Hkind & Hcallbacks & _ & _ & _ & _ & Hreply);
    [vm_compute; reflexivity..|].
  destruct (Hreply 0 (VNum 7) None VUndef eq_refl) as (st'' & Hrun' & Hkind').
  exists p, st', st''. rewrite Hcallbacks, lookup_insert_eq. by eauto.
Defined.

(** The function at location 0 crosses as ["id0"]; the peer sends its proxy
    back as a reference to the host object ["id0"], which the host reads as
    undefined. *)
Lemma function_sent_back_is_lost_witness :
  SuperRPC.processBeforeSerialization 1 (VRef 0) both_ways None function_side
    = Ret (VRef 1) crossed_side
  ∧ hostFunctionRegistry crossed_side !! "id0" = Some (mkEntry (VRef 0) None)
  ∧ (∃ back client',
       SuperRPC.processBeforeSerialization 1 (VRef 1) both_ways None returned_side
         = Ret (VRef back) client'
       ∧ heap client' !! back = Some (hostObject_wire (VStr "id0")))
  ∧ SuperRPC.processAfterDeserialization 1 (VRef 2) both_ways None echo_side
    = Ret VUndef echo_side
  ∧ hostFunctionRegistry echo_side !! "id0" = Some (mkEntry (VRef 0) None).
Proof.
  assert (Hid : objectIdGenerator (idCount function_side) = "id0")
    by (vm_compute; reflexivity).
  assert (Hfirst : SuperRPC.processBeforeSerialization 1 (VRef 0) both_ways None function_side
                   = Ret (VRef 1) crossed_side) by (vm_compute; reflexivity).
  destruct (function_sent_back_is_lost 0 0 (new_obj (KFunction (UserFunction 0)) [])
              (UserFunction 0) both_ways None function_side)
    as (w & host1 & Hrun & _ & Hreg & Hback & Hlost);
    [vm_compute; reflexivity..|by rewrite Hid|vm_compute; reflexivity|].
  rewrite Hfirst in Hrun. injection Hrun as <- <-. rewrite Hid in Hreg, Hback, Hlost.
  split; [exact Hfirst|]. split; [exact Hreg|]. split.
  - apply (Hback 0 1 both_ways None returned_side). vm_compute; reflexivity.
  - apply (Hlost 0 2 (hostObject_wire (VStr "id0")) both_ways None echo_side);
      vm_compute; reflexivity.
Defined.


(** The wire form of the instance ["id0"] of ["Point"]: its [props] object
    becomes the proxy instance. *)
Lemma instance_wire_becomes_proxy_witness :
  ∃ st' po',
    SuperRPC.processAfterDeserialization 1 (VRef 3) both_ways None instance_client
      = Ret (VRef 2) st'
    ∧ heap st' !! 2 = Some po'
    ∧ o_props po' = [("n", VNum 1)]
    ∧ o_proto po' = Some 1
    ∧ o_proxyObjectId po' = VStr "id0"
    ∧ registry st' !! "id0" = Some 2.
Proof.
  destruct (instance_wire_becomes_proxy 0 3
              (new_obj KObject [("_rpc_type", VStr "object"); ("objId", VStr "id0");
                                ("classId", VStr "Point"); ("props", VRef 2)])
              "id0" "Point" 2 (new_obj KObject [("n", VNum 1)]) 0 1 both_ways None
              instance_client)
    as (st' & po' & Hrun & Hpo & Hprops & Hproto & Hid & _ & Hreg & _);
    [vm_compute; reflexivity|vm_compute; reflexivity|vm_compute; reflexivity
    |vm_compute; reflexivity|vm_compute; reflexivity|vm_compute; reflexivity
    |vm_compute; reflexivity|done
    |vm_compute; reflexivity|vm_compute; reflexivity|vm_compute; reflexivity|].
  by exists st', po'.
Defined.

(** The method call [add_tick] on ["svc"] is mapped to its
    [addEventListener]. *)
Lemma event_subscription_mapping_witness :
  SuperRPC.callTargetFunction 1 method_call Void (VStr "svc") (VStr "add_tick") [] VUndef
    both_ways service_side = Ret tt service_side
  ∧ SuperRPC.callTargetFunction 1 method_call Sync (VStr "svc") (VStr "add_tick") [] VUndef
      both_ways service_side
    = Ret tt (set_sent [(ViaSync, both_ways, mkMessage true (fn_reply Sync true VUndef VUndef))]
                       service_side).
Proof.
  destruct (event_subscription_mapping 1 (VStr "svc") "add" "tick" [] VUndef both_ways
              service_side (mkEntry (VRef 1) (Some (set_d_type TObject empty_descriptor)))
              (VRef 0))
    as (Hvoid & Hsync & _);
    [by left|vm_compute; reflexivity|vm_compute; reflexivity|vm_compute; reflexivity
    |done|vm_compute; reflexivity|vm_compute; reflexivity|].
  split.
  - exact Hvoid.
  - apply (Hsync VUndef service_side VUndef service_side); vm_compute; reflexivity.
Defined.

(** [addEventListener('tick', listener)] on the proxy of ["obj"] sends the
    method call [add_tick]; on a proxy without object id it sends nothing. *)
Lemma listener_subscribes_witness :
  (∃ st',
     SuperRPC.eventListenerFunction 1 2 true (Some "obj") (Some events_descriptor)
       [VStr "tick"] ∅ [VStr "tick"; VRef 0] (listener_side (Some "obj")) = Ret VUndef st'
     ∧ ∃ w, sent st' = [(ViaAsync, both_ways,
                        mkMessage true (call method_call Async (VStr "obj") (VStr "add_tick")
                                          [VRef w] (VStr "1")))]
            ∧ heap st' !! w = Some (function_wire "id0"))
  ∧ ∃ st',
      SuperRPC.eventListenerFunction 1 2 true None (Some events_descriptor)
        [VStr "tick"] ∅ [VStr "tick"; VRef 0] (listener_side None) = Ret VUndef st'
      ∧ sent st' = [].
Proof.
  split.
  - destruct (listener_subscribes 1 2 true (Some "obj") (Some events_descriptor)
                [VStr "tick"] ∅ "tick" (VRef 0) (listener_side (Some "obj")))
      as [Hsend _];
      [vm_compute; reflexivity|apply list_elem_of_singleton; reflexivity
      |done|vm_compute; reflexivity|vm_compute; reflexivity|].
    eexists. split.
    + eapply (Hsend "obj"); [reflexivity|]. vm_compute. reflexivity.
    + eexists. split; vm_compute; reflexivity.
  - destruct (listener_subscribes 1 2 true None (Some events_descriptor)
                [VStr "tick"] ∅ "tick" (VRef 0) (listener_side None))
      as [_ Hnone];
      [vm_compute; reflexivity|apply list_elem_of_singleton; reflexivity
      |done|vm_compute; reflexivity|vm_compute; reflexivity|].
    destruct (Hnone eq_refl) as (e & st' & Hrun & _ & Hsent & _).
    exists st'. split; [exact Hrun|]. rewrite Hsent. vm_compute; reflexivity.
Defined.

End more_examples.
